(** * ShadowPay: private-transfer fragmentation and compliance attestation

    A shallow embedding of the engine of the shadowpay-demo repository:

    - [src/lib/privacy-utils.ts]      address derivation, amount splitting,
                                      privacy score;
    - [src/app/page.tsx]              [scheduleWithdrawals];
    - [src/lib/range-client.ts]       compliance gateway;
    - [src/lib/noir-proof-service.ts] proof validation, verification and
                                      serialization;
    - [src/lib/compliance-service.ts] attestation generation and verification,
                                      private transfers;
    - [src/lib/shadowwire-service.ts] fees and transfers;
    - [src/app/api/proof/verify/route.ts] the verification endpoint.

    Conventions of the embedding.

    - A JavaScript [number] is an exact rational ([Q]), or an integer ([Z])
      where the code only ever stores integers (risk scores, ages, indices,
      epoch milliseconds).  [NaN] and the infinities have no counterpart: a
      function whose JavaScript result would not be finite returns [None].
      Rounding error of IEEE doubles is not modelled.
    - A [Uint8Array] is a [list byte].
    - A JavaScript string is a [string]; its characters stand for the code
      units U+0000 to U+00FF.
    - [Math.random()], [Date.now()] and the remote services are read from an
      explicit world that is threaded through the effectful functions.
    - [throw] is the [Throws] outcome of the effect monad, or [inl] of a sum
      for the synchronous validators. *)

From Stdlib Require Import ZArith QArith Qround Qabs List String Ascii.
From Stdlib.Strings Require Import Byte.
From Stdlib Require Import DecimalString DecimalN.
From Stdlib Require DecimalFacts.
From Stdlib Require Import Lia Lqa Bool Morphisms.
Import ListNotations.

Set Implicit Arguments.

(* ================================================================== *)
(** * JavaScript numbers *)
(* ================================================================== *)

Module JS.

#[local] Open Scope Q_scope.

(** [Math.floor(x)]. *)
Definition Math_floor (x : Q) : Z := Qfloor x.

(** [Math.round(x)]: the nearest integer, ties towards plus infinity. *)
Definition Math_round (x : Q) : Z := Qfloor (x + (1 # 2)).

(** [Math.min(x, y)]. *)
Definition Math_min (x y : Q) : Q := if Qle_bool x y then x else y.

(** [Math.pow(x, 2)]. *)
Definition Math_pow2 (x : Q) : Q := x * x.

(** [a.reduce((x, y) => x + y, 0)]. *)
Definition sum (l : list Q) : Q := fold_left Qplus l 0.

(** Numbers of a list are pairwise the same numbers. *)
Definition Qlist_eq : list Q -> list Q -> Prop := Forall2 Qeq.

End JS.

(* ================================================================== *)
(** * JavaScript strings and byte arrays *)
(* ================================================================== *)

Module JSString.

#[local] Open Scope string_scope.
#[local] Open Scope N_scope.

(** The code unit of a character. *)
Definition code (c : ascii) : N := N_of_ascii c.

(** [s.toLowerCase()] on the code units U+0000 to U+00FF: the capital
    letters A to Z and the capital Latin-1 letters (U+00C0 to U+00DE,
    without the multiplication sign U+00D7) move up by 32. *)
Definition lower_char (c : ascii) : ascii :=
  let n := code c in
  if ((65 <=? n) && (n <=? 90)) ||
     ((192 <=? n) && (n <=? 222) && negb (n =? 215))
  then ascii_of_N (n + 32) else c.

Fixpoint toLowerCase (s : string) : string :=
  match s with
  | EmptyString => EmptyString
  | String c r => String (lower_char c) (toLowerCase r)
  end.

(** [s.includes(sub)]: [sub] occurs in [s] as a substring. *)
Fixpoint includes (s sub : string) : bool :=
  String.prefix sub s ||
  match s with
  | EmptyString => false
  | String _ r => includes r sub
  end.

(** [String(n)] and [n.toString()] of an integer. *)
Definition String_of_Z (n : Z) : string :=
  match n with
  | Zneg p => "-" ++ NilZero.string_of_uint (N.to_uint (Npos p))
  | _ => NilZero.string_of_uint (N.to_uint (Z.to_N n))
  end.

(** A digit of [toString(radix)]: [0-9] then [a-z]. *)
Definition digit (d : N) : ascii :=
  if d <? 10 then ascii_of_N (48 + d) else ascii_of_N (87 + d).

Fixpoint digits (radix : N) (fuel : nat) (n : N) (acc : string) : string :=
  match fuel with
  | O => acc
  | S f =>
      let acc' := String (digit (n mod radix)) acc in
      if n / radix =? 0 then acc' else digits radix f (n / radix) acc'
  end.

(** [n.toString(radix)] of an integer, for a radix from 2 to 36. *)
Definition toStringRadix (radix : N) (n : Z) : string :=
  let m := Z.to_N (Z.abs n) in
  (if (n <? 0)%Z then "-" else EmptyString)
  ++ digits radix (S (N.to_nat (N.log2 m))) m EmptyString.

(** [s.padStart(8, '0')]. *)
Definition padStart8 (s : string) : string :=
  Nat.iter (8 - String.length s) (String "0") s.

(** A byte from an integer, as storing into a [Uint8Array] does
    (the value modulo 256). *)
Definition Uint8 (z : Z) : byte :=
  match Byte.of_N (Z.to_N (z mod 256)) with
  | Some b => b
  | None => x00
  end.

(** The number read from a [Uint8Array] element. *)
Definition byte_val (b : byte) : Z := Z.of_N (Byte.to_N b).

(** [new TextEncoder().encode(s)]: UTF-8; a code unit below U+0080 is
    one byte, one from U+0080 to U+00FF two bytes. *)
Fixpoint TextEncoder_encode (s : string) : list byte :=
  match s with
  | EmptyString => []
  | String c r =>
      let n := Z.of_N (code c) in
      (if (n <? 128)%Z then [Uint8 n]
       else [Uint8 (192 + n / 64); Uint8 (128 + n mod 64)])
      ++ TextEncoder_encode r
  end.

End JSString.

(* ================================================================== *)
(** * JSON.stringify and JSON.parse *)
(* ================================================================== *)

Module JSON.

Import JSString.
#[local] Open Scope string_scope.

(** JSON values.  Numbers are integers, printed with all their digits
    (as JavaScript does below 1e21): the engine serializes bytes, ages,
    scores and timestamps only. *)
#[local] Set Warnings "-register-all".

Inductive json : Type :=
| JNull
| JBool (b : bool)
| JNum (n : Z)
| JStr (s : string)
| JArr (items : list json)
| JObj (members : list (string * json)).

(** ** Printing *)

(** The quotation mark, U+0022. *)
Definition dquote : ascii := ascii_of_N 34.

Definition hex_digit (d : N) : ascii :=
  if (d <? 10)%N then ascii_of_N (48 + d) else ascii_of_N (87 + d).

(** QuoteJSONString, one code unit. *)
Definition quote_char (c : ascii) : string :=
  let n := code c in
  if (n =? 34)%N then String "\" (String dquote EmptyString)
  else if (n =? 92)%N then "\\"
  else if (n =? 8)%N then "\b"
  else if (n =? 12)%N then "\f"
  else if (n =? 10)%N then "\n"
  else if (n =? 13)%N then "\r"
  else if (n =? 9)%N then "\t"
  else if (n <? 32)%N then
    "\u00" ++ String (hex_digit (n / 16))
                      (String (hex_digit (n mod 16)) EmptyString)
  else String c EmptyString.

Fixpoint quote_body (s : string) : string :=
  match s with
  | EmptyString => EmptyString
  | String c r => quote_char c ++ quote_body r
  end.

Definition quote (s : string) : string :=
  String dquote (quote_body s ++ String dquote EmptyString).

(** Elements separated by commas. *)
Fixpoint commas (l : list string) : string :=
  match l with
  | [] => EmptyString
  | [x] => x
  | x :: r => x ++ "," ++ commas r
  end.

Fixpoint stringify (v : json) : string :=
  match v with
  | JNull => "null"
  | JBool true => "true"
  | JBool false => "false"
  | JNum n => String_of_Z n
  | JStr s => quote s
  | JArr items => "[" ++ commas (map stringify items) ++ "]"
  | JObj members =>
      "{" ++ commas (map (fun kv => quote (fst kv) ++ ":" ++ stringify (snd kv))
                         members) ++ "}"
  end.

(** ** Parsing *)

(** JSON white space: space, tab, line feed, carriage return. *)
Definition is_ws (c : ascii) : bool :=
  let n := code c in
  ((n =? 32) || (n =? 9) || (n =? 10) || (n =? 13))%N.

Fixpoint skip_ws (s : string) : string :=
  match s with
  | String c r => if is_ws c then skip_ws r else s
  | EmptyString => s
  end.

Definition is_digit (c : ascii) : bool :=
  let n := code c in ((48 <=? n) && (n <=? 57))%N.

(** The longest prefix of digits, and what follows it. *)
Fixpoint span_digits (s : string) : string * string :=
  match s with
  | String c r =>
      if is_digit c then
        let (d, t) := span_digits r in (String c d, t)
      else (EmptyString, s)
  | EmptyString => (EmptyString, EmptyString)
  end.

(** A fraction or an exponent follows: not an integer. *)
Definition starts_fraction (s : string) : bool :=
  match s with
  | String c _ =>
      let n := code c in ((n =? 46) || (n =? 101) || (n =? 69))%N
  | EmptyString => false
  end.

(** Digits without a superfluous leading zero. *)
Definition parse_nat (s : string) : option (N * string) :=
  let (d, rest) := span_digits s in
  match d with
  | EmptyString => None
  | String c d' =>
      if ((code c =? 48)%N && negb (String.length d' =? 0)%nat)
         || starts_fraction rest
      then None
      else match NilZero.uint_of_string d with
           | Some u => Some (N.of_uint u, rest)
           | None => None
           end
  end.

Definition parse_number (s : string) : option (Z * string) :=
  match s with
  | String c r =>
      if (code c =? 45)%N then
        match parse_nat r with
        | Some (n, rest) => Some ((- Z.of_N n)%Z, rest)
        | None => None
        end
      else
        match parse_nat s with
        | Some (n, rest) => Some (Z.of_N n, rest)
        | None => None
        end
  | EmptyString => None
  end.

Definition hex_val (c : ascii) : option N :=
  let n := code c in
  if ((48 <=? n) && (n <=? 57))%N then Some (n - 48)%N
  else if ((97 <=? n) && (n <=? 102))%N then Some (n - 87)%N
  else if ((65 <=? n) && (n <=? 70))%N then Some (n - 55)%N
  else None.

Definition hex4 (a b c d : ascii) : option N :=
  match hex_val a, hex_val b, hex_val c, hex_val d with
  | Some x, Some y, Some z, Some w =>
      Some (((x * 16 + y) * 16 + z) * 16 + w)%N
  | _, _, _, _ => None
  end.

(** The character of a one-letter escape. *)
Definition unescape (e : ascii) : option ascii :=
  let n := code e in
  if (n =? 34)%N then Some dquote
  else if (n =? 92)%N then Some (ascii_of_N 92)
  else if (n =? 47)%N then Some (ascii_of_N 47)
  else if (n =? 98)%N then Some (ascii_of_N 8)
  else if (n =? 102)%N then Some (ascii_of_N 12)
  else if (n =? 110)%N then Some (ascii_of_N 10)
  else if (n =? 114)%N then Some (ascii_of_N 13)
  else if (n =? 116)%N then Some (ascii_of_N 9)
  else None.

Definition cons_to (c : ascii) (r : option (string * string))
  : option (string * string) :=
  match r with
  | Some (t, rest) => Some (String c t, rest)
  | None => None
  end.

(** The characters of a string literal after its opening quote, up to
    and including the closing quote.  A code unit above U+00FF is not
    representable: [None]. *)
Fixpoint parse_chars (s : string) : option (string * string) :=
  match s with
  | EmptyString => None
  | String c r =>
      if (code c =? 34)%N then Some (EmptyString, r)
      else if (code c =? 92)%N then
        match r with
        | EmptyString => None
        | String e r1 =>
            match unescape e with
            | Some c' => cons_to c' (parse_chars r1)
            | None =>
                if (code e =? 117)%N then
                  match r1 with
                  | String h1 (String h2 (String h3 (String h4 r2))) =>
                      match hex4 h1 h2 h3 h4 with
                      | Some n =>
                          if (n <? 256)%N
                          then cons_to (ascii_of_N n) (parse_chars r2)
                          else None
                      | None => None
                      end
                  | _ => None
                  end
                else None
            end
        end
      else if (code c <? 32)%N then None
      else cons_to c (parse_chars r)
  end.

(** [s] without the prefix [p]. *)
Fixpoint strip_prefix (p s : string) : option string :=
  match p, s with
  | EmptyString, _ => Some s
  | String a p', String b s' =>
      if Ascii.eqb a b then strip_prefix p' s' else None
  | String _ _, EmptyString => None
  end.

Fixpoint parse_value (fuel : nat) (s : string) : option (json * string) :=
  match fuel with
  | O => None
  | S f =>
      match skip_ws s with
      | EmptyString => None
      | String c r =>
          let n := code c in
          if (n =? 34)%N then
            match parse_chars r with
            | Some (t, rest) => Some (JStr t, rest)
            | None => None
            end
          else if (n =? 91)%N then
            match skip_ws r with
            | EmptyString => None
            | String c2 r2 =>
                if (code c2 =? 93)%N then Some (JArr [], r2)
                else match parse_elems f r with
                     | Some (vs, rest) => Some (JArr vs, rest)
                     | None => None
                     end
            end
          else if (n =? 123)%N then
            match skip_ws r with
            | EmptyString => None
            | String c2 r2 =>
                if (code c2 =? 125)%N then Some (JObj [], r2)
                else match parse_members f r with
                     | Some (ms, rest) => Some (JObj ms, rest)
                     | None => None
                     end
            end
          else
            match strip_prefix "null" (String c r) with
            | Some rest => Some (JNull, rest)
            | None =>
            match strip_prefix "true" (String c r) with
            | Some rest => Some (JBool true, rest)
            | None =>
            match strip_prefix "false" (String c r) with
            | Some rest => Some (JBool false, rest)
            | None =>
            match parse_number (String c r) with
            | Some (z, rest) => Some (JNum z, rest)
            | None => None
            end end end end
      end
  end

with parse_elems (fuel : nat) (s : string) : option (list json * string) :=
  match fuel with
  | O => None
  | S f =>
      match parse_value f s with
      | None => None
      | Some (v, rest) =>
          match skip_ws rest with
          | EmptyString => None
          | String c r =>
              if (code c =? 44)%N then
                match parse_elems f r with
                | Some (vs, rest') => Some (v :: vs, rest')
                | None => None
                end
              else if (code c =? 93)%N then Some ([v], r)
              else None
          end
      end
  end

with parse_members (fuel : nat) (s : string)
  : option (list (string * json) * string) :=
  match fuel with
  | O => None
  | S f =>
      match skip_ws s with
      | EmptyString => None
      | String q r =>
          if negb (code q =? 34)%N then None else
          match parse_chars r with
          | None => None
          | Some (k, rest0) =>
              match skip_ws rest0 with
              | EmptyString => None
              | String colon rest1 =>
                  if negb (code colon =? 58)%N then None else
                  match parse_value f rest1 with
                  | None => None
                  | Some (v, rest) =>
                      match skip_ws rest with
                      | EmptyString => None
                      | String c r' =>
                          if (code c =? 44)%N then
                            match parse_members f r' with
                            | Some (ms, rest') => Some ((k, v) :: ms, rest')
                            | None => None
                            end
                          else if (code c =? 125)%N then Some ([(k, v)], r')
                          else None
                      end
                  end
              end
          end
      end
  end.

(** Fuel that parsing the printed form of a value takes. *)
Fixpoint weight (v : json) : nat :=
  match v with
  | JArr items => S (list_sum (map (fun x => S (weight x)) items))
  | JObj members => S (list_sum (map (fun kv => S (weight (snd kv))) members))
  | _ => 1
  end.

(** What may follow a number: no digit, fraction or exponent. *)
Definition ends_number (rest : string) : bool :=
  match rest with
  | String c _ => negb (is_digit c) && negb (starts_fraction rest)
  | EmptyString => true
  end.

(** [JSON.parse(s)]; [None] is the [SyntaxError]. *)
Definition parse (s : string) : option json :=
  match parse_value (S (String.length s)) s with
  | Some (v, rest) =>
      match skip_ws rest with
      | EmptyString => Some v
      | String _ _ => None
      end
  | None => None
  end.

(** Property access [v.key] on a parsed value: of the members with that
    name the last one wins; [None] is [undefined]. *)
Fixpoint lookup (key : string) (members : list (string * json))
  : option json :=
  match members with
  | [] => None
  | (k, v) :: r =>
      match lookup key r with
      | Some v' => Some v'
      | None => if String.eqb k key then Some v else None
      end
  end.

Definition get (key : string) (v : json) : option json :=
  match v with
  | JObj members => lookup key members
  | _ => None
  end.

(** ** Vocabulary of the round trip *)

(** The first character of a printed number: a digit or the sign. *)
Definition number_start (c : ascii) : bool :=
  is_digit c || (code c =? 45)%N.

(** The first character of a printed value is no white space and
    closes neither an array nor an object. *)
Definition opens_value (c : ascii) : bool :=
  negb (is_ws c) && negb (code c =? 93)%N && negb (code c =? 125)%N.

(** A printed member. *)
Definition member (kv : string * json) : string :=
  (quote (fst kv) ++ ":" ++ stringify (snd kv))%string.

(** The statement of the round trip for one value. *)
Definition reads_back (v : json) : Prop :=
  forall (f : nat) (rest : string),
    (weight v <= f)%nat -> ends_number rest = true ->
    parse_value f (stringify v ++ rest) = Some (v, rest).

End JSON.

(* ================================================================== *)
(** * privacy-utils.ts: the privacy score *)
(* ================================================================== *)

Module PrivacyScore.

Import JS.
#[local] Open Scope Q_scope.

(** The argument object of [calculatePrivacyScore]. *)
Record Config : Type := mkConfig {
  splitCount : Q;
  uniqueAddresses : Q;
  minAgingHours : Q;
  poolSize : Q
}.

(** [Math.min(100, (config.splitCount / 5) * 100)] *)
Definition splitScore (config : Config) : Q :=
  Math_min 100 ((splitCount config / 5) * 100).

(** [uniqueAddresses >= splitCount ? 100 : (uniqueAddresses / splitCount) * 100].
    The quotient is not finite when [splitCount] is [0] (and
    [uniqueAddresses] negative): [None]. *)
Definition addressScore (config : Config) : option Q :=
  if Qle_bool (splitCount config) (uniqueAddresses config) then Some 100
  else if Qeq_bool (splitCount config) 0 then None
  else Some ((uniqueAddresses config / splitCount config) * 100).

(** [Math.min(100, (config.minAgingHours / 48) * 100)] *)
Definition agingScore (config : Config) : Q :=
  Math_min 100 ((minAgingHours config / 48) * 100).

(** [Math.min(100, (config.poolSize / 1000) * 100)] *)
Definition poolScore (config : Config) : Q :=
  Math_min 100 ((poolSize config / 1000) * 100).

(** The weighted sum before rounding. *)
Definition weighted (s a g p : Q) : Q :=
  (s * 0.3) + (a * 0.25) + (g * 0.25) + (p * 0.2).

Definition calculatePrivacyScore (config : Config) : option Z :=
  match addressScore config with
  | None => None
  | Some a =>
      Some (Math_round (weighted (splitScore config) a
                                 (agingScore config) (poolScore config)))
  end.

(** Two configurations that hold the same numbers. *)
Definition Config_eq (c d : Config) : Prop :=
  splitCount c == splitCount d /\
  uniqueAddresses c == uniqueAddresses d /\
  minAgingHours c == minAgingHours d /\
  poolSize c == poolSize d.

(** Both scores are finite numbers, the first at most the second. *)
Definition score_le (s s' : option Z) : Prop :=
  match s, s' with
  | Some x, Some y => (x <= y)%Z
  | _, _ => False
  end.

(** All four inputs are non-negative. *)
Definition nonneg (c : Config) : Prop :=
  0 <= splitCount c /\ 0 <= uniqueAddresses c /\
  0 <= minAgingHours c /\ 0 <= poolSize c.

End PrivacyScore.

(* ================================================================== *)
(** * Effects: state and exceptions *)
(* ================================================================== *)

Module Eff.

Section Monad.

(** The state, and the values that are thrown. *)
Variables S E : Type.

Inductive Outcome (A : Type) : Type :=
| Returns (a : A) (s : S)
| Throws (e : E) (s : S).

Arguments Returns {A} a s.
Arguments Throws {A} e s.

Definition M (A : Type) : Type := S -> Outcome A.

Definition ret {A} (a : A) : M A := fun s => Returns a s.

Definition throw {A} (e : E) : M A := fun s => Throws e s.

Definition bind {A B} (c : M A) (k : A -> M B) : M B :=
  fun s =>
    match c s with
    | Returns a s' => k a s'
    | Throws e s' => Throws e s'
    end.

(** [try { c } catch (e) { h(e) }]: the handler runs in the state the
    body had reached. *)
Definition try_catch {A} (c : M A) (h : E -> M A) : M A :=
  fun s =>
    match c s with
    | Returns a s' => Returns a s'
    | Throws e s' => h e s'
    end.

Definition get_state : M S := fun s => Returns s s.

Definition put_state (s : S) : M unit := fun _ => Returns tt s.

(** A synchronous result, thrown when it is an error. *)
Definition of_sum {A} (r : E + A) : M A :=
  match r with
  | inl e => throw e
  | inr a => ret a
  end.

(** [xs.map((x, index) => f(x, index))] for an effectful callback,
    [index] counting from [i]. *)
Fixpoint mapi_from {A B} (f : A -> Z -> M B) (i : Z) (xs : list A)
  : M (list B) :=
  match xs with
  | [] => ret []
  | x :: r =>
      bind (f x i) (fun y =>
      bind (mapi_from f (i + 1) r) (fun ys =>
      ret (y :: ys)))
  end.

End Monad.

Arguments Returns {S E A} a s.
Arguments Throws {S E A} e s.
Arguments ret {S E A} a _.
Arguments throw {S E A} e _.
Arguments bind {S E A B} c k _.
Arguments try_catch {S E A} c h _.
Arguments get_state {S E} _.
Arguments put_state {S E} s _.
Arguments of_sum {S E A} r _.
Arguments mapi_from {S E A B} f i xs _.

(** A computation on a part [S] of a larger state [T]. *)
Definition zoom {S T E A} (proj : T -> S) (upd : S -> T -> T)
           (c : M S E A) : M T E A :=
  fun t =>
    match c (proj t) with
    | Returns a s => Returns a (upd s t)
    | Throws e s => Throws e (upd s t)
    end.

End Eff.

Declare Scope eff_scope.
Delimit Scope eff_scope with eff.
Notation "x <- c ;; k" := (Eff.bind c (fun x => k))
  (at level 61, c at next level, right associativity) : eff_scope.
Notation "c ;;; k" := (Eff.bind c (fun _ => k))
  (at level 61, right associativity) : eff_scope.

(* ================================================================== *)
(** * The data model *)
(* ================================================================== *)

(** ** range-client.ts *)

Module Range.

Inductive RiskLevel : Type :=
| CriticalRisk        (* 'CRITICAL RISK (Directly malicious)' *)
| ExtremelyHighRisk   (* 'Extremely high risk' *)
| HighRisk            (* 'High risk' *)
| MediumRisk          (* 'Medium risk' *)
| LowRisk             (* 'Low risk' *)
| VeryLowRisk.        (* 'Very low risk' *)

(** [category] is read with [?.]: it may be missing at run time. *)
Record MaliciousEvidence : Type := mkEvidence {
  address : string;
  distance : Z;
  name_tag : option string;
  entity : option string;
  category : option string
}.

Record RiskScoreResponse : Type := mkResponse {
  riskScore : Z;
  riskLevel : RiskLevel;
  numHops : Z;
  maliciousAddressesFound : list MaliciousEvidence;
  reasoning : string
}.

End Range.

Module Check.

Record ComplianceCheckResult : Type := mkResult {
  isCompliant : bool;
  riskScore : Z;
  riskLevel : Range.RiskLevel;
  isSanctioned : bool;
  reasoning : string;
  rawResponse : Range.RiskScoreResponse
}.

End Check.

(** ** noir-proof-service.ts *)

Module Noir.

Record GeneratedProof : Type := mkProof {
  proof : list byte;
  publicInputs : list string;
  isRealProof : bool
}.

Record VerificationResult : Type := mkVerification {
  isValid : bool;
  error : option string
}.

Inductive CircuitType : Type :=
| age_verification
| risk_threshold
| selective_disclosure.

(** The file name and the JSON spelling of a circuit type. *)
Definition circuit_name (c : CircuitType) : string :=
  match c with
  | age_verification => "age_verification"
  | risk_threshold => "risk_threshold"
  | selective_disclosure => "selective_disclosure"
  end.

(** [ProofInput]: an object of numbers and booleans, in key order. *)
Definition ProofInput : Type := list (string * JSON.json).

Record CircuitArtifact : Type := mkArtifact {
  bytecode : string
}.

End Noir.

(** ** @solana/web3.js *)

Module Solana.

(** A key pair: the 32-byte public key, and the 64-byte secret key, which
    is the seed followed by the public key. *)
Record Keypair : Type := mkKeypair {
  publicKey : list byte;
  secretKey : list byte
}.

End Solana.

(* ================================================================== *)
(** * The platform and the world *)
(* ================================================================== *)

(** Pure functions of the platform that the engine calls and that have no
    exact rational counterpart, or that belong to other libraries. *)
Class Platform : Type := {
(** [Math.sin], as the platform approximates it. *)
Math_sin : Q -> Q;
(** [Math.log], as the platform approximates it. *)
Math_log : Q -> Q;
(** The Ed25519 public key of a 32-byte seed (tweetnacl). *)
ed25519_public : list byte -> list byte;
(** [PublicKey.toBase58()]. *)
toBase58 : list byte -> string;
(** [x.toString(36).substring(2, 10)] of a number in [0,1). *)
fraction36 : Q -> string
}.

(** What the engine reads from outside. *)
Record World : Type := mkWorld {
(** the results of the successive calls of [Math.random()] *)
random_draws : nat -> Q;
random_calls : nat;
(** the results of the successive calls of [Date.now()] *)
clock : nat -> Z;
clock_reads : nat;
(** the answers of the risk provider to the successive requests: the
    response body, or the error the HTTP client throws *)
range_api : nat -> string -> string + Range.RiskScoreResponse;
range_calls : nat;
(** the module-level flag set when the Noir libraries are loaded *)
noirInitialized : bool;
(** the circuit artifact served at [circuitsPath/type.json], if any *)
circuits : Noir.CircuitType -> option Noir.CircuitArtifact;
(** the proving backend: proof bytes and, if reported, public inputs;
    [None] when execution or proving throws *)
backend_prove : Noir.CircuitType -> Noir.ProofInput
                -> option (list byte * option (list string));
(** the verifier of the proving backend, or the error it throws *)
backend_verify : Noir.CircuitType -> list byte -> list string
                 -> string + bool
}.

(** [Math.random()] returns a number of [0,1). *)
Definition random_in_range (w : World) : Prop :=
  forall k, (0 <= random_draws w k /\ random_draws w k < 1)%Q.

Module Sys.

Import Eff.
#[local] Open Scope eff_scope.

(** Computations of the engine: they read the world and throw messages. *)
Definition IO : Type -> Type := M World string.

Definition Math_random : IO Q :=
  fun w =>
    Returns (random_draws w (random_calls w))
            (mkWorld (random_draws w) (S (random_calls w))
                     (clock w) (clock_reads w)
                     (range_api w) (range_calls w)
                     (noirInitialized w) (circuits w)
                     (backend_prove w) (backend_verify w)).

Definition Date_now : IO Z :=
  fun w =>
    Returns (clock w (clock_reads w))
            (mkWorld (random_draws w) (random_calls w)
                     (clock w) (S (clock_reads w))
                     (range_api w) (range_calls w)
                     (noirInitialized w) (circuits w)
                     (backend_prove w) (backend_verify w)).

(** [GET /v1/risk/address?address=...&network=solana]. *)
Definition http_get_risk (address : string) : IO Range.RiskScoreResponse :=
  fun w =>
    let w' := mkWorld (random_draws w) (random_calls w)
                      (clock w) (clock_reads w)
                      (range_api w) (S (range_calls w))
                      (noirInitialized w) (circuits w)
                      (backend_prove w) (backend_verify w) in
    match range_api w (range_calls w) address with
    | inl e => Throws e w'
    | inr r => Returns r w'
    end.

(** The world after some more calls of [Math.random()]. *)
Definition drawn (w : World) (n : nat) : World :=
  mkWorld (random_draws w) (n + random_calls w)
          (clock w) (clock_reads w) (range_api w) (range_calls w)
          (noirInitialized w) (circuits w)
          (backend_prove w) (backend_verify w).

End Sys.

(* ================================================================== *)
(** * privacy-utils.ts: address derivation and amount splitting *)
(* ================================================================== *)

Module PrivacyUtils.

Import JS JSString Eff Sys.
#[local] Open Scope Z_scope.

Section WithPlatform.

Context {platform : Platform}.

(** ** deriveKeypair, deriveAddress *)

Definition ED25519_CURVE_ORDER : Z :=
  0x7FFFFFFFFFFFFFFFFFFFFFFFFFFFFFFFFFFFFFFFFFFFFFFFFFFFFFFFFFFFFFED.

(** [new DataView(indexBytes.buffer).setUint32(0, index, false)]: the
    index modulo 2^32, most significant byte first. *)
Definition indexBytes (index : Z) : list byte :=
  let u := index mod 2 ^ 32 in
  [Uint8 (u / 2 ^ 24); Uint8 (u / 2 ^ 16); Uint8 (u / 2 ^ 8); Uint8 u].

(** [combined]: the seed followed by the four index bytes. *)
Definition combined (seed : list byte) (index : Z) : list byte :=
  seed ++ indexBytes index.

(** The first loop: [hash = (hash * 256n + BigInt(combined[i])) % ORDER]. *)
Definition hashStep (hash : Z) (b : byte) : Z :=
  (hash * 256 + byte_val b) mod ED25519_CURVE_ORDER.

Definition hashBytes (bytes : list byte) : Z :=
  fold_left hashStep bytes 0.

(** The second loop, for [i] from [n - 1] down to [0]:
    [derived[i] = Number(hash & 0xFFn); hash = hash >> 8n]. *)
Fixpoint fillDerived (n : nat) (hash : Z) (derived : list byte) : list byte :=
  match n with
  | O => derived
  | S k =>
      fillDerived k (Z.shiftr hash 8) (Uint8 (Z.land hash 0xFF) :: derived)
  end.

Definition derivedSeed (seed : list byte) (index : Z) : list byte :=
  fillDerived 32 (hashBytes (combined seed index)) [].

(** [Keypair.fromSeed(seed)]: throws unless the seed has 32 bytes. *)
Definition Keypair_fromSeed (seed : list byte) : string + Solana.Keypair :=
  if (List.length seed =? 32)%nat
  then inr (Solana.mkKeypair (ed25519_public seed)
                             (seed ++ ed25519_public seed))
  else inl "bad seed size"%string.

Definition deriveKeypair (seed : list byte) (index : Z)
  : string + Solana.Keypair :=
  Keypair_fromSeed (derivedSeed seed index).

Definition deriveAddress (seed : list byte) (index : Z) : string + string :=
  match deriveKeypair seed index with
  | inl e => inl e
  | inr keypair => inr (toBase58 (Solana.publicKey keypair))
  end.

(** ** splitAmount *)

#[local] Open Scope Q_scope.

(** [x < y] on numbers. *)
Definition Qltb (x y : Q) : bool := negb (Qle_bool y x).

(** The band of split counts chosen from the amount. *)
Definition band (total : Q) : Z * Z :=
  if Qltb total 0.5 then (2, 3)%Z
  else if Qltb total 2 then (3, 4)%Z
  else if Qltb total 10 then (3, 5)%Z
  else (4, 7)%Z.

Definition cents : list Q := [17; 23; 41; 67; 83; 91; 3; 7; 13; 29; 37; 43].

(** [cents[Math.floor(r * cents.length)]].  For [r] in [0,1) the index
    is within the menu. *)
Definition pickCents (r : Q) : Q :=
  nth (Z.to_nat (Math_floor (r * inject_Z (Z.of_nat (List.length cents)))))
      cents 0.

(** The body of the second [map]: noise, truncation to two decimals, and
    the odd offset, from the two draws [r1] and [r2]. *)
Definition noisyAmount (s r1 r2 : Q) : Q :=
  let noise := (r1 - 0.5) * 0.1 * s in
  let noisy := s + noise in
  let randomCents := pickCents r2 in
  inject_Z (Math_floor (noisy * 100)) / 100 + randomCents / 10000.

(** [splits[splits.length - 1] += d]; on an empty array the assignment
    changes no element. *)
Fixpoint addToLast (d : Q) (splits : list Q) : list Q :=
  match splits with
  | [] => []
  | [s] => [s + d]
  | s :: r => s :: addToLast d r
  end.

(** [Math.round(s * 10000) / 10000]. *)
Definition round4 (s : Q) : Q := inject_Z (Math_round (s * 10000)) / 10000.

(** The common tail of both splitters: normalisation of the last
    fragment and rounding to four decimals. *)
Definition conserve (total : Q) (splits : list Q) : list Q :=
  let currentTotal := sum splits in
  map round4 (addToLast (total - currentTotal) splits).

(** [for (i = 0; i < n; i++) weights.push(Math.pow(Math.random(), 2) + 0.1)]. *)
Fixpoint pushWeights (n : nat) (weights : list Q) : IO (list Q) :=
  match n with
  | O => ret weights
  | S k =>
      (r <- Math_random ;;
       pushWeights k (weights ++ [Math_pow2 r + 0.1]))%eff
  end.

Definition addNoise (s : Q) (_ : Z) : IO Q :=
  (r1 <- Math_random ;;
   r2 <- Math_random ;;
   ret (noisyAmount s r1 r2))%eff.

(** The fragments before the total is restored: count, weights,
    normalisation and noise. *)
Definition randomSplits (total : Q) (minSplits maxSplits : option Z)
  : IO (list Q) :=
  let '(effectiveMin, effectiveMax) :=
    match minSplits, maxSplits with
    | Some lo, Some hi => (lo, hi)
    | _, _ => band total
    end in
  (r <- Math_random ;;
   let splitCount :=
     (effectiveMin +
      Math_floor (r * inject_Z (effectiveMax - effectiveMin + 1)))%Z in
   weights <- pushWeights (Z.to_nat splitCount) [] ;;
   let totalWeight := sum weights in
   let splits := map (fun w => (w / totalWeight) * total) weights in
   mapi_from addNoise 0 splits)%eff.

Definition splitAmount (total : Q) (minSplits maxSplits : option Z)
  : IO (list Q) :=
  if Qltb total 0.1 then ret [total] else
  (splits <- randomSplits total minSplits maxSplits ;;
   ret (conserve total splits))%eff.

(** ** splitAmountDeterministic *)

(** [const x = Math.sin(s) * 10000; return x - Math.floor(x)]. *)
Definition seededRandom (s : Z) : Q :=
  let x := Math_sin (inject_Z s) * 10000 in
  x - inject_Z (Math_floor x).

(** The first loop; [seedVal] is passed along. *)
Fixpoint detWeights (n : nat) (seedVal : Z) (weights : list Q)
  : list Q * Z :=
  match n with
  | O => (weights, seedVal)
  | S k =>
      let seedVal := (seedVal + 1)%Z in
      detWeights k seedVal (weights ++ [Math_pow2 (seededRandom seedVal) + 0.1])
  end.

(** The second [map]; [seedVal] is incremented before each draw. *)
Fixpoint detNoise (splits : list Q) (seedVal : Z) : list Q * Z :=
  match splits with
  | [] => ([], seedVal)
  | s :: r =>
      let seedVal := (seedVal + 1)%Z in
      let r1 := seededRandom seedVal in
      let seedVal := (seedVal + 1)%Z in
      let r2 := seededRandom seedVal in
      let (rest, seedVal) := detNoise r seedVal in
      (noisyAmount s r1 r2 :: rest, seedVal)
  end.

(** The fragments before the total is restored. *)
Definition seededSplits (total : Q) (splitCount : Z) (seed : Z) : list Q :=
  let (weights, seedVal) := detWeights (Z.to_nat splitCount) seed [] in
  let totalWeight := sum weights in
  let splits := map (fun w => (w / totalWeight) * total) weights in
  fst (detNoise splits seedVal).

(** The parameter [seed: number = 42]; [None] when the caller leaves
    it out. *)
Definition seedOrDefault (seed : option Z) : Z :=
  match seed with Some s => s | None => 42%Z end.

Definition splitAmountDeterministic (total : Q) (splitCount : Z)
           (seed : option Z) : list Q :=
  if Qltb total 0.1 then [total] else
  conserve total (seededSplits total splitCount (seedOrDefault seed)).

(** ** Vocabulary of the properties *)

(** A multiple of one ten-thousandth. *)
Definition fourDecimals (x : Q) : Prop :=
  exists k : Z, x == inject_Z k / 10000.

(** Count bounds that a caller may pin: at least one fragment. *)
Definition validBounds (minSplits maxSplits : option Z) : Prop :=
  match minSplits, maxSplits with
  | Some lo, Some hi => (1 <= lo <= hi)%Z
  | _, _ => True
  end.

(** [fragments] comes from [splits] by moving the residual
    [total - sum splits] into the last fragment and rounding to four
    decimals, which leaves all fragments but the last as they were. *)
Definition residualInLast (total : Q) (splits fragments : list Q) : Prop :=
  splits <> [] /\
  List.length fragments = List.length splits /\
  Qlist_eq (removelast fragments) (removelast splits) /\
  last fragments 0 == round4 (last splits 0 + (total - sum splits)).

End WithPlatform.

End PrivacyUtils.

(* ================================================================== *)
(** * app/page.tsx: scheduleWithdrawals *)
(* ================================================================== *)

Module Page.

Import JS JSString Eff Sys.

Inductive Status : Type := pending | ready | executed.

Record ScheduledWithdrawal : Type := mkWithdrawal {
  id : string;
  amount : Q;
  targetAddress : string;
  scheduledTime : Q;
  status : Status
}.

Definition minAgingMs : Z := 24 * 60 * 60 * 1000.
Definition avgDelayMs : Z := 4 * 60 * 60 * 1000.

(** The state of the [map] callback: the world, and the variable
    [currentTime] that the callback captures and advances. *)
Record Cursor : Type := mkCursor {
  currentTime : Z;
  world : World
}.

Definition io {A} (c : IO A) : M Cursor string A :=
  zoom world (fun w st => mkCursor (currentTime st) w) c.

Definition advance (delay : Z) : M Cursor string Z :=
  fun st =>
    let t := (currentTime st + delay)%Z in
    Returns t (mkCursor t (world st)).

Section WithPlatform.

Context {platform : Platform}.

(** [Math.round(-avgDelayMs * Math.log(1 - u))]. *)
Definition poissonDelay (u : Q) : Z :=
  Math_round (- inject_Z avgDelayMs * Math_log (1 - u))%Q.

(** [(u - 0.5) * 60 * 60 * 1000]. *)
Definition jitter (u : Q) : Q := ((u - 0.5) * 60 * 60 * 1000)%Q.

(** The callback of [splits.map], which also reports the value of
    [currentTime] against which the withdrawal was scheduled. *)
Definition scheduleOne (seed : list byte) (amount : Q) (index : Z)
  : M Cursor string (ScheduledWithdrawal * Z) :=
  (u <- io Math_random ;;
   cursor <- advance (poissonDelay u) ;;
   u' <- io Math_random ;;
   let scheduledTime := (inject_Z cursor + jitter u')%Q in
   freshAddress <- of_sum (PrivacyUtils.deriveAddress seed index) ;;
   t <- io Date_now ;;
   ret (mkWithdrawal
          ("WD-" ++ toStringRadix 36 t ++ "-" ++ String_of_Z index)
          amount freshAddress scheduledTime pending,
        cursor))%eff.

(** [scheduleWithdrawals] together with the successive values of
    [currentTime]. *)
Definition scheduleTrace (splits : list Q) (seed : list byte)
  : IO (list (ScheduledWithdrawal * Z)) :=
  fun w =>
    match Date_now w with
    | Throws e w' => Throws e w'
    | Returns now w' =>
        match mapi_from (scheduleOne seed) 0 splits
                        (mkCursor (now + minAgingMs) w') with
        | Returns l st => Returns l (world st)
        | Throws e st => Throws e (world st)
        end
    end.

Definition scheduleWithdrawals (splits : list Q) (baseAddress : string)
           (seed : list byte) : IO (list ScheduledWithdrawal) :=
  (trace <- scheduleTrace splits seed ;;
   ret (map fst trace))%eff.

End WithPlatform.

(** ** Vocabulary of the properties *)

(** Thirty minutes, in milliseconds. *)
Definition halfHourMs : Q := 30 * 60 * 1000.

(** Each time is at most the next one. *)
Fixpoint nondecreasing (times : list Z) : Prop :=
  match times with
  | a :: (b :: _) as rest => (a <= b)%Z /\ nondecreasing rest
  | _ => True
  end.


End Page.

(* ================================================================== *)
(** * range-client.ts: the compliance gateway *)
(* ================================================================== *)

Module RangeClient.

Import JSString Eff Sys Range.
#[local] Open Scope string_scope.
#[local] Open Scope Z_scope.

Definition DEFAULT_MAX_RISK_THRESHOLD : Z := 5.
Definition SANCTION_CATEGORIES : list string :=
  ["ofac"; "sanctions"; "blacklist"; "hack_funds"].

(** A client.  [mockResponses] is [Some] for a [MockRangeClient], which
    overrides [getAddressRiskScore]. *)
Record RangeClient : Type := mkClient {
  maxRiskThreshold : Z;
  mockResponses : option (list (string * RiskScoreResponse))
}.

(** [new RangeClient(config)]: [config.maxRiskThreshold ?? 5]. *)
Definition new_RangeClient (configured : option Z) : RangeClient :=
  mkClient (match configured with
            | Some t => t
            | None => DEFAULT_MAX_RISK_THRESHOLD
            end) None.

(** [new MockRangeClient()]. *)
Definition new_MockRangeClient : RangeClient :=
  mkClient DEFAULT_MAX_RISK_THRESHOLD (Some []).

Definition setMockResponse (client : RangeClient) (address : string)
           (response : RiskScoreResponse) : RangeClient :=
  match mockResponses client with
  | Some m => mkClient (maxRiskThreshold client) (Some ((address, response) :: m))
  | None => client
  end.

Fixpoint Map_get (m : list (string * RiskScoreResponse)) (key : string)
  : option RiskScoreResponse :=
  match m with
  | [] => None
  | (k, v) :: r => if String.eqb k key then Some v else Map_get r key
  end.

Definition getAddressRiskScore (client : RangeClient) (address : string)
  : IO RiskScoreResponse :=
  match mockResponses client with
  | None => http_get_risk address
  | Some m =>
      match Map_get m address with
      | Some mock => ret mock
      | None =>
          ret (mkResponse 1 VeryLowRisk 5 []
                          "No suspicious paths found within 5 hops.")
      end
  end.

(** [SANCTION_CATEGORIES.some(cat => m.category?.toLowerCase().includes(cat))] *)
Definition sanctionCategory (m : MaliciousEvidence) : bool :=
  match category m with
  | None => false
  | Some c =>
      existsb (fun cat => includes (toLowerCase c) cat) SANCTION_CATEGORIES
  end.

(** The callback of [maliciousAddressesFound.some]. *)
Definition directSanction (m : MaliciousEvidence) : bool :=
  (distance m =? 0) && sanctionCategory m.

(** The sanction status read off one response. *)
Definition sanctioned (riskData : RiskScoreResponse) : bool :=
  existsb directSanction (maliciousAddressesFound riskData)
  || (riskScore riskData =? 10).

Definition checkSanctions (client : RangeClient) (address : string)
  : IO bool :=
  (riskData <- getAddressRiskScore client address ;;
   let isSanctioned :=
     existsb directSanction (maliciousAddressesFound riskData) in
   ret (isSanctioned || (riskScore riskData =? 10)))%eff.

Definition checkCompliance (client : RangeClient) (address : string)
  : IO Check.ComplianceCheckResult :=
  (riskData <- getAddressRiskScore client address ;;
   isSanctioned <- checkSanctions client address ;;
   let isCompliant :=
     (riskScore riskData <=? maxRiskThreshold client) && negb isSanctioned in
   ret (Check.mkResult isCompliant (riskScore riskData) (riskLevel riskData)
                       isSanctioned (reasoning riskData) riskData))%eff.

End RangeClient.

(* ================================================================== *)
(** * noir-proof-service.ts *)
(* ================================================================== *)

Module AgeInput.
Record AgeVerificationInput : Type := mk {
  age : Z;
  minimumAge : Z
}.
End AgeInput.

Module RiskInput.
Record RiskThresholdInput : Type := mk {
  riskScore : Z;
  maxAllowedRisk : Z
}.
End RiskInput.

Module DisclosureInput.
Record SelectiveDisclosureInput : Type := mk {
  age : Z;
  riskScore : Z;
  isSanctioned : bool;
  walletBalanceUsd : Z;
  minimumAge : Z;
  maxRiskScore : Z;
  minBalanceUsd : Z
}.
End DisclosureInput.

Module NoirProofService.

Import JSString JSON Eff Sys Noir.
#[local] Open Scope string_scope.
#[local] Open Scope Z_scope.

Record NoirProofService : Type := mkService {
  circuitsPath : string;
  useRealProofs : bool
}.

(** [new NoirProofService(config)]. *)
Definition new_NoirProofService (path : option string) (real : option bool)
  : NoirProofService :=
  mkService (match path with Some p => p | None => "/circuits" end)
            (match real with Some b => b | None => true end).

(** [createNoirProofService()]. *)
Definition createNoirProofService : NoirProofService :=
  new_NoirProofService None None.

(** ** Validation *)

Definition validateAgeInput (input : AgeInput.AgeVerificationInput)
  : string + unit :=
  if (AgeInput.age input <? 0) || (AgeInput.age input >? 255) then
    inl "Invalid age: must be between 0 and 255 (u8)"
  else if (AgeInput.minimumAge input <? 0)
          || (AgeInput.minimumAge input >? 255) then
    inl "Invalid minimum age: must be between 0 and 255 (u8)"
  else if AgeInput.age input <? AgeInput.minimumAge input then
    inl "Age verification will fail: age is below minimum"
  else inr tt.

Definition validateRiskInput (input : RiskInput.RiskThresholdInput)
  : string + unit :=
  if (RiskInput.riskScore input <? 1) || (RiskInput.riskScore input >? 10) then
    inl "Invalid risk score: must be between 1 and 10"
  else if (RiskInput.maxAllowedRisk input <? 1)
          || (RiskInput.maxAllowedRisk input >? 10) then
    inl "Invalid max risk: must be between 1 and 10"
  else if RiskInput.riskScore input >? RiskInput.maxAllowedRisk input then
    inl "Risk verification will fail: risk exceeds threshold"
  else inr tt.

Definition validateSelectiveDisclosureInput
           (input : DisclosureInput.SelectiveDisclosureInput)
  : string + unit :=
  match validateAgeInput (AgeInput.mk (DisclosureInput.age input)
                                      (DisclosureInput.minimumAge input)) with
  | inl e => inl e
  | inr _ =>
  match validateRiskInput
          (RiskInput.mk (DisclosureInput.riskScore input)
                        (DisclosureInput.maxRiskScore input)) with
  | inl e => inl e
  | inr _ =>
      if DisclosureInput.isSanctioned input then
        inl "Selective disclosure will fail: address is sanctioned"
      else if DisclosureInput.walletBalanceUsd input
              <? DisclosureInput.minBalanceUsd input then
        inl "Selective disclosure will fail: balance below minimum"
      else inr tt
  end end.

(** ** Proof generation *)

(** [String(witness[key])]. *)
Definition String_of_field (witness : ProofInput) (key : string) : string :=
  match lookup key witness with
  | Some (JNum n) => String_of_Z n
  | Some (JBool true) => "true"
  | Some (JBool false) => "false"
  | Some (JStr s) => s
  | Some JNull => "null"
  | Some (JArr _) | Some (JObj _) => "[object Object]"
  | None => "undefined"
  end.

Definition extractPublicInputs (circuitType : CircuitType)
           (witness : ProofInput) : list string :=
  match circuitType with
  | age_verification => [String_of_field witness "minimum_age"]
  | risk_threshold => [String_of_field witness "max_allowed_risk"]
  | selective_disclosure =>
      [String_of_field witness "minimum_age";
       String_of_field witness "max_risk_score";
       String_of_field witness "min_balance_usd"]
  end.

(** [ToInt32]. *)
Definition toInt32 (z : Z) : Z :=
  let m := z mod 2 ^ 32 in
  if m <? 2 ^ 31 then m else m - 2 ^ 32.

(** The loop of [simpleHash]:
    [hash = ((hash << 5) - hash) + char; hash = hash & hash]. *)
Fixpoint hashLoop (str : string) (hash : Z) : Z :=
  match str with
  | EmptyString => hash
  | String c r =>
      hashLoop r (toInt32 (toInt32 (hash * 32) - hash + Z.of_N (code c)))
  end.

Definition simpleHash (str : string) : string :=
  padStart8 (toStringRadix 16 (Z.abs (hashLoop str 0))).

(** The circuit artifact; the per-instance cache only saves the repeated
    fetch and is not modelled.  A failed fetch is [null]. *)
Definition loadCircuit (service : NoirProofService)
           (circuitType : CircuitType) : IO (option CircuitArtifact) :=
  fun w => Returns (circuits w circuitType) w.

Definition generateRealProof (service : NoirProofService)
           (circuitType : CircuitType) (witness : ProofInput)
  : IO GeneratedProof :=
  (circuit <- loadCircuit service circuitType ;;
   match circuit with
   | None =>
       throw ("Circuit " ++ circuit_name circuitType ++ " not available")
   | Some _ =>
       fun w =>
         match backend_prove w circuitType witness with
         | None => Throws "proof generation failed" w
         | Some (bytes, inputs) =>
             Returns
               (mkProof bytes
                        (match inputs with
                         | Some l => l
                         | None => extractPublicInputs circuitType witness
                         end)
                        true) w
         end
   end)%eff.

Definition createMockProof (service : NoirProofService)
           (circuitType : CircuitType) (witness : ProofInput)
  : IO GeneratedProof :=
  (timestamp <- Date_now ;;
   let proofData :=
     JObj [("circuitType", JStr (circuit_name circuitType));
           ("witness", JObj witness);
           ("timestamp", JNum timestamp);
           ("mockProof", JBool true);
           ("hash", JStr (simpleHash (stringify (JObj witness))))] in
   ret (mkProof (TextEncoder_encode (stringify proofData))
                (extractPublicInputs circuitType witness)
                false))%eff.

Definition generateProof (service : NoirProofService)
           (circuitType : CircuitType) (witness : ProofInput)
  : IO GeneratedProof :=
  fun w =>
    if useRealProofs service && noirInitialized w then
      try_catch (generateRealProof service circuitType witness)
                (fun _ => createMockProof service circuitType witness) w
    else createMockProof service circuitType witness w.

Definition generateAgeProof (service : NoirProofService)
           (input : AgeInput.AgeVerificationInput) : IO GeneratedProof :=
  (of_sum (validateAgeInput input) ;;;
   let witness :=
     [("age", JNum (AgeInput.age input));
      ("minimum_age", JNum (AgeInput.minimumAge input))] in
   generateProof service age_verification witness)%eff.

Definition generateRiskProof (service : NoirProofService)
           (input : RiskInput.RiskThresholdInput) : IO GeneratedProof :=
  (of_sum (validateRiskInput input) ;;;
   let witness :=
     [("risk_score", JNum (RiskInput.riskScore input));
      ("max_allowed_risk", JNum (RiskInput.maxAllowedRisk input))] in
   generateProof service risk_threshold witness)%eff.

Definition generateSelectiveDisclosureProof (service : NoirProofService)
           (input : DisclosureInput.SelectiveDisclosureInput)
  : IO GeneratedProof :=
  (of_sum (validateSelectiveDisclosureInput input) ;;;
   let witness :=
     [("age", JNum (DisclosureInput.age input));
      ("risk_score", JNum (DisclosureInput.riskScore input));
      ("is_sanctioned", JBool (DisclosureInput.isSanctioned input));
      ("wallet_balance_usd", JNum (DisclosureInput.walletBalanceUsd input));
      ("minimum_age", JNum (DisclosureInput.minimumAge input));
      ("max_risk_score", JNum (DisclosureInput.maxRiskScore input));
      ("min_balance_usd", JNum (DisclosureInput.minBalanceUsd input))] in
   generateProof service selective_disclosure witness)%eff.

(** ** Verification *)

(** [proof.proof.length > 0]. *)
Definition nonEmpty (p : GeneratedProof) : bool :=
  (0 <? List.length (proof p))%nat.

Definition verifyProof (service : NoirProofService)
           (circuitType : CircuitType) (p : GeneratedProof)
  : IO VerificationResult :=
  if negb (isRealProof p) then
    let isValid := nonEmpty p in
    ret (mkVerification isValid None)
  else
    try_catch
      (circuit <- loadCircuit service circuitType ;;
       fun w =>
         match circuit with
         | None => Returns (mkVerification (nonEmpty p) None) w
         | Some _ =>
             if negb (noirInitialized w) then
               Returns (mkVerification (nonEmpty p) None) w
             else
               match backend_verify w circuitType (proof p)
                                    (publicInputs p) with
               | inl e => Throws e w
               | inr isValid => Returns (mkVerification isValid None) w
               end
         end)%eff
      (fun e => ret (mkVerification false (Some e))).

(** ** Serialization *)

Definition serializeProof (p : GeneratedProof) : string :=
  stringify
    (JObj [("proof", JArr (map (fun b => JNum (byte_val b)) (proof p)));
           ("publicInputs", JArr (map JStr (publicInputs p)));
           ("isRealProof", JBool (isRealProof p))]).

(** All elements converted, or [None]. *)
Fixpoint traverse {A B} (f : A -> option B) (l : list A) : option (list B) :=
  match l with
  | [] => Some []
  | x :: r =>
      match f x, traverse f r with
      | Some y, Some ys => Some (y :: ys)
      | _, _ => None
      end
  end.

(** [new Uint8Array(v)] for an array of integers (each taken modulo
    256) and for [undefined] (empty). *)
Definition Uint8Array_of (v : option json) : option (list byte) :=
  match v with
  | None => Some []
  | Some (JArr items) =>
      traverse (fun x => match x with
                         | JNum n => Some (Uint8 n)
                         | _ => None
                         end) items
  | Some _ => None
  end.

Definition strings_of (v : option json) : option (list string) :=
  match v with
  | Some (JArr items) =>
      traverse (fun x => match x with
                         | JStr s => Some s
                         | _ => None
                         end) items
  | _ => None
  end.

(** [v ?? false]. *)
Definition bool_or_false (v : option json) : option bool :=
  match v with
  | None | Some JNull => Some false
  | Some (JBool b) => Some b
  | Some _ => None
  end.

(** [deserializeProof].  [None]: [JSON.parse] throws, or the parsed
    value holds something else than a byte array, a string array and a
    flag, so that the result would not be a [GeneratedProof]. *)
Definition deserializeProof (serialized : string) : option GeneratedProof :=
  match parse serialized with
  | None => None
  | Some parsed =>
      match Uint8Array_of (get "proof" parsed),
            strings_of (get "publicInputs" parsed),
            bool_or_false (get "isRealProof" parsed) with
      | Some bytes, Some inputs, Some flag => Some (mkProof bytes inputs flag)
      | _, _, _ => None
      end
  end.

End NoirProofService.

(* ================================================================== *)
(** * compliance-service.ts *)
(* ================================================================== *)

Module Request.
Record AttestationRequest : Type := mk {
  walletAddress : string;
  age : Z;
  minimumAge : option Z;
  maxRiskScore : option Z;
  minBalanceUsd : option Z;
  walletBalanceUsd : option Z
}.
End Request.

Module Attestation.

Record Proofs : Type := mkProofs {
  age : option Noir.GeneratedProof;
  risk : option Noir.GeneratedProof;
  selectiveDisclosure : option Noir.GeneratedProof
}.

Record PublicInputs : Type := mkInputs {
  minimumAge : Z;
  maxRiskScore : Z;
  minBalanceUsd : Z
}.

Record AttestationResult : Type := mkAttestation {
  isCompliant : bool;
  attestationId : string;
  timestamp : Z;
  proofs : Proofs;
  complianceCheck : Check.ComplianceCheckResult;
  publicInputs : PublicInputs
}.

End Attestation.

Module ComplianceService.

Import JSString Eff Sys.
#[local] Open Scope string_scope.
#[local] Open Scope Z_scope.

Record ComplianceServiceConfig : Type := mkConfig {
  rangeApiKey : string;
  maxRiskThreshold : option Z;
  defaultMinimumAge : option Z;
  defaultMinBalanceUsd : option Z;
  useMockRange : option bool
}.

Definition DEFAULT_MINIMUM_AGE : Z := 18.
Definition DEFAULT_MAX_RISK : Z := 5.
Definition DEFAULT_MIN_BALANCE : Z := 0.

Record ComplianceService : Type := mkService {
  rangeClient : RangeClient.RangeClient;
  noirService : NoirProofService.NoirProofService;
  config : ComplianceServiceConfig
}.

(** [new ComplianceService(config)]. *)
Definition new_ComplianceService (config : ComplianceServiceConfig)
  : ComplianceService :=
  mkService
    (match useMockRange config with
     | Some true => RangeClient.new_MockRangeClient
     | _ => RangeClient.new_RangeClient (maxRiskThreshold config)
     end)
    NoirProofService.createNoirProofService
    config.

(** [a ?? b ?? c]. *)
Definition nullish (a b : option Z) (c : Z) : Z :=
  match a with
  | Some x => x
  | None => match b with Some y => y | None => c end
  end.

(** The variables that [generateAttestation] declares before its [try]
    block and assigns inside it, next to the world. *)
Record Locals : Type := mkLocals {
  ageProof : option Noir.GeneratedProof;
  riskProof : option Noir.GeneratedProof;
  selectiveDisclosureProof : option Noir.GeneratedProof;
  isCompliant : bool;
  world : World
}.

Definition io {A} (c : IO A) : M Locals string A :=
  zoom world
       (fun w l => mkLocals (ageProof l) (riskProof l)
                            (selectiveDisclosureProof l) (isCompliant l) w)
       c.

Definition set_ageProof (p : Noir.GeneratedProof) : M Locals string unit :=
  fun l => Returns tt (mkLocals (Some p) (riskProof l)
                                (selectiveDisclosureProof l)
                                (isCompliant l) (world l)).

Definition set_riskProof (p : Noir.GeneratedProof) : M Locals string unit :=
  fun l => Returns tt (mkLocals (ageProof l) (Some p)
                                (selectiveDisclosureProof l)
                                (isCompliant l) (world l)).

Definition set_selectiveDisclosureProof (p : Noir.GeneratedProof)
  : M Locals string unit :=
  fun l => Returns tt (mkLocals (ageProof l) (riskProof l) (Some p)
                                (isCompliant l) (world l)).

Definition set_isCompliant (b : bool) : M Locals string unit :=
  fun l => Returns tt (mkLocals (ageProof l) (riskProof l)
                                (selectiveDisclosureProof l) b (world l)).

Section WithPlatform.

Context {platform : Platform}.

Definition generateAttestationId : IO string :=
  (now <- Date_now ;;
   let timestamp := toStringRadix 36 now in
   r <- Math_random ;;
   let random := fraction36 r in
   ret ("att_" ++ timestamp ++ "_" ++ random))%eff.

(** The thresholds of a request, with the defaults of the service. *)
Definition minimumAge_of (service : ComplianceService)
           (request : Request.AttestationRequest) : Z :=
  nullish (Request.minimumAge request)
          (defaultMinimumAge (config service)) DEFAULT_MINIMUM_AGE.

Definition maxRiskScore_of (service : ComplianceService)
           (request : Request.AttestationRequest) : Z :=
  nullish (Request.maxRiskScore request)
          (maxRiskThreshold (config service)) DEFAULT_MAX_RISK.

Definition minBalanceUsd_of (service : ComplianceService)
           (request : Request.AttestationRequest) : Z :=
  nullish (Request.minBalanceUsd request)
          (defaultMinBalanceUsd (config service)) DEFAULT_MIN_BALANCE.

Definition walletBalanceUsd_of (request : Request.AttestationRequest) : Z :=
  match Request.walletBalanceUsd request with Some b => b | None => 0 end.

(** The inputs of the three proofs. *)
Definition ageInput (service : ComplianceService)
           (request : Request.AttestationRequest)
  : AgeInput.AgeVerificationInput :=
  AgeInput.mk (Request.age request) (minimumAge_of service request).

Definition riskInput (service : ComplianceService)
           (request : Request.AttestationRequest)
           (complianceCheck : Check.ComplianceCheckResult)
  : RiskInput.RiskThresholdInput :=
  RiskInput.mk (Check.riskScore complianceCheck)
               (maxRiskScore_of service request).

Definition disclosureInput (service : ComplianceService)
           (request : Request.AttestationRequest)
           (complianceCheck : Check.ComplianceCheckResult)
  : DisclosureInput.SelectiveDisclosureInput :=
  DisclosureInput.mk (Request.age request)
                     (Check.riskScore complianceCheck)
                     (Check.isSanctioned complianceCheck)
                     (walletBalanceUsd_of request)
                     (minimumAge_of service request)
                     (maxRiskScore_of service request)
                     (minBalanceUsd_of service request).

(** The [try] block with its [catch]. *)
Definition attempt (service : ComplianceService)
           (request : Request.AttestationRequest)
           (complianceCheck : Check.ComplianceCheckResult)
  : M Locals string unit :=
  try_catch
    (p <- io (NoirProofService.generateAgeProof
                (noirService service) (ageInput service request)) ;;
     set_ageProof p ;;;
     p <- io (NoirProofService.generateRiskProof
                (noirService service)
                (riskInput service request complianceCheck)) ;;
     set_riskProof p ;;;
     p <- io (NoirProofService.generateSelectiveDisclosureProof
                (noirService service)
                (disclosureInput service request complianceCheck)) ;;
     set_selectiveDisclosureProof p ;;;
     set_isCompliant true)%eff
    (fun _ => set_isCompliant false).

Definition generateAttestation (service : ComplianceService)
           (request : Request.AttestationRequest)
  : IO Attestation.AttestationResult :=
  (complianceCheck <-
     RangeClient.checkCompliance (rangeClient service)
                                 (Request.walletAddress request) ;;
   fun w =>
     match attempt service request complianceCheck
                   (mkLocals None None None false w) with
     | Throws e l => Throws e (world l)
     | Returns _ l =>
         (attestationId <- generateAttestationId ;;
          timestamp <- Date_now ;;
          ret (Attestation.mkAttestation
                 (isCompliant l) attestationId timestamp
                 (Attestation.mkProofs (ageProof l) (riskProof l)
                                       (selectiveDisclosureProof l))
                 complianceCheck
                 (Attestation.mkInputs (minimumAge_of service request)
                                       (maxRiskScore_of service request)
                                       (minBalanceUsd_of service request))))%eff
           (world l)
     end)%eff.

(** A validation passed. *)
Definition passes (r : string + unit) : bool :=
  match r with inr _ => true | inl _ => false end.

(** A proof is present in the [proofs] field. *)
Definition present (p : option Noir.GeneratedProof) : bool :=
  match p with Some _ => true | None => false end.

Definition verifyAttestation (service : ComplianceService)
           (attestation : Attestation.AttestationResult) : IO bool :=
  match Attestation.selectiveDisclosure (Attestation.proofs attestation) with
  | None => ret false
  | Some p =>
      (result <- NoirProofService.verifyProof (noirService service)
                   Noir.selective_disclosure p ;;
       ret (Noir.isValid result))%eff
  end.

End WithPlatform.

End ComplianceService.

(* ================================================================== *)
(** * Sample platform, world and requests *)
(* ================================================================== *)

Module Examples.

#[local] Open Scope string_scope.

(** A platform whose logarithm is the bound [x - 1] and whose key
    derivation and address encoding are one-to-one. *)
Definition platform : Platform := {|
  Math_sin := fun x => (x * (3 # 7))%Q;
  Math_log := fun x => (x - 1)%Q;
  ed25519_public := fun seed => seed;
  toBase58 := string_of_list_byte;
  fraction36 := fun _ => "k2j5x9qa"
|}.

(** A world without network and without proving backend. *)
Definition offline : World := {|
  random_draws := fun k => (Z.of_nat (k mod 7) # 7)%Q;
  random_calls := 0;
  clock := fun k => (1700000000000 + Z.of_nat k)%Z;
  clock_reads := 0;
  range_api := fun _ _ => inl "Network Error";
  range_calls := 0;
  noirInitialized := false;
  circuits := fun _ => None;
  backend_prove := fun _ _ => None;
  backend_verify := fun _ _ _ => inl "no backend"
|}.

(** The service of the test suite: mock risk provider, minimum age 18,
    maximal risk 5, minimum balance 1000. *)
Definition service : ComplianceService.ComplianceService :=
  ComplianceService.new_ComplianceService
    (ComplianceService.mkConfig "test-key" (Some 5%Z) (Some 18%Z)
                                (Some 1000%Z) (Some true)).

(** Age 25, but a balance of 500 below the minimum of 1000. *)
Definition poorRequest : Request.AttestationRequest :=
  Request.mk "TestWallet123" 25 None None None (Some 500%Z).

(** A mock proof and an attestation without proofs. *)
Definition mockProof : Noir.GeneratedProof :=
  Noir.mkProof [x7b; x7d] ["18"] false.

Definition emptyAttestation : Attestation.AttestationResult :=
  Attestation.mkAttestation
    true "fake" 0 (Attestation.mkProofs None None None)
    (Check.mkResult true 1 Range.VeryLowRisk false "none"
       (Range.mkResponse 1 Range.VeryLowRisk 5 [] "none"))
    (Attestation.mkInputs 18 5 0).

(** A response with evidence one hop away only. *)
Definition indirect : Range.RiskScoreResponse :=
  Range.mkResponse 8 Range.ExtremelyHighRisk 1
    [Range.mkEvidence "ConnectedMalicious" 1 (Some "Mixer") None
                      (Some "ofac_sanctions")]
    "1 hop from malicious address.".

Definition mockClient : RangeClient.RangeClient :=
  RangeClient.setMockResponse RangeClient.new_MockRangeClient
                              "HighRiskAddress" indirect.

Definition seed42 : list byte := repeat x2a 32.

(** The answer of the provider for a sanctioned address. *)
Definition sanctionedResponse : Range.RiskScoreResponse :=
  Range.mkResponse 10 Range.CriticalRisk 0
    [Range.mkEvidence "SanctionedAddress" 0 (Some "OFAC Sanctioned")
                      (Some "Known Criminal Org") (Some "ofac_sanctions")]
    "Address is directly flagged for sanctions.".

(** The value a computation returns in the offline world. *)
Definition result {A : Type} (c : Sys.IO A) : option A :=
  match c offline with
  | Eff.Returns a _ => Some a
  | Eff.Throws _ _ => None
  end.

(** The message a computation throws in the offline world. *)
Definition thrown {A : Type} (c : Sys.IO A) : option string :=
  match c offline with
  | Eff.Returns _ _ => None
  | Eff.Throws e _ => Some e
  end.

End Examples.

(* ================================================================== *)
(** * range-client.ts: batchCheckCompliance *)
(* ================================================================== *)

(** A JavaScript [Map] with string keys: the entries in insertion order,
    no key twice. *)
Module JSMap.

Section Map.

Variable V : Type.

Definition t : Type := list (string * V).

(** [new Map()]. *)
Definition empty : t := [].

(** [m.get(key)]; [None] is [undefined]. *)
Fixpoint get (m : t) (key : string) : option V :=
  match m with
  | [] => None
  | (k, v) :: r => if String.eqb k key then Some v else get r key
  end.

(** [m.set(key, value)]: the value of a key that is present is replaced
    where it stands, a new key goes to the end. *)
Fixpoint set (m : t) (key : string) (value : V) : t :=
  match m with
  | [] => [(key, value)]
  | (k, v) :: r =>
      if String.eqb k key then (k, value) :: r else (k, v) :: set r key value
  end.

(** [m.size]. *)
Definition size (m : t) : nat := List.length m.

(** [[...m.keys()]]. *)
Definition keys (m : t) : list string := map fst m.

(** The map after the keys of [l] have been set, one by one, to their
    values under [f]. *)
Definition setEach (f : string -> V) (l : list string) (m : t) : t :=
  fold_left (fun m key => set m key (f key)) l m.

End Map.

Arguments empty {V}.

End JSMap.

Module RangeBatch.

Import Eff Sys RangeClient.

Definition BATCH_CONCURRENCY : nat := 5.

(** [a.slice(i, j)] for [0 <= i <= j]. *)
Definition slice {A} (a : list A) (i j : nat) : list A :=
  firstn (j - i) (skipn i a).

(** [batch.forEach((addr, idx) => results.set(addr, batchResults[idx]))]. *)
Definition setAll (results : JSMap.t Check.ComplianceCheckResult)
           (batch : list string)
           (batchResults : list Check.ComplianceCheckResult)
  : JSMap.t Check.ComplianceCheckResult :=
  fold_left (fun m entry => JSMap.set m (fst entry) (snd entry))
            (combine batch batchResults) results.

(** The loop [for (i = 0; i < addresses.length; i += BATCH_CONCURRENCY)],
    entered with [i] and [results]; [fuel] bounds the number of rounds.

    [Promise.all] starts the checks of one batch together and fails with
    the first rejection.  Here the checks of a batch run one after the
    other, in the order of the batch.  Both give the same map when the
    answers of the provider do not depend on the order in which the
    requests of a batch arrive, as with a [MockRangeClient], which sends
    none. *)
Fixpoint batchLoop (client : RangeClient) (addresses : list string)
         (fuel i : nat) (results : JSMap.t Check.ComplianceCheckResult)
  : IO (JSMap.t Check.ComplianceCheckResult) :=
  match fuel with
  | O => ret results
  | S f =>
      if (i <? List.length addresses)%nat then
        let batch := slice addresses i (i + BATCH_CONCURRENCY) in
        (batchResults <-
           mapi_from (fun addr _ => checkCompliance client addr) 0 batch ;;
         batchLoop client addresses f (i + BATCH_CONCURRENCY)
                   (setAll results batch batchResults))%eff
      else ret results
  end.

(** One round for each address is more than the loop ever makes. *)
Definition batchCheckCompliance (client : RangeClient)
           (addresses : list string)
  : IO (JSMap.t Check.ComplianceCheckResult) :=
  batchLoop client addresses (List.length addresses) 0 JSMap.empty.

(** ** Vocabulary of the properties *)

(** The verdict of a [MockRangeClient] whose table is [m]: it is read
    off the recorded response, or off the default one. *)
Definition mockVerdict (threshold : Z)
           (m : list (string * Range.RiskScoreResponse)) (address : string)
  : Check.ComplianceCheckResult :=
  let r := match Map_get m address with
           | Some mock => mock
           | None =>
               Range.mkResponse 1 Range.VeryLowRisk 5 []
                 "No suspicious paths found within 5 hops."
           end in
  Check.mkResult
    ((Range.riskScore r <=? threshold)%Z && negb (sanctioned r))
    (Range.riskScore r) (Range.riskLevel r) (sanctioned r)
    (Range.reasoning r) r.

End RangeBatch.

(* ================================================================== *)
(** * shadowwire-service.ts *)
(* ================================================================== *)

Module ShadowWire.

Import Eff Sys.
#[local] Open Scope string_scope.
#[local] Open Scope Q_scope.

Inductive TransferType : Type := internal | external.

Inductive SupportedToken : Type :=
| SOL | RADR | USDC | ORE | BONK | JIM | GODL | HUSTLE | ZEC | CRT
| BLACKCOIN | GIL | ANON | WLFI | USD1 | AOL | IQLABS | SANA | POKI
| RAIN | HOSICO | SKR.

Definition TOKEN_DECIMALS (token : SupportedToken) : Z :=
  match token with
  | SOL => 9 | RADR => 9 | USDC => 6 | ORE => 11 | BONK => 5 | JIM => 9
  | GODL => 11 | HUSTLE => 9 | ZEC => 9 | CRT => 9 | BLACKCOIN => 6
  | GIL => 6 | ANON => 9 | WLFI => 6 | USD1 => 6 | AOL => 6 | IQLABS => 9
  | SANA => 6 | POKI => 9 | RAIN => 6 | HOSICO => 9 | SKR => 6
  end%Z.

Definition TOKEN_FEE_PERCENT (token : SupportedToken) : Q :=
  match token with
  | SOL => 0.5 | RADR => 0.3 | USDC => 1 | ORE => 0.3 | BONK => 1 | JIM => 1
  | GODL => 1 | HUSTLE => 0.3 | ZEC => 1 | CRT => 1 | BLACKCOIN => 1
  | GIL => 1 | ANON => 1 | WLFI => 1 | USD1 => 1 | AOL => 1 | IQLABS => 0.5
  | SANA => 1 | POKI => 1 | RAIN => 2 | HOSICO => 1 | SKR => 0.5
  end.

(** [Object.keys(TOKEN_DECIMALS)]. *)
Definition getSupportedTokens : list SupportedToken :=
  [SOL; RADR; USDC; ORE; BONK; JIM; GODL; HUSTLE; ZEC; CRT; BLACKCOIN; GIL;
   ANON; WLFI; USD1; AOL; IQLABS; SANA; POKI; RAIN; HOSICO; SKR].

(** The wallet of a request: an object that signs messages. *)
Record Signer : Type := mkSigner {
  signMessage : list byte -> list byte
}.

Record TransferParams : Type := mkParams {
  sender : string;
  recipient : string;
  amount : Q;
  token : SupportedToken;
  type : TransferType;
  wallet : option Signer
}.

Record TransferResult : Type := mkResult {
  success : bool;
  transactionId : option string;
  error : option string;
  fee : option Q;
  netAmount : option Q
}.

Record FeeInfo : Type := mkFee {
  fee_of : Q;
  netAmount_of : Q;
  feePercent_of : Q
}.

Definition calculateFee (amount : Q) (token : SupportedToken) : FeeInfo :=
  let feePercent := TOKEN_FEE_PERCENT token in
  let fee := amount * (feePercent / 100) in
  mkFee fee (amount - fee) feePercent.

(** The answer of the ShadowWire SDK, as far as the service reads it. *)
Record ShadowWireResponse : Type := mkResponse {
  response_transactionId : option string;
  signature : option string
}.

(** How a call of the SDK ends: with a response, which may be [null],
    with a thrown [Error], or with another thrown value. *)
Inductive Reply : Type :=
| Resolves (response : option ShadowWireResponse)
| RejectsError (message : string)
| RejectsOther.

(** The world with the ShadowWire network: the replies to the successive
    transfer requests, and the requests sent so far, oldest first. *)
Record Net : Type := mkNet {
  world : World;
  shadowwire_transfer : nat -> TransferParams -> Reply;
  transfers : list TransferParams
}.

(** A computation that reads the world only. *)
Definition io {A} (c : IO A) : M Net string A :=
  zoom world (fun w n => mkNet w (shadowwire_transfer n) (transfers n)) c.

(** What the SDK throws. *)
Inductive Thrown : Type :=
| Error (message : string)
| Other.

(** [await this.client.transfer(params)]. *)
Definition client_transfer (params : TransferParams)
  : M Net Thrown (option ShadowWireResponse) :=
  fun n =>
    let n' := mkNet (world n) (shadowwire_transfer n)
                    (transfers n ++ [params]) in
    match shadowwire_transfer n (List.length (transfers n)) params with
    | Resolves response => Returns response n'
    | RejectsError message => Throws (Error message) n'
    | RejectsOther => Throws Other n'
    end.

(** [try { c } catch (error) { h(error) }] where the handler throws
    nothing of the kind the body throws. *)
Definition try_catch_all {S E E' A} (c : M S E A) (h : E -> M S E' A)
  : M S E' A :=
  fun s =>
    match c s with
    | Returns a s' => Returns a s'
    | Throws e s' => h e s'
    end.

(** [result?.transactionId ?? result?.signature]. *)
Definition transactionId_of (result : option ShadowWireResponse)
  : option string :=
  match result with
  | None => None
  | Some r =>
      match response_transactionId r with
      | Some t => Some t
      | None => signature r
      end
  end.

Definition transfer (params : TransferParams) : M Net string TransferResult :=
  try_catch_all
    (let feeInfo := calculateFee (amount params) (token params) in
     result <- client_transfer
                 (mkParams (sender params) (recipient params) (amount params)
                           (token params) (type params) (wallet params)) ;;
     ret (mkResult true (transactionId_of result) None
                   (Some (fee_of feeInfo)) (Some (netAmount_of feeInfo))))%eff
    (fun error =>
       ret (mkResult false None
                     (Some (match error with
                            | Error message => message
                            | Other => "Transfer failed"
                            end))
                     None None)).

End ShadowWire.

(* ================================================================== *)
(** * compliance-service.ts: executePrivateTransfer *)
(* ================================================================== *)

Module PrivateTransfer.

Import Eff Sys ComplianceService.
#[local] Open Scope string_scope.

Record PrivateTransferRequest : Type := mkRequest {
  senderAddress : string;
  recipientAddress : string;
  amount : Q;
  token : ShadowWire.SupportedToken;
  requireCompliance : option bool;
  wallet : option ShadowWire.Signer
}.

Record PrivateTransferResult : Type := mkResult {
  success : bool;
  transferResult : option ShadowWire.TransferResult;
  senderAttestation : option Attestation.AttestationResult;
  recipientCompliance : option Check.ComplianceCheckResult;
  error : option string
}.

(** [request.requireCompliance !== false]. *)
Definition complianceRequired (request : PrivateTransferRequest) : bool :=
  match requireCompliance request with
  | Some false => false
  | _ => true
  end.

(** The part of [executePrivateTransfer] after the compliance check. *)
Definition sendTransfer (request : PrivateTransferRequest)
  : M ShadowWire.Net string PrivateTransferResult :=
  (transferResult <-
     ShadowWire.transfer
       (ShadowWire.mkParams (senderAddress request)
                            (recipientAddress request)
                            (amount request) (token request)
                            ShadowWire.internal (wallet request)) ;;
   ret (mkResult (ShadowWire.success transferResult)
                 (Some transferResult) None None
                 (ShadowWire.error transferResult)))%eff.

(** The service keeps its ShadowWire client, which has no state of its
    own: the network it talks to is part of the state. *)
Definition executePrivateTransfer (service : ComplianceService)
           (request : PrivateTransferRequest)
  : M ShadowWire.Net string PrivateTransferResult :=
  if complianceRequired request then
    (recipientCompliance <-
       ShadowWire.io (RangeClient.checkCompliance
                        (rangeClient service) (recipientAddress request)) ;;
     if negb (Check.isCompliant recipientCompliance) then
       ret (mkResult false None None (Some recipientCompliance)
                     (Some ("Recipient failed compliance: "
                            ++ Check.reasoning recipientCompliance)))
     else sendTransfer request)%eff
  else sendTransfer request.

(** ** Vocabulary of the properties *)



(** The state in which a computation ends. *)
Definition finalState {S E A} (o : Outcome S E A) : S :=
  match o with
  | Returns _ s => s
  | Throws _ s => s
  end.

End PrivateTransfer.

(* ================================================================== *)
(** * app/api/proof/verify/route.ts *)
(* ================================================================== *)

Module VerifyRoute.

Import Eff Sys Noir NoirProofService.
#[local] Open Scope string_scope.







(** The value of a field that the first test has found present. *)
Definition value {A} (default : A) (field : option A) : A :=
  match field with
  | Some v => v
  | None => default
  end.


(** ** Vocabulary of the properties *)


End VerifyRoute.

(* ================================================================== *)
(** * Vocabulary of further properties *)
(* ================================================================== *)

Module Vocabulary.

Import JSString.
#[local] Open Scope Z_scope.

(** The number that a byte sequence spells, most significant byte
    first. *)
Definition bigEndian (bytes : list byte) : Z :=
  fold_left (fun a b => a * 256 + byte_val b) bytes 0.

(** The world whose calls of [Math.random()] return the numbers of
    [draws] in turn, and [0] afterwards. *)
Definition withDraws (draws : list Q) (w : World) : World :=
  mkWorld (fun k => nth k draws 0%Q) 0
          (clock w) (clock_reads w) (range_api w) (range_calls w)
          (noirInitialized w) (circuits w)
          (backend_prove w) (backend_verify w).

(** The count bounds in force: the pinned ones, or the band of the
    amount. *)
Definition effectiveBounds (total : Q) (minSplits maxSplits : option Z)
  : Z * Z :=
  match minSplits, maxSplits with
  | Some lo, Some hi => (lo, hi)
  | _, _ => PrivacyUtils.band total
  end.

(** [verifyProof] asks the verifier of the proving backend: the proof
    is flagged as real, its circuit is served and the Noir libraries
    are loaded. *)
Definition backendAsked (w : World) (circuitType : Noir.CircuitType)
           (p : Noir.GeneratedProof) : bool :=
  Noir.isRealProof p
  && match circuits w circuitType with Some _ => true | None => false end
  && noirInitialized w.

(** A generation that ends without the Noir libraries being loaded,
    and, when it returns, with a placeholder proof whose payload is not
    empty. *)
Definition placeholderOutcome
           (o : Eff.Outcome World string Noir.GeneratedProof) : Prop :=
  match o with
  | Eff.Returns p w =>
      Noir.isRealProof p = false /\ Noir.proof p <> [] /\
      noirInitialized w = false
  | Eff.Throws _ w => noirInitialized w = false
  end.

(** Each time is at most an hour after the one that follows it. *)
Fixpoint withinAnHour (times : list Q) : Prop :=
  match times with
  | a :: (b :: _) as rest => (a - 3600000 <= b)%Q /\ withinAnHour rest
  | _ => True
  end.

End Vocabulary.

(* ================================================================== *)
(** * Further sample worlds and requests *)
(* ================================================================== *)

Module Samples.

#[local] Open Scope string_scope.

(** Draws that choose three fragments, give the first two the largest
    weights and noises, and the third the smallest weight. *)
Definition adverseDraws : list Q :=
  [0.9; 0.99; 0.99; 0; 0.99; 0.45; 0.99; 0.45; 0.5; 0.5]%Q.

Definition adverse : World :=
  Vocabulary.withDraws adverseDraws Examples.offline.

(** Draws for two withdrawals without delay, the first moved towards
    the end of its hour and the second towards the start. *)
Definition inverting : World :=
  Vocabulary.withDraws [0; 0.9; 0; 0.1]%Q Examples.offline.

(** The witness of an age proof: age 25, minimum 18. *)
Definition ageWitness : Noir.ProofInput :=
  [("age", JSON.JNum 25); ("minimum_age", JSON.JNum 18)].

(** Age 25 and a balance of 5000, above the minimum of 1000. *)
Definition compliantRequest : Request.AttestationRequest :=
  Request.mk "TestWallet123" 25 None None None (Some 5000%Z).

(** A transfer of 2 SOL to the address that the mock client of the
    examples rates as high risk, and the same without screening. *)
Definition riskyTransfer : PrivateTransfer.PrivateTransferRequest :=
  PrivateTransfer.mkRequest "Sender" "HighRiskAddress" 2 ShadowWire.SOL
                            None None.


(** The service of the examples with the client that knows the
    high-risk address. *)
Definition screeningService : ComplianceService.ComplianceService :=
  ComplianceService.mkService Examples.mockClient
                              NoirProofService.createNoirProofService
                              (ComplianceService.config Examples.service).

(** The offline world with a ShadowWire network that is down. *)
Definition unreachable : ShadowWire.Net :=
  ShadowWire.mkNet Examples.offline
                   (fun _ _ => ShadowWire.RejectsError "Network Error")
                   [].

(** A service that asks the risk provider over the network. *)
Definition onlineService : ComplianceService.ComplianceService :=
  ComplianceService.new_ComplianceService
    (ComplianceService.mkConfig "key" (Some 5%Z) (Some 18%Z)
                                (Some 1000%Z) None).

(** Seven addresses to screen, one of them twice. *)
Definition payroll : list string :=
  ["Alice"; "HighRiskAddress"; "Bob"; "Carol"; "Alice"; "Dave"; "Erin"].

(** Two seeds of 32 bytes: zero, and the order of the curve spelled
    most significant byte first. *)
Definition zeroSeed : list byte := repeat x00 32.

Definition orderSeed : list byte := x7f :: repeat xff 30 ++ [xed].

End Samples.

(* ================================================================== *)
(** * Properties *)
(* ================================================================== *)

Unset Implicit Arguments.

(** ** JavaScript numbers *)

Module JSFacts.
Import JS.
#[local] Open Scope Q_scope.

(** [lra] after the embedded integers are made opaque. *)
Ltac qlra :=
  unfold Qdiv in *;
  change (/ 5) with (1 # 5) in *;
  change (/ 48) with (1 # 48) in *;
  change (/ 100) with (1 # 100) in *;
  change (/ 1000) with (1 # 1000) in *;
  change (/ 10000) with (1 # 10000) in *;
  repeat match goal with
         | |- context [inject_Z ?z] =>
             let q := fresh "q" in
             set (q := inject_Z z) in *; clearbody q
         | H : context [inject_Z ?z] |- _ =>
             let q := fresh "q" in
             set (q := inject_Z z) in *; clearbody q
         end;
  lra.

Lemma Qle_bool_false (x y : Q) : Qle_bool x y = false -> y < x.
Proof.
  intros H. apply Qnot_le_lt. intros Hle.
  apply Qle_bool_iff in Hle. congruence.
Qed.

Lemma Math_min_le_l (x y : Q) : Math_min x y <= x.
Proof.
  unfold Math_min. destruct (Qle_bool x y) eqn:E.
  - lra.
  - apply Qle_bool_false in E. lra.
Qed.

Lemma Math_min_glb (x y z : Q) : z <= x -> z <= y -> z <= Math_min x y.
Proof. unfold Math_min. destruct (Qle_bool x y); trivial. Qed.

Lemma Math_min_mono_r (x y y' : Q) :
  y <= y' -> Math_min x y <= Math_min x y'.
Proof.
  intros H. unfold Math_min.
  destruct (Qle_bool x y) eqn:E, (Qle_bool x y') eqn:E';
    try apply Qle_bool_iff in E; try apply Qle_bool_iff in E';
    try apply Qle_bool_false in E; try apply Qle_bool_false in E'; lra.
Qed.

#[export] Instance Math_min_Proper : Proper (Qeq ==> Qeq ==> Qeq) Math_min.
Proof.
  intros x x' Hx y y' Hy. unfold Math_min.
  rewrite <- (Qleb_comp _ _ Hx _ _ Hy).
  destruct (Qle_bool x y); assumption.
Qed.

Lemma Math_round_mono (x y : Q) : x <= y -> (Math_round x <= Math_round y)%Z.
Proof. intros H. apply Qfloor_resp_le. lra. Qed.

Lemma Math_round_Z (z : Z) : Math_round (inject_Z z) = z.
Proof.
  unfold Math_round.
  assert (Hlo : (z <= Qfloor (inject_Z z + (1 # 2)))%Z).
  { rewrite <- (Qfloor_Z z) at 1. apply Qfloor_resp_le. qlra. }
  assert (Hhi : (Qfloor (inject_Z z + (1 # 2)) < z + 1)%Z).
  { rewrite Zlt_Qlt. eapply Qle_lt_trans; [apply Qfloor_le|].
    rewrite inject_Z_plus. change (inject_Z 1) with 1. qlra. }
  lia.
Qed.

#[export] Instance Math_round_Proper : Proper (Qeq ==> eq) Math_round.
Proof. intros x y H. unfold Math_round. apply Qfloor_comp. rewrite H. reflexivity. Qed.

(** Rounding moves a number by at most one half. *)
Lemma Math_round_close (x : Q) :
  x - (1 # 2) < inject_Z (Math_round x) /\ inject_Z (Math_round x) <= x + (1 # 2).
Proof.
  unfold Math_round. split.
  - pose proof (Qlt_floor (x + (1 # 2))) as H.
    rewrite inject_Z_plus in H. change (inject_Z 1) with 1 in H. qlra.
  - apply Qfloor_le.
Qed.
End JSFacts.

Module PrivacyScoreFacts.
Import JS JSFacts PrivacyScore.
#[local] Open Scope Q_scope.

Lemma splitScore_bounds (c : Config) :
  0 <= splitCount c -> 0 <= splitScore c <= 100.
Proof.
  intros H. unfold splitScore. split.
  - apply Math_min_glb; qlra.
  - apply Math_min_le_l.
Qed.

Lemma agingScore_bounds (c : Config) :
  0 <= minAgingHours c -> 0 <= agingScore c <= 100.
Proof.
  intros H. unfold agingScore. split.
  - apply Math_min_glb; qlra.
  - apply Math_min_le_l.
Qed.

Lemma poolScore_bounds (c : Config) :
  0 <= poolSize c -> 0 <= poolScore c <= 100.
Proof.
  intros H. unfold poolScore. split.
  - apply Math_min_glb; qlra.
  - apply Math_min_le_l.
Qed.

(** On non-negative inputs the address component is a finite number of
    [0,100]. *)
Lemma addressScore_bounds (c : Config) :
  0 <= splitCount c -> 0 <= uniqueAddresses c ->
  exists a, addressScore c = Some a /\ 0 <= a <= 100.
Proof.
  intros Hs Hu. unfold addressScore.
  destruct (Qle_bool (splitCount c) (uniqueAddresses c)) eqn:E.
  - exists 100. split; [reflexivity | lra].
  - apply Qle_bool_false in E.
    destruct (Qeq_bool (splitCount c) 0) eqn:Z0.
    + apply Qeq_bool_eq in Z0. lra.
    + eexists. split; [reflexivity|].
      assert (Hpos : 0 < splitCount c) by lra.
      assert (Hq : 0 <= uniqueAddresses c / splitCount c <= 1).
      { split.
        - apply Qle_shift_div_l; [assumption | lra].
        - apply Qle_shift_div_r; [assumption | lra]. }
      lra.
Qed.

Lemma weighted_mono (s a g p s' a' g' p' : Q) :
  s <= s' -> a <= a' -> g <= g' -> p <= p' ->
  weighted s a g p <= weighted s' a' g' p'.
Proof. unfold weighted. intros. lra. Qed.

Lemma weighted_bounds (s a g p : Q) :
  0 <= s <= 100 -> 0 <= a <= 100 -> 0 <= g <= 100 -> 0 <= p <= 100 ->
  0 <= weighted s a g p <= 100.
Proof. unfold weighted. intros. lra. Qed.

Lemma Math_round_bounds (x : Q) (lo hi : Z) :
  inject_Z lo <= x <= inject_Z hi -> (lo <= Math_round x <= hi)%Z.
Proof.
  intros [Hlo Hhi]. split.
  - rewrite <- (Math_round_Z lo). now apply Math_round_mono.
  - rewrite <- (Math_round_Z hi). now apply Math_round_mono.
Qed.

Lemma score_range (c : Config) :
  nonneg c ->
  exists s, calculatePrivacyScore c = Some s /\ (0 <= s <= 100)%Z.
Proof.
  intros (Hs & Hu & Hg & Hp). unfold calculatePrivacyScore.
  destruct (addressScore_bounds c Hs Hu) as (a & -> & Ha).
  eexists. split; [reflexivity|].
  apply Math_round_bounds.
  apply weighted_bounds; auto using splitScore_bounds, agingScore_bounds,
    poolScore_bounds.
Qed.

Lemma addressScore_Proper (c d : Config) :
  Config_eq c d ->
  match addressScore c, addressScore d with
  | Some a, Some b => a == b
  | None, None => True
  | _, _ => False
  end.
Proof.
  intros (Hs & Hu & _). unfold addressScore.
  rewrite (Qleb_comp _ _ Hs _ _ Hu).
  destruct (Qle_bool (splitCount d) (uniqueAddresses d)); [reflexivity|].
  assert (E : Qeq_bool (splitCount c) 0 = Qeq_bool (splitCount d) 0).
  { destruct (Qeq_bool (splitCount d) 0) eqn:Ed.
    - apply Qeq_bool_iff. apply Qeq_bool_iff in Ed. now rewrite Hs.
    - destruct (Qeq_bool (splitCount c) 0) eqn:Ec; [|reflexivity].
      apply Qeq_bool_iff in Ec. rewrite Hs in Ec.
      apply Qeq_bool_iff in Ec. congruence. }
  rewrite E. destruct (Qeq_bool (splitCount d) 0); [exact I|].
  now rewrite Hs, Hu.
Qed.

(** The score depends on the four numbers only. *)
Lemma score_deterministic (c d : Config) :
  Config_eq c d -> calculatePrivacyScore c = calculatePrivacyScore d.
Proof.
  intros H. pose proof (addressScore_Proper c d H) as Ha.
  destruct H as (Hs & Hu & Hg & Hp).
  unfold calculatePrivacyScore.
  destruct (addressScore c) as [a|], (addressScore d) as [b|];
    try contradiction; [|reflexivity].
  f_equal. apply Math_round_Proper.
  unfold weighted, splitScore, agingScore, poolScore.
  now rewrite Ha, Hs, Hg, Hp.
Qed.

Lemma address_mono (sc ua ua' ag ps : Q) :
  0 <= sc -> 0 <= ua -> ua <= ua' ->
  exists a a',
    addressScore (mkConfig sc ua ag ps) = Some a /\
    addressScore (mkConfig sc ua' ag ps) = Some a' /\ a <= a'.
Proof.
  intros Hs Hu Hle. unfold addressScore. cbn [splitCount uniqueAddresses].
  destruct (Qle_bool sc ua') eqn:E'.
  - destruct (addressScore_bounds (mkConfig sc ua ag ps) Hs Hu)
      as (a & Ha & Hb).
    unfold addressScore in Ha. cbn [splitCount uniqueAddresses] in Ha.
    exists a, 100. repeat split; [assumption | lra].
  - apply Qle_bool_false in E'.
    destruct (Qle_bool sc ua) eqn:E.
    + apply Qle_bool_iff in E. lra.
    + destruct (Qeq_bool sc 0) eqn:Z0.
      * apply Qeq_bool_eq in Z0. lra.
      * do 2 eexists. repeat split.
        assert (Hpos : 0 < sc) by lra.
        assert (ua / sc <= ua' / sc).
        { apply Qmult_le_compat_r; [assumption|].
          apply Qlt_le_weak, Qinv_lt_0_compat, Hpos. }
        lra.
Qed.

Lemma score_mono_from (c c' : Config) (a a' : Q) :
  addressScore c = Some a -> addressScore c' = Some a' ->
  splitScore c <= splitScore c' -> a <= a' ->
  agingScore c <= agingScore c' -> poolScore c <= poolScore c' ->
  score_le (calculatePrivacyScore c) (calculatePrivacyScore c').
Proof.
  intros Ha Ha' Hs Hle Hg Hp. unfold calculatePrivacyScore.
  rewrite Ha, Ha'. unfold score_le. apply Math_round_mono.
  now apply weighted_mono.
Qed.

Lemma score_mono_addresses (sc ua ua' ag ps : Q) :
  0 <= sc -> 0 <= ua -> ua <= ua' ->
  score_le (calculatePrivacyScore (mkConfig sc ua ag ps))
           (calculatePrivacyScore (mkConfig sc ua' ag ps)).
Proof.
  intros Hs Hu Hle.
  destruct (address_mono sc ua ua' ag ps Hs Hu Hle) as (a & a' & Ha & Ha' & H).
  eapply score_mono_from; eauto; apply Qle_refl.
Qed.

Lemma addressScore_irrelevant (sc ua ag ps ag' ps' : Q) :
  addressScore (mkConfig sc ua ag ps) = addressScore (mkConfig sc ua ag' ps').
Proof. reflexivity. Qed.

Lemma score_mono_aging (sc ua ag ag' ps : Q) :
  0 <= sc -> 0 <= ua -> ag <= ag' ->
  score_le (calculatePrivacyScore (mkConfig sc ua ag ps))
           (calculatePrivacyScore (mkConfig sc ua ag' ps)).
Proof.
  intros Hs Hu Hle.
  destruct (addressScore_bounds (mkConfig sc ua ag ps) Hs Hu) as (a & Ha & _).
  eapply score_mono_from; try exact Ha; try apply Qle_refl.
  unfold agingScore. cbn [minAgingHours].
  apply Math_min_mono_r. qlra.
Qed.

Lemma score_mono_pool (sc ua ag ps ps' : Q) :
  0 <= sc -> 0 <= ua -> ps <= ps' ->
  score_le (calculatePrivacyScore (mkConfig sc ua ag ps))
           (calculatePrivacyScore (mkConfig sc ua ag ps')).
Proof.
  intros Hs Hu Hle.
  destruct (addressScore_bounds (mkConfig sc ua ag ps) Hs Hu) as (a & Ha & _).
  eapply score_mono_from; try exact Ha; try apply Qle_refl.
  unfold poolScore. cbn [poolSize].
  apply Math_min_mono_r. qlra.
Qed.

Lemma score_mono_splits (sc sc' ua ag ps : Q) :
  sc <= sc' -> sc' <= ua ->
  score_le (calculatePrivacyScore (mkConfig sc ua ag ps))
           (calculatePrivacyScore (mkConfig sc' ua ag ps)).
Proof.
  intros Hle Hu.
  assert (Ha : addressScore (mkConfig sc ua ag ps) = Some 100).
  { unfold addressScore. cbn [splitCount uniqueAddresses].
    replace (Qle_bool sc ua) with true; [reflexivity|].
    symmetry. apply Qle_bool_iff. lra. }
  assert (Ha' : addressScore (mkConfig sc' ua ag ps) = Some 100).
  { unfold addressScore. cbn [splitCount uniqueAddresses].
    replace (Qle_bool sc' ua) with true; [reflexivity|].
    symmetry. now apply Qle_bool_iff. }
  eapply score_mono_from; try exact Ha; try exact Ha'; try apply Qle_refl.
  unfold splitScore. cbn [splitCount].
  apply Math_min_mono_r. qlra.
Qed.

(** C7 (as amended).  [calculatePrivacyScore] depends on the four
    numbers only.  On non-negative inputs its result is an integer of
    [0,100]; the configuration (5, 5, 48, 1000) scores 100; the score does
    not decrease when [uniqueAddresses], [minAgingHours] or [poolSize]
    grows, the other inputs fixed, nor when [splitCount] grows without
    exceeding [uniqueAddresses]. *)
Theorem privacy_score_shape (sc ua ag ps : Q) :
  nonneg (mkConfig sc ua ag ps) ->
  (forall d, Config_eq (mkConfig sc ua ag ps) d ->
             calculatePrivacyScore (mkConfig sc ua ag ps)
             = calculatePrivacyScore d) /\
  (exists s, calculatePrivacyScore (mkConfig sc ua ag ps) = Some s
             /\ (0 <= s <= 100)%Z) /\
  calculatePrivacyScore (mkConfig 5 5 48 1000) = Some 100%Z /\
  (forall ua', ua <= ua' ->
     score_le (calculatePrivacyScore (mkConfig sc ua ag ps))
              (calculatePrivacyScore (mkConfig sc ua' ag ps))) /\
  (forall ag', ag <= ag' ->
     score_le (calculatePrivacyScore (mkConfig sc ua ag ps))
              (calculatePrivacyScore (mkConfig sc ua ag' ps))) /\
  (forall ps', ps <= ps' ->
     score_le (calculatePrivacyScore (mkConfig sc ua ag ps))
              (calculatePrivacyScore (mkConfig sc ua ag ps'))) /\
  (forall sc', sc <= sc' -> sc' <= ua ->
     score_le (calculatePrivacyScore (mkConfig sc ua ag ps))
              (calculatePrivacyScore (mkConfig sc' ua ag ps))).
Proof.
  intros Hnn. pose proof Hnn as (Hs & Hu & Hg & Hp).
  cbn [splitCount uniqueAddresses minAgingHours poolSize] in *.
  repeat split.
  - intros d Hd. now apply score_deterministic.
  - destruct (score_range _ Hnn) as (s & Hs' & Hr). exists s. now split.
  - intros ua' H. now apply score_mono_addresses.
  - intros ag' H. now apply score_mono_aging.
  - intros ps' H. now apply score_mono_pool.
  - intros sc' H H'. now apply score_mono_splits.
Qed.

(** The score of (3, 2, 18, 300) does not fall with a third address. *)
Lemma privacy_score_shape_witness :
  nonneg (mkConfig 3 2 18 300) /\
  score_le (calculatePrivacyScore (mkConfig 3 2 18 300))
           (calculatePrivacyScore (mkConfig 3 3 18 300)).
Proof.
  assert (H : nonneg (mkConfig 3 2 18 300)).
  { unfold nonneg; cbn; repeat split; discriminate. }
  split; [exact H|].
  destruct (privacy_score_shape 3 2 18 300 H) as (_ & _ & _ & Hua & _).
  apply Hua. discriminate.
Defined.

(** C7 fails as stated: with five unique addresses, going from five to
    ten splits lowers the score from 100 to 88; and a negative input
    gives a negative score. *)
Lemma privacy_score_not_monotone_in_splitCount :
  calculatePrivacyScore (mkConfig 5 5 48 1000) = Some 100%Z /\
  calculatePrivacyScore (mkConfig 10 5 48 1000) = Some 88%Z /\
  calculatePrivacyScore (mkConfig (-5) 0 0 0) = Some (-5)%Z.
Proof. repeat split; reflexivity. Qed.

(** C10.  When [splitCount] is [0] the address component is 100 for
    every (non-negative) [uniqueAddresses], so that the all-zero
    configuration scores 25, not 0. *)
Theorem privacy_score_zero_splits (c : Config) :
  splitCount c == 0 -> 0 <= uniqueAddresses c ->
  addressScore c = Some 100 /\
  calculatePrivacyScore (mkConfig 0 0 0 0) = Some 25%Z.
Proof.
  intros Hs Hu. split; [|reflexivity].
  unfold addressScore.
  replace (Qle_bool (splitCount c) (uniqueAddresses c)) with true;
    [reflexivity|].
  symmetry. apply Qle_bool_iff. lra.
Qed.

(** No splits and seven addresses: the address component is 100. *)
Lemma privacy_score_zero_splits_witness :
  addressScore (mkConfig 0 7 1 2) = Some 100 /\
  calculatePrivacyScore (mkConfig 0 0 0 0) = Some 25%Z.
Proof.
  apply (privacy_score_zero_splits (mkConfig 0 7 1 2)).
  - reflexivity.
  - discriminate.
Defined.

End PrivacyScoreFacts.

(* ------------------------------------------------------------------ *)
Module RangeClientFacts.
Import Eff Sys Range RangeClient.
#[local] Open Scope Z_scope.





End RangeClientFacts.

(* ------------------------------------------------------------------ *)
Module NoirFacts.
Import Eff Sys Noir NoirProofService.

Lemma createMockProof_returns (service : NoirProofService.NoirProofService)
      (circuitType : CircuitType) (witness : ProofInput) (w : World) :
  exists p w', createMockProof service circuitType witness w = Returns p w'
               /\ isRealProof p = false.
Proof. unfold createMockProof, bind, Date_now, ret. eauto. Qed.

(** Proof generation degrades to a mock proof: it never throws. *)
Lemma generateProof_returns (service : NoirProofService.NoirProofService)
      (circuitType : CircuitType) (witness : ProofInput) (w : World) :
  exists p w', generateProof service circuitType witness w = Returns p w'.
Proof.
  unfold generateProof.
  destruct (useRealProofs service && noirInitialized w).
  - unfold try_catch.
    destruct (generateRealProof service circuitType witness w) as [p w'|e w'].
    + eauto.
    + destruct (createMockProof_returns service circuitType witness w')
        as (p & w'' & H & _). eauto.
  - destruct (createMockProof_returns service circuitType witness w)
      as (p & w' & H & _). eauto.
Qed.

(** A validated generation throws the validation error in the world it
    started from, or returns a proof. *)
Lemma validated_generation {I : Type} (validate : I -> string + unit)
      (input : I) (k : IO GeneratedProof) (w : World) :
  (forall w0, exists p w', k w0 = Returns p w') ->
  match validate input with
  | inl e => bind (of_sum (validate input)) (fun _ => k) w = Throws e w
  | inr _ => exists p w',
      bind (of_sum (validate input)) (fun _ => k) w = Returns p w'
  end.
Proof.
  intros Hk. unfold bind, of_sum.
  destruct (validate input) as [e|[]]; cbn.
  - reflexivity.
  - apply Hk.
Qed.

Lemma generateAgeProof_spec (service : NoirProofService.NoirProofService)
      (input : AgeInput.AgeVerificationInput) (w : World) :
  match validateAgeInput input with
  | inl e => generateAgeProof service input w = Throws e w
  | inr _ => exists p w', generateAgeProof service input w = Returns p w'
  end.
Proof.
  apply (validated_generation validateAgeInput).
  intros w0. apply generateProof_returns.
Qed.

Lemma generateRiskProof_spec (service : NoirProofService.NoirProofService)
      (input : RiskInput.RiskThresholdInput) (w : World) :
  match validateRiskInput input with
  | inl e => generateRiskProof service input w = Throws e w
  | inr _ => exists p w', generateRiskProof service input w = Returns p w'
  end.
Proof.
  apply (validated_generation validateRiskInput).
  intros w0. apply generateProof_returns.
Qed.

Lemma generateSelectiveDisclosureProof_spec
      (service : NoirProofService.NoirProofService)
      (input : DisclosureInput.SelectiveDisclosureInput) (w : World) :
  match validateSelectiveDisclosureInput input with
  | inl e => generateSelectiveDisclosureProof service input w = Throws e w
  | inr _ =>
      exists p w',
        generateSelectiveDisclosureProof service input w = Returns p w'
  end.
Proof.
  apply (validated_generation validateSelectiveDisclosureInput).
  intros w0. apply generateProof_returns.
Qed.

Lemma verifyProof_mock (service : NoirProofService.NoirProofService)
      (circuitType : CircuitType) (p : GeneratedProof) (w : World) :
  isRealProof p = false ->
  verifyProof service circuitType p w
  = Returns (mkVerification (nonEmpty p) None) w.
Proof. intros H. unfold verifyProof. rewrite H. reflexivity. Qed.

Lemma nonEmpty_spec (p : GeneratedProof) : nonEmpty p = true <-> proof p <> [].
Proof.
  unfold nonEmpty. destruct (proof p); cbn; split; congruence.
Qed.
End NoirFacts.

Module ComplianceServiceFacts.
Import Eff Sys Noir NoirProofService ComplianceService NoirFacts.

(** C4.  A proof that is not a real proof verifies iff its payload is
    not empty; an attestation without a selective-disclosure proof does
    not verify. *)
Theorem verification_policy
        (noir : NoirProofService.NoirProofService)
        (service : ComplianceService.ComplianceService)
        (circuitType : CircuitType) (p : GeneratedProof)
        (attestation : Attestation.AttestationResult) (w : World) :
  (isRealProof p = false ->
   exists result,
     verifyProof noir circuitType p w = Returns result w /\
     (isValid result = true <-> proof p <> [])) /\
  (Attestation.selectiveDisclosure (Attestation.proofs attestation) = None ->
   verifyAttestation service attestation w = Returns false w).
Proof.
  split.
  - intros H. eexists. split.
    + now apply verifyProof_mock.
    + cbn [isValid]. apply nonEmpty_spec.
  - intros H. unfold verifyAttestation. rewrite H. reflexivity.
Qed.

(** A two-byte mock proof, and an attestation without proofs. *)
Lemma verification_policy_witness :
  (exists result,
     verifyProof createNoirProofService selective_disclosure
                 Examples.mockProof Examples.offline
     = Returns result Examples.offline /\
     (isValid result = true <-> proof Examples.mockProof <> [])) /\
  verifyAttestation Examples.service Examples.emptyAttestation
                    Examples.offline
  = Returns false Examples.offline.
Proof.
  destruct (verification_policy createNoirProofService Examples.service
              selective_disclosure Examples.mockProof
              Examples.emptyAttestation Examples.offline) as [H1 H2].
  split; [apply H1 | apply H2]; reflexivity.
Defined.

(** ** Attestation *)

Lemma io_returns {A : Type} (c : IO A) (a : A) (w' : World) (l : Locals) :
  c (world l) = Returns a w' ->
  io c l = Returns a (mkLocals (ageProof l) (riskProof l)
                               (selectiveDisclosureProof l)
                               (isCompliant l) w').
Proof. intros H. unfold io, zoom. rewrite H. reflexivity. Qed.

Lemma io_throws {A : Type} (c : IO A) (e : string) (w' : World) (l : Locals) :
  c (world l) = Throws e w' ->
  io c l = Throws e (mkLocals (ageProof l) (riskProof l)
                              (selectiveDisclosureProof l)
                              (isCompliant l) w').
Proof. intros H. unfold io, zoom. rewrite H. reflexivity. Qed.

Lemma bind_returns {S E A B : Type} (c : M S E A) (k : A -> M S E B)
      (a : A) (s s' : S) :
  c s = Returns a s' -> bind c k s = k a s'.
Proof. intros H. unfold bind. rewrite H. reflexivity. Qed.

Lemma bind_throws {S E A B : Type} (c : M S E A) (k : A -> M S E B)
      (e : E) (s s' : S) :
  c s = Throws e s' -> bind c k s = Throws e s'.
Proof. intros H. unfold bind. rewrite H. reflexivity. Qed.

Section Attempt.

Context {platform : Platform}.
Variable service : ComplianceService.ComplianceService.
Variable request : Request.AttestationRequest.
Variable check : Check.ComplianceCheckResult.

Let okAge := passes (validateAgeInput (ageInput service request)).
Let okRisk := passes (validateRiskInput (riskInput service request check)).
Let okDisclosure :=
  passes (validateSelectiveDisclosureInput
            (disclosureInput service request check)).

(** The [try] block never throws past its [catch]; it leaves the
    proofs generated before the first failing validation. *)
Lemma attempt_spec (w : World) :
  exists l,
    attempt service request check (mkLocals None None None false w)
    = Returns tt l /\
    present (ageProof l) = okAge /\
    present (riskProof l) = okAge && okRisk /\
    present (selectiveDisclosureProof l) = okAge && okRisk && okDisclosure /\
    isCompliant l = okAge && okRisk && okDisclosure.
Proof.
  unfold attempt, try_catch.
  pose proof (generateAgeProof_spec (noirService service)
                (ageInput service request) w) as HA.
  subst okAge okRisk okDisclosure.
  destruct (validateAgeInput (ageInput service request)) as [e|[]].
  { erewrite bind_throws by (apply io_throws; exact HA).
    eexists. split; [reflexivity|]. cbn. auto. }
  destruct HA as (pa & w1 & HA).
  erewrite bind_returns by (apply io_returns; exact HA).
  unfold set_ageProof at 1. unfold bind at 1.
  cbn [ageProof riskProof selectiveDisclosureProof isCompliant world].
  pose proof (generateRiskProof_spec (noirService service)
                (riskInput service request check) w1) as HR.
  destruct (validateRiskInput (riskInput service request check)) as [e|[]].
  { erewrite bind_throws by (apply io_throws; exact HR).
    eexists. split; [reflexivity|]. cbn. auto. }
  destruct HR as (pr & w2 & HR).
  erewrite bind_returns by (apply io_returns; exact HR).
  unfold set_riskProof at 1. unfold bind at 1.
  cbn [ageProof riskProof selectiveDisclosureProof isCompliant world].
  pose proof (generateSelectiveDisclosureProof_spec (noirService service)
                (disclosureInput service request check) w2) as HD.
  destruct (validateSelectiveDisclosureInput
              (disclosureInput service request check)) as [e|[]].
  { erewrite bind_throws by (apply io_throws; exact HD).
    eexists. split; [reflexivity|]. cbn. auto. }
  destruct HD as (pd & w3 & HD).
  erewrite bind_returns by (apply io_returns; exact HD).
  eexists. split; [reflexivity|]. cbn. auto.
Qed.

End Attempt.

(** What [generateAttestation] returns once the risk provider has
    answered. *)
Lemma generateAttestation_returns {platform : Platform}
      (service : ComplianceService.ComplianceService)
      (request : Request.AttestationRequest)
      (check : Check.ComplianceCheckResult) (w w1 : World) :
  RangeClient.checkCompliance (rangeClient service)
                              (Request.walletAddress request) w
  = Returns check w1 ->
  exists attestation w',
    generateAttestation service request w = Returns attestation w' /\
    Attestation.complianceCheck attestation = check /\
    let okAge := passes (validateAgeInput (ageInput service request)) in
    let okRisk :=
      passes (validateRiskInput (riskInput service request check)) in
    let okDisclosure :=
      passes (validateSelectiveDisclosureInput
                (disclosureInput service request check)) in
    let proofs := Attestation.proofs attestation in
    present (Attestation.age proofs) = okAge /\
    present (Attestation.risk proofs) = okAge && okRisk /\
    present (Attestation.selectiveDisclosure proofs)
    = okAge && okRisk && okDisclosure /\
    Attestation.isCompliant attestation = okAge && okRisk && okDisclosure.
Proof.
  intros Hcheck.
  destruct (attempt_spec service request check w1)
    as (l & Hl & Ha & Hr & Hd & Hc).
  unfold generateAttestation.
  erewrite bind_returns by exact Hcheck.
  rewrite Hl.
  unfold generateAttestationId, bind, Date_now, Math_random, ret.
  do 2 eexists. split; [reflexivity|].
  cbn [Attestation.complianceCheck Attestation.proofs Attestation.age
       Attestation.risk Attestation.selectiveDisclosure
       Attestation.isCompliant].
  split; [reflexivity|].
  rewrite Ha, Hr, Hd, Hc. repeat split.
Qed.

(** C3 (as amended).  Once the risk provider has answered,
    [generateAttestation] does not throw, whatever the validations say:
    it returns an attestation that holds the proofs generated before
    the first failing validation and omits the failing one and those
    after it; [isCompliant] is true iff all three validations pass,
    that is iff all three proofs are present. *)
Theorem attestation_error_behaviour {platform : Platform}
        (service : ComplianceService.ComplianceService)
        (request : Request.AttestationRequest)
        (check : Check.ComplianceCheckResult) (w w1 : World) :
  RangeClient.checkCompliance (rangeClient service)
                              (Request.walletAddress request) w
  = Returns check w1 ->
  exists attestation w',
    generateAttestation service request w = Returns attestation w' /\
    Attestation.complianceCheck attestation = check /\
    let okAge := passes (validateAgeInput (ageInput service request)) in
    let okRisk :=
      passes (validateRiskInput (riskInput service request check)) in
    let okDisclosure :=
      passes (validateSelectiveDisclosureInput
                (disclosureInput service request check)) in
    let proofs := Attestation.proofs attestation in
    present (Attestation.age proofs) = okAge /\
    present (Attestation.risk proofs) = okAge && okRisk /\
    present (Attestation.selectiveDisclosure proofs)
    = okAge && okRisk && okDisclosure /\
    Attestation.isCompliant attestation = okAge && okRisk && okDisclosure /\
    (Attestation.isCompliant attestation = true <->
     present (Attestation.age proofs) = true /\
     present (Attestation.risk proofs) = true /\
     present (Attestation.selectiveDisclosure proofs) = true).
Proof.
  intros Hcheck.
  destruct (generateAttestation_returns service request check w w1 Hcheck)
    as (attestation & w' & Hret & Hcc & Ha & Hr & Hd & Hc).
  exists attestation, w'. split; [assumption|]. split; [assumption|].
  cbv zeta. do 4 (split; [assumption|]).
  rewrite Ha, Hr, Hd, Hc. split.
  - intros H. rewrite H.
    apply andb_prop in H as [H _]. rewrite H.
    apply andb_prop in H as [H _]. rewrite H.
    auto.
  - intros (_ & _ & H). exact H.
Qed.

(** The request with a balance below the minimum is not compliant. *)
Lemma attestation_error_behaviour_witness :
  exists attestation w',
    generateAttestation (platform := Examples.platform)
                        Examples.service Examples.poorRequest
                        Examples.offline
    = Returns attestation w' /\
    Attestation.isCompliant attestation = false.
Proof.
  destruct (attestation_error_behaviour (platform := Examples.platform)
              Examples.service Examples.poorRequest _
              Examples.offline Examples.offline eq_refl)
    as (attestation & w' & Hret & _ & _ & _ & _ & Hc & _).
  exists attestation, w'. split; [exact Hret|].
  rewrite Hc. reflexivity.
Defined.

(** C3 fails as stated: when the balance check of the third proof
    fails, the age and risk proofs, which preceded the failure, are not
    omitted from the [proofs] field. *)
Lemma attestation_keeps_earlier_proofs :
  exists attestation w',
    generateAttestation (platform := Examples.platform)
                        Examples.service Examples.poorRequest
                        Examples.offline
    = Returns attestation w' /\
    Attestation.isCompliant attestation = false /\
    present (Attestation.age (Attestation.proofs attestation)) = true /\
    present (Attestation.risk (Attestation.proofs attestation)) = true /\
    present (Attestation.selectiveDisclosure
               (Attestation.proofs attestation)) = false.
Proof.
  destruct (generateAttestation_returns (platform := Examples.platform)
              Examples.service Examples.poorRequest _
              Examples.offline Examples.offline eq_refl)
    as (attestation & w' & Hret & _ & Ha & Hr & Hd & Hc).
  exists attestation, w'. split; [exact Hret|].
  rewrite Ha, Hr, Hd, Hc. repeat split.
Qed.

End ComplianceServiceFacts.

(* ------------------------------------------------------------------ *)
Module DeriveFacts.
Import JSString PrivacyUtils.
#[local] Open Scope Z_scope.

Lemma byte_val_Uint8 (z : Z) : byte_val (Uint8 z) = z mod 256.
Proof.
  unfold byte_val, Uint8.
  assert (Hr : 0 <= z mod 256 < 256) by (apply Z.mod_pos_bound; lia).
  destruct (Byte.of_N (Z.to_N (z mod 256))) as [b|] eqn:E.
  - apply Byte.to_of_N in E. rewrite E. lia.
  - apply Byte.of_N_None_iff in E. lia.
Qed.

Lemma byte_val_range (b : byte) : 0 <= byte_val b < 256.
Proof.
  unfold byte_val. pose proof (Byte.to_N_bounded b). lia.
Qed.

Lemma fillDerived_length (n : nat) (hash : Z) (derived : list byte) :
  List.length (fillDerived n hash derived) = (n + List.length derived)%nat.
Proof.
  revert hash derived. induction n as [|n IH]; intros hash derived; cbn.
  - reflexivity.
  - rewrite IH. cbn. lia.
Qed.

Lemma derivedSeed_length (seed : list byte) (index : Z) :
  List.length (derivedSeed seed index) = 32%nat.
Proof. unfold derivedSeed. now rewrite fillDerived_length. Qed.

(** The second loop writes the [n] low bytes of [hash]: arrays that
    agree come from numbers that agree modulo [256 ^ n]. *)
Lemma fillDerived_inj (n : nat) :
  forall (h h' : Z) (acc acc' : list byte),
    List.length acc = List.length acc' ->
    fillDerived n h acc = fillDerived n h' acc' ->
    h mod 256 ^ Z.of_nat n = h' mod 256 ^ Z.of_nat n /\ acc = acc'.
Proof.
  induction n as [|n IH]; intros h h' acc acc' Hlen Heq.
  - cbn in Heq. split; [now rewrite !Z.mod_1_r | assumption].
  - cbn [fillDerived] in Heq.
    apply IH in Heq as [Hhi Hacc]; [|cbn; congruence].
    injection Hacc as Hb Hacc. split; [|assumption].
    apply (f_equal byte_val) in Hb. rewrite !byte_val_Uint8 in Hb.
    change 0xFF with (Z.ones 8) in Hb.
    rewrite !Z.land_ones in Hb by lia.
    rewrite !Z.shiftr_div_pow2 in Hhi by lia.
    change (2 ^ 8) with 256 in *.
    rewrite !Z.mod_mod in Hb by lia.
    rewrite Nat2Z.inj_succ, Z.pow_succ_r by lia.
    assert (Hpos : 0 < 256 ^ Z.of_nat n) by (apply Z.pow_pos_nonneg; lia).
    rewrite !Z.rem_mul_r by lia.
    congruence.
Qed.

Lemma bytes_of_u32 (u : Z) :
  0 <= u < 2 ^ 32 ->
  (((u / 2 ^ 24) mod 256 * 256 + (u / 2 ^ 16) mod 256) * 256
   + (u / 2 ^ 8) mod 256) * 256 + u mod 256 = u.
Proof.
  intros Hu.
  change (2 ^ 32) with 4294967296 in *.
  change (2 ^ 24) with 16777216. change (2 ^ 16) with 65536.
  change (2 ^ 8) with 256.
  Z.div_mod_to_equations. lia.
Qed.

Section Modulus.

(** The facts hold for every modulus above [2 ^ 32]. *)
Variable p : Z.
Hypothesis p_large : 2 ^ 32 < p.

Lemma p_positive : 0 < p.
Proof. pose proof (Z.pow_pos_nonneg 2 32). lia. Qed.

(** Reducing at every step or at the end gives the same residue. *)
Lemma fold_mod (l : list byte) :
  forall h h' : Z,
    h mod p = h' mod p ->
    (fold_left (fun a b => (a * 256 + byte_val b) mod p) l h) mod p
    = (fold_left (fun a b => a * 256 + byte_val b) l h') mod p.
Proof.
  pose proof p_positive as Hp.
  induction l as [|b l IH]; intros h h' Hh; cbn [fold_left].
  - assumption.
  - apply IH. rewrite Z.mod_mod by lia.
    rewrite (Z.add_mod (h * 256)), (Z.add_mod (h' * 256)) by lia.
    rewrite (Z.mul_mod h), (Z.mul_mod h') by lia.
    now rewrite Hh.
Qed.

Lemma offsets_distinct (A u v : Z) :
  0 <= u < 2 ^ 32 -> 0 <= v < 2 ^ 32 ->
  (A + u) mod p = (A + v) mod p -> u = v.
Proof.
  intros Hu Hv Heq.
  pose proof p_positive as Hp.
  pose proof (Z.div_mod (A + u) p ltac:(lia)) as Du.
  pose proof (Z.div_mod (A + v) p ltac:(lia)) as Dv.
  rewrite Heq in Du.
  set (qu := (A + u) / p) in *. set (qv := (A + v) / p) in *.
  set (r := (A + v) mod p) in *. clearbody qu qv r.
  assert (Hd : u - v = p * (qu - qv)) by lia.
  assert (Hq : qu - qv = 0) by nia.
  rewrite Hq in Hd. lia.
Qed.

End Modulus.

Lemma order_large : 2 ^ 32 < ED25519_CURVE_ORDER.
Proof. reflexivity. Qed.

Lemma order_small : ED25519_CURVE_ORDER < 256 ^ 32.
Proof. reflexivity. Qed.

Lemma hashStep_range (hash : Z) (b : byte) :
  0 <= hashStep hash b < ED25519_CURVE_ORDER.
Proof. unfold hashStep. apply Z.mod_pos_bound. reflexivity. Qed.

Lemma fold_hashStep_range (l : list byte) (h : Z) :
  0 <= h < ED25519_CURVE_ORDER ->
  0 <= fold_left hashStep l h < ED25519_CURVE_ORDER.
Proof.
  revert h. induction l as [|b l IH]; intros h Hh; cbn.
  - assumption.
  - apply IH, hashStep_range.
Qed.

Lemma hashBytes_range (l : list byte) :
  0 <= hashBytes l < ED25519_CURVE_ORDER.
Proof. apply fold_hashStep_range. split; reflexivity. Qed.

(** The hash of seed and index is the hash of the seed shifted by four
    bytes, plus the index, modulo the order. *)
Lemma hashBytes_combined (seed : list byte) (index : Z) :
  0 <= index < 2 ^ 32 ->
  hashBytes (combined seed index)
  = (hashBytes seed * 2 ^ 32 + index) mod ED25519_CURVE_ORDER.
Proof.
  intros Hi.
  rewrite <- (Z.mod_small (hashBytes (combined seed index))
                          ED25519_CURVE_ORDER)
    by apply hashBytes_range.
  unfold hashBytes at 1. unfold combined. rewrite fold_left_app.
  fold (hashBytes seed). unfold hashStep.
  rewrite (fold_mod ED25519_CURVE_ORDER order_large (indexBytes index)
             (hashBytes seed) (hashBytes seed) eq_refl).
  f_equal. unfold indexBytes. rewrite (Z.mod_small index) by assumption.
  cbn [fold_left]. rewrite !byte_val_Uint8.
  pose proof (bytes_of_u32 index Hi) as E.
  set (a := (index / 2 ^ 24) mod 256) in *.
  set (b := (index / 2 ^ 16) mod 256) in *.
  set (c := (index / 2 ^ 8) mod 256) in *.
  set (d := index mod 256) in *.
  clearbody a b c d. change (2 ^ 32) with 4294967296. lia.
Qed.

(** Different indices give different derived seeds. *)
Lemma derivedSeed_inj (seed : list byte) (i j : Z) :
  0 <= i < 2 ^ 32 -> 0 <= j < 2 ^ 32 ->
  derivedSeed seed i = derivedSeed seed j -> i = j.
Proof.
  intros Hi Hj Heq. unfold derivedSeed in Heq.
  apply fillDerived_inj in Heq as [Heq _]; [|reflexivity].
  pose proof (hashBytes_range (combined seed i)) as Ri.
  pose proof (hashBytes_range (combined seed j)) as Rj.
  pose proof order_small as Hs.
  change (Z.of_nat 32) with 32 in Heq.
  rewrite !Z.mod_small in Heq by lia.
  rewrite !hashBytes_combined in Heq by assumption.
  eapply offsets_distinct; eauto using order_large.
Qed.

Section Keys.

Context {platform : Platform}.

Lemma deriveKeypair_total (seed : list byte) (index : Z) :
  deriveKeypair seed index
  = inr (Solana.mkKeypair
           (ed25519_public (derivedSeed seed index))
           (derivedSeed seed index
            ++ ed25519_public (derivedSeed seed index))).
Proof.
  unfold deriveKeypair, Keypair_fromSeed.
  now rewrite derivedSeed_length.
Qed.

Lemma deriveAddress_total (seed : list byte) (index : Z) :
  deriveAddress seed index
  = inr (toBase58 (ed25519_public (derivedSeed seed index))).
Proof. unfold deriveAddress. now rewrite deriveKeypair_total. Qed.

Lemma prefix32 (d d' t t' : list byte) :
  List.length d = 32%nat -> List.length d' = 32%nat ->
  d ++ t = d' ++ t' -> d = d'.
Proof.
  intros Hd Hd' Heq. apply (f_equal (firstn 32)) in Heq.
  rewrite !firstn_app in Heq.
  rewrite (firstn_all2 d), (firstn_all2 d') in Heq by lia.
  rewrite Hd, Hd', Nat.sub_diag in Heq. cbn [firstn] in Heq.
  now rewrite !app_nil_r in Heq.
Qed.

Lemma Keypair_fromSeed_inj (d d' : list byte) :
  List.length d = 32%nat -> List.length d' = 32%nat ->
  Keypair_fromSeed d = Keypair_fromSeed d' -> d = d'.
Proof.
  intros Hd Hd'. unfold Keypair_fromSeed. rewrite Hd, Hd'. cbn.
  intros Heq. injection Heq as _ Hsecret.
  now apply prefix32 in Hsecret.
Qed.

(** C5.  For a 32-byte seed and two different unsigned 32-bit
    indices the derived key pairs differ, and so do the derived
    addresses when the public key and its Base58 spelling are
    one-to-one on 32-byte seeds; the derivation is a function of seed
    and index alone, and run as an effect it returns in the world it
    started from. *)
Theorem derivation_distinct_and_deterministic
        (seed : list byte) (i j : Z) :
  List.length seed = 32%nat ->
  0 <= i < 2 ^ 32 -> 0 <= j < 2 ^ 32 -> i <> j ->
  deriveKeypair seed i <> deriveKeypair seed j /\
  ((forall d d', List.length d = 32%nat -> List.length d' = 32%nat ->
                 toBase58 (ed25519_public d) = toBase58 (ed25519_public d') ->
                 d = d') ->
   deriveAddress seed i <> deriveAddress seed j) /\
  (forall seed' i', seed' = seed -> i' = i ->
     deriveKeypair seed' i' = deriveKeypair seed i /\
     deriveAddress seed' i' = deriveAddress seed i) /\
  (forall w : World,
     exists address,
       Eff.of_sum (deriveAddress seed i) w = Eff.Returns address w).
Proof.
  intros _ Hi Hj Hne. split; [|split; [|split]].
  - unfold deriveKeypair. intros Heq.
    apply Keypair_fromSeed_inj in Heq; try apply derivedSeed_length.
    apply Hne. now apply (derivedSeed_inj seed).
  - intros Hinj. rewrite !deriveAddress_total.
    generalize (derivedSeed_inj seed i j Hi Hj).
    generalize (derivedSeed_length seed i) (derivedSeed_length seed j).
    generalize (derivedSeed seed i) (derivedSeed seed j).
    intros d d' Hd Hd' Hdd Heq. injection Heq as Heq.
    apply Hne, Hdd. now apply Hinj.
  - intros seed' i' -> ->. split; reflexivity.
  - intros w. rewrite deriveAddress_total. eexists. reflexivity.
Qed.

(** C6 (as amended).  The derivation checks no seed length: for a seed
    of any length and any index it returns a key pair, made from the
    32-byte reduction of seed and index modulo the order, and an
    address. *)
Theorem derivation_accepts_any_seed (seed : list byte) (index : Z) :
  exists keypair address,
    deriveKeypair seed index = inr keypair /\
    deriveAddress seed index = inr address /\
    Solana.secretKey keypair
    = derivedSeed seed index ++ Solana.publicKey keypair /\
    List.length (derivedSeed seed index) = 32%nat.
Proof.
  do 2 eexists.
  rewrite deriveKeypair_total, deriveAddress_total.
  split; [reflexivity|]. split; [reflexivity|].
  split; [reflexivity | apply derivedSeed_length].
Qed.

End Keys.

(** Indices 0 and 1 under the seed of 32 bytes 0x2a. *)
Lemma derivation_distinct_and_deterministic_witness :
  List.length Examples.seed42 = 32%nat /\
  deriveKeypair (platform := Examples.platform) Examples.seed42 0
  <> deriveKeypair (platform := Examples.platform) Examples.seed42 1.
Proof.
  split; [reflexivity|].
  apply (derivation_distinct_and_deterministic
           (platform := Examples.platform) Examples.seed42 0 1).
  - reflexivity.
  - split; [discriminate | reflexivity].
  - split; [discriminate | reflexivity].
  - discriminate.
Defined.

(** C6 fails as stated: a seed of three bytes is not rejected. *)
Lemma short_seed_is_accepted :
  List.length [x01; x02; x03] <> 32%nat /\
  exists keypair,
    deriveKeypair (platform := Examples.platform) [x01; x02; x03] 0
    = inr keypair.
Proof. split; [discriminate|]. eexists. reflexivity. Qed.

End DeriveFacts.

(* ------------------------------------------------------------------ *)
Module SplitFacts.
Import JS JSFacts Eff Sys PrivacyUtils.
#[local] Open Scope Q_scope.

(** ** Sums *)

Lemma fold_sum (l : list Q) (a : Q) : fold_left Qplus l a == a + sum l.
Proof.
  unfold sum. revert a. induction l as [|x l IH]; intros a; cbn.
  - lra.
  - rewrite IH, (IH (0 + x)). lra.
Qed.

Lemma sum_cons (x : Q) (l : list Q) : sum (x :: l) == x + sum l.
Proof. unfold sum at 1. cbn. rewrite fold_sum. lra. Qed.

Lemma sum_single (x : Q) : sum [x] == x.
Proof. unfold sum. cbn. lra. Qed.

Lemma sum_app (l l' : list Q) : sum (l ++ l') == sum l + sum l'.
Proof.
  induction l as [|x l IH]; cbn [app].
  - unfold sum at 2. cbn. lra.
  - rewrite !sum_cons, IH. lra.
Qed.

Lemma sum_Qlist_eq (l l' : list Q) : Qlist_eq l l' -> sum l == sum l'.
Proof.
  induction 1 as [|x y l l' Hxy _ IH].
  - reflexivity.
  - rewrite !sum_cons, Hxy, IH. reflexivity.
Qed.

(** ** Rounding to four decimals *)

#[export] Instance round4_Proper : Proper (Qeq ==> Qeq) round4.
Proof.
  intros x y H. unfold round4.
  rewrite (Math_round_Proper (x * 10000) (y * 10000)); [reflexivity|].
  now rewrite H.
Qed.

Lemma round4_fixes (x : Q) : fourDecimals x -> round4 x == x.
Proof.
  intros [k Hk]. rewrite Hk. unfold round4.
  rewrite (Math_round_Proper (inject_Z k / 10000 * 10000) (inject_Z k)).
  - now rewrite Math_round_Z.
  - field.
Qed.

Lemma round4_close (y : Q) : Qabs (round4 y - y) <= 1 # 20000.
Proof.
  unfold round4. destruct (Math_round_close (y * 10000)) as [Hlo Hhi].
  apply Qabs_Qle_condition. split; qlra.
Qed.

Lemma round4_fourDecimals (y : Q) : fourDecimals (round4 y).
Proof. eexists. reflexivity. Qed.

(** ** The noisy amounts lie on the grid of four decimals *)

Lemma pickCents_integer (r : Q) : exists k : Z, pickCents r = inject_Z k.
Proof.
  unfold pickCents.
  set (i := Z.to_nat _). clearbody i.
  do 12 (destruct i as [|i]; [eexists; reflexivity|]).
  exists 0%Z. destruct i; reflexivity.
Qed.

Lemma noisyAmount_fourDecimals (s r1 r2 : Q) : fourDecimals (noisyAmount s r1 r2).
Proof.
  unfold noisyAmount. cbv zeta.
  destruct (pickCents_integer r2) as [c ->].
  set (f := Math_floor _). clearbody f.
  exists (f * 100 + c)%Z.
  rewrite inject_Z_plus, inject_Z_mult. change (inject_Z 100) with 100.
  field.
Qed.

(** ** Conservation *)

Lemma addToLast_snoc (d x : Q) (l : list Q) :
  addToLast d (l ++ [x]) = l ++ [x + d].
Proof.
  induction l as [|y l IH]; cbn.
  - reflexivity.
  - rewrite IH. destruct (l ++ [x]) eqn:E; [|reflexivity].
    now destruct l.
Qed.

Lemma map_round4_grid (l : list Q) :
  Forall fourDecimals l -> Qlist_eq (map round4 l) l.
Proof.
  induction 1 as [|x l Hx _ IH]; cbn.
  - constructor.
  - constructor; [now apply round4_fixes | exact IH].
Qed.

(** The common tail of the two splitters: when the fragments before it
    lie on the grid of four decimals, the residual lands in the last
    fragment and the sum is the total up to the last rounding. *)
Lemma conserve_spec (total : Q) (splits : list Q) :
  splits <> [] -> Forall fourDecimals splits ->
  residualInLast total splits (conserve total splits) /\
  Qabs (sum (conserve total splits) - total) <= 1 # 20000.
Proof.
  intros Hne Hgrid.
  destruct (exists_last Hne) as (init & x & ->).
  apply Forall_app in Hgrid as [Hinit _].
  unfold conserve. rewrite addToLast_snoc, map_app. cbn [map].
  set (d := total - sum (init ++ [x])).
  pose proof (map_round4_grid init Hinit) as Heq.
  split.
  - unfold residualInLast. split; [assumption|]. split.
    + rewrite !length_app, length_map. reflexivity.
    + rewrite !removelast_last, !last_last. split; [exact Heq | reflexivity].
  - rewrite sum_app, (sum_Qlist_eq _ _ Heq), sum_single.
    assert (Hy : x + d == total - sum init).
    { subst d. rewrite sum_app, sum_single. lra. }
    rewrite (round4_Proper _ _ Hy).
    pose proof (round4_close (total - sum init)) as Hc.
    apply Qabs_Qle_condition in Hc. apply Qabs_Qle_condition.
    destruct Hc. split; lra.
Qed.

Section Deterministic.

Context {platform : Platform}.

Lemma detWeights_length (n : nat) (seedVal : Z) (weights : list Q) :
  List.length (fst (detWeights n seedVal weights))
  = (n + List.length weights)%nat.
Proof.
  revert seedVal weights.
  induction n as [|n IH]; intros seedVal weights; cbn.
  - reflexivity.
  - rewrite IH, length_app. cbn. lia.
Qed.

Lemma detNoise_spec (splits : list Q) (seedVal : Z) :
  List.length (fst (detNoise splits seedVal)) = List.length splits /\
  Forall fourDecimals (fst (detNoise splits seedVal)).
Proof.
  revert seedVal. induction splits as [|s r IH]; intros seedVal; cbn.
  - split; [reflexivity | constructor].
  - specialize (IH (seedVal + 1 + 1)%Z).
    destruct (detNoise r (seedVal + 1 + 1)) as [rest sv]. cbn in *.
    destruct IH as [Hlen Hgrid]. split.
    + now rewrite Hlen.
    + constructor; [apply noisyAmount_fourDecimals | assumption].
Qed.

Lemma seededSplits_spec (total : Q) (splitCount seed : Z) :
  List.length (seededSplits total splitCount seed) = Z.to_nat splitCount /\
  Forall fourDecimals (seededSplits total splitCount seed).
Proof.
  unfold seededSplits.
  pose proof (detWeights_length (Z.to_nat splitCount) seed []) as Hw.
  destruct (detWeights (Z.to_nat splitCount) seed []) as [weights sv].
  cbn in Hw.
  destruct (detNoise_spec
              (map (fun w => w / sum weights * total) weights) sv)
    as [Hlen Hgrid].
  split; [|assumption].
  rewrite Hlen, length_map, Hw. lia.
Qed.

End Deterministic.

Section Randomized.

Context {platform : Platform}.

Lemma Math_random_drawn (w : World) (n : nat) :
  Math_random (drawn w n)
  = Returns (random_draws w (n + random_calls w)%nat) (drawn w (S n)).
Proof. reflexivity. Qed.

Lemma drawn_0 (w : World) : drawn w 0 = w.
Proof. now destruct w. Qed.

Lemma pushWeights_spec (n : nat) :
  forall (weights : list Q) (w : World) (k : nat),
  exists weights',
    pushWeights n weights (drawn w k) = Returns weights' (drawn w (n + k))
    /\ List.length weights' = (n + List.length weights)%nat.
Proof.
  induction n as [|n IH]; intros weights w k; cbn [pushWeights].
  - eexists. split; [reflexivity | reflexivity].
  - unfold bind. rewrite Math_random_drawn.
    destruct (IH (weights ++ [Math_pow2 (random_draws w (k + random_calls w))
                              + 0.1]) w (S k))
      as (ws & Hret & Hlen).
    exists ws. split.
    + rewrite Hret. f_equal. f_equal. lia.
    + rewrite Hlen, length_app. cbn. lia.
Qed.

Lemma addNoise_map_spec (splits : list Q) :
  forall (i : Z) (w : World) (k : nat),
  exists l,
    mapi_from addNoise i splits (drawn w k)
    = Returns l (drawn w (2 * List.length splits + k))
    /\ List.length l = List.length splits
    /\ Forall fourDecimals l.
Proof.
  induction splits as [|s r IH]; intros i w k; cbn [mapi_from].
  - eexists. split; [reflexivity|]. split; [reflexivity | constructor].
  - unfold bind at 1. unfold addNoise at 1. unfold bind at 1.
    rewrite Math_random_drawn. unfold bind at 1.
    rewrite Math_random_drawn. unfold ret at 1.
    destruct (IH (i + 1)%Z w (S (S k))) as (l & Hret & Hlen & Hgrid).
    unfold bind. rewrite Hret. unfold ret.
    eexists. split; [|split].
    + f_equal. f_equal. cbn [List.length]. lia.
    + cbn. now rewrite Hlen.
    + constructor; [apply noisyAmount_fourDecimals | assumption].
Qed.

Lemma band_valid (total : Q) :
  let (lo, hi) := band total in (1 <= lo <= hi)%Z.
Proof.
  unfold band.
  destruct (Qltb total 0.5); [lia|].
  destruct (Qltb total 2); [lia|].
  destruct (Qltb total 10); lia.
Qed.



Lemma not_below_floor (total : Q) : 0.1 <= total -> Qltb total 0.1 = false.
Proof.
  intros H. unfold Qltb. apply negb_false_iff. now apply Qle_bool_iff.
Qed.


End Randomized.

Lemma offline_in_range : random_in_range Examples.offline.
Proof.
  intros k. unfold Examples.offline. cbn [random_draws].
  pose proof (Nat.mod_upper_bound k 7 ltac:(discriminate)) as Hk.
  unfold Qle, Qlt. cbn [Qnum Qden]. lia.
Qed.


End SplitFacts.

(* ------------------------------------------------------------------ *)
Module PageFacts.
Import JS JSFacts Eff Sys Page PrivacyUtils.
#[local] Open Scope Q_scope.

Lemma jitter_bounds (u : Q) :
  0 <= u < 1 -> Qabs (jitter u) <= halfHourMs.
Proof.
  intros [H0 H1]. unfold jitter, halfHourMs.
  apply Qabs_Qle_condition. split; lra.
Qed.

Lemma Math_round_nonneg (x : Q) : 0 <= x -> (0 <= Math_round x)%Z.
Proof.
  intros H. rewrite <- (Math_round_Z 0). now apply Math_round_mono.
Qed.

Section Schedule.

Context {platform : Platform}.

(** [Math.log] is not positive on (0,1]. *)
Hypothesis log_nonpositive : forall x : Q, 0 < x <= 1 -> Math_log x <= 0.

Lemma poissonDelay_nonneg (u : Q) : 0 <= u < 1 -> (0 <= poissonDelay u)%Z.
Proof.
  intros [H0 H1]. unfold poissonDelay. apply Math_round_nonneg.
  pose proof (log_nonpositive (1 - u) ltac:(lra)) as Hlog.
  unfold avgDelayMs. change (inject_Z (4 * 60 * 60 * 1000)) with 14400000.
  lra.
Qed.

Variable seed : list byte.

(** One fragment: the cursor does not go back, the scheduled time is
    within thirty minutes of it, and the address is the one derived
    for the index. *)
Lemma scheduleOne_spec (amount : Q) (index : Z) (st : Cursor) :
  random_in_range (world st) ->
  exists wd cursor w',
    scheduleOne seed amount index st
    = Returns (wd, cursor) (mkCursor cursor w') /\
    random_draws w' = random_draws (world st) /\
    (currentTime st <= cursor)%Z /\
    Qabs (scheduledTime wd - inject_Z cursor) <= halfHourMs /\
    deriveAddress seed index = inr (targetAddress wd) /\
    Page.amount wd = amount.
Proof.
  intros Hrange.
  unfold scheduleOne, bind, io, zoom, advance, of_sum.
  rewrite DeriveFacts.deriveAddress_total.
  unfold Math_random, Date_now, ret.
  cbn [world currentTime random_draws random_calls clock clock_reads].
  do 3 eexists. split; [reflexivity|].
  cbn [world currentTime random_draws scheduledTime targetAddress
       Page.amount].
  split; [reflexivity|]. split; [|split; [|split; reflexivity]].
  - pose proof (poissonDelay_nonneg _ (Hrange (random_calls (world st)))).
    lia.
  - match goal with
    | |- Qabs (inject_Z ?c + jitter ?u - inject_Z ?c) <= _ =>
        assert (E : inject_Z c + jitter u - inject_Z c == jitter u)
          by (generalize (inject_Z c); intros; lra);
        rewrite E
    end.
    apply jitter_bounds, Hrange.
Qed.

Lemma nondecreasing_cons (a b : Z) (l : list Z) :
  (a <= b)%Z -> nondecreasing (b :: l) -> nondecreasing (a :: b :: l).
Proof. intros H H'. split; assumption. Qed.

Lemma nearCursor_weaken (start start' : Z) (l : list (ScheduledWithdrawal * Z)) :
  (start <= start')%Z ->
  Forall (fun e => (start' <= snd e)%Z) l ->
  Forall (fun e => (start <= snd e)%Z) l.
Proof.
  intros H. apply Forall_impl. intros e He. lia.
Qed.

(** All fragments, from index [i] and any cursor. *)
Lemma schedule_map_spec (splits : list Q) :
  forall (i : Z) (st : Cursor),
    random_in_range (world st) ->
    exists trace st',
      mapi_from (scheduleOne seed) i splits st = Returns trace st' /\
      List.length trace = List.length splits /\
      nondecreasing (currentTime st :: map snd trace) /\
      Forall (fun e => (currentTime st <= snd e)%Z /\
                       Qabs (scheduledTime (fst e) - inject_Z (snd e))
                       <= halfHourMs) trace /\
      (forall k wd cursor,
          nth_error trace k = Some (wd, cursor) ->
          deriveAddress seed (i + Z.of_nat k) = inr (targetAddress wd) /\
          nth_error splits k = Some (Page.amount wd)).
Proof.
  induction splits as [|amount rest IH]; intros i st Hrange;
    cbn [mapi_from].
  - exists [], st. split; [reflexivity|]. split; [reflexivity|].
    split; [exact I|]. split; [constructor|].
    intros [|k] wd cursor H; discriminate.
  - destruct (scheduleOne_spec amount i st Hrange)
      as (wd & c1 & w1 & Hone & Hdraws & Hle & Hnear & Haddr & Hamount).
    assert (Hrange1 : random_in_range (world (mkCursor c1 w1))).
    { intros k. cbn [world]. rewrite Hdraws. apply Hrange. }
    destruct (IH (i + 1)%Z (mkCursor c1 w1) Hrange1)
      as (trace & st2 & Hrest & Hlen & Hmono & Hall & Hnth).
    unfold bind. rewrite Hone, Hrest. unfold ret.
    do 2 eexists. split; [reflexivity|].
    split; [cbn; now rewrite Hlen|].
    cbn [currentTime] in *.
    split; [cbn [map snd]; now apply nondecreasing_cons|].
    split.
    + constructor.
      * cbn [fst snd]. split; [assumption | assumption].
      * eapply Forall_impl; [|exact Hall].
        intros e [He1 He2]. split; [lia | assumption].
    + intros [|k] wd' cursor H; cbn [nth_error] in *.
      * injection H as <- <-. rewrite Z.add_0_r, Hamount.
        split; [assumption | reflexivity].
      * destruct (Hnth k wd' cursor H) as [Ha Hb]. split; [|assumption].
        rewrite <- Ha. f_equal. lia.
Qed.


End Schedule.

Lemma example_log (x : Q) : 0 < x <= 1 -> Math_log (Platform := Examples.platform) x <= 0.
Proof. intros [_ H]. cbn. lra. Qed.


End PageFacts.

(* ------------------------------------------------------------------ *)
Module JSONFacts.
Import JSString JSON.
#[local] Open Scope string_scope.

(** ** Strings *)

Lemma append_assoc (a b c : string) : (a ++ b) ++ c = a ++ (b ++ c).
Proof. induction a as [|x a IH]; cbn; [reflexivity | now rewrite IH]. Qed.

Lemma length_append (a b : string) :
  String.length (a ++ b) = (String.length a + String.length b)%nat.
Proof. induction a as [|x a IH]; cbn; [reflexivity | now rewrite IH]. Qed.

(** ** Numbers *)

Lemma uint_digits (d : Decimal.uint) :
  Forall (fun c => is_digit c = true)
         (list_ascii_of_string (NilEmpty.string_of_uint d)).
Proof.
  induction d; cbn [NilEmpty.string_of_uint list_ascii_of_string];
    constructor; try reflexivity; assumption.
Qed.

Lemma span_digits_app (ds rest : string) :
  Forall (fun c => is_digit c = true) (list_ascii_of_string ds) ->
  match rest with
  | String c _ => is_digit c = false
  | EmptyString => True
  end ->
  span_digits (ds ++ rest) = (ds, rest).
Proof.
  intros Hds Hrest. induction ds as [|c ds IH]; cbn.
  - destruct rest as [|c r]; [reflexivity|]. cbn. now rewrite Hrest.
  - inversion Hds as [|? ? Hc Hds']; subst. rewrite Hc, IH by assumption.
    reflexivity.
Qed.

(** The digits of a number have no superfluous leading zero. *)
Lemma to_uint_head (n : N) :
  N.to_uint n = Decimal.D0 Decimal.Nil \/
  (N.to_uint n <> Decimal.Nil /\ forall d, N.to_uint n <> Decimal.D0 d).
Proof.
  pose proof (DecimalN.Unsigned.to_of (N.to_uint n)) as H.
  rewrite DecimalN.Unsigned.of_to in H.
  unfold Decimal.unorm in H.
  pose proof (DecimalFacts.nzhead_nonzero (N.to_uint n)) as Hnz.
  destruct (Decimal.nzhead (N.to_uint n)) eqn:E.
  - left. exact H.
  - exfalso. now apply (Hnz u).
  - right. rewrite H. split; [discriminate | intros; discriminate].
  - right. rewrite H. split; [discriminate | intros; discriminate].
  - right. rewrite H. split; [discriminate | intros; discriminate].
  - right. rewrite H. split; [discriminate | intros; discriminate].
  - right. rewrite H. split; [discriminate | intros; discriminate].
  - right. rewrite H. split; [discriminate | intros; discriminate].
  - right. rewrite H. split; [discriminate | intros; discriminate].
  - right. rewrite H. split; [discriminate | intros; discriminate].
  - right. rewrite H. split; [discriminate | intros; discriminate].
Qed.

Lemma ends_number_digit (rest : string) :
  ends_number rest = true ->
  match rest with
  | String c _ => is_digit c = false
  | EmptyString => True
  end.
Proof.
  destruct rest as [|c r]; [trivial|]. unfold ends_number.
  intros H. apply andb_prop in H as [H _]. now apply negb_true_iff.
Qed.

Lemma ends_number_fraction (rest : string) :
  ends_number rest = true -> starts_fraction rest = false.
Proof.
  destruct rest as [|c r]; [reflexivity|]. unfold ends_number.
  intros H. apply andb_prop in H as [_ H]. now apply negb_true_iff.
Qed.

Lemma parse_nat_print (n : N) (rest : string) :
  ends_number rest = true ->
  parse_nat (NilZero.string_of_uint (N.to_uint n) ++ rest) = Some (n, rest).
Proof.
  intros Hrest. unfold parse_nat.
  assert (Hnil : N.to_uint n <> Decimal.Nil).
  { destruct (to_uint_head n) as [H|[H _]]; [rewrite H; discriminate | exact H]. }
  assert (Hs : NilZero.string_of_uint (N.to_uint n)
               = NilEmpty.string_of_uint (N.to_uint n)).
  { unfold NilZero.string_of_uint. destruct (N.to_uint n); congruence. }
  rewrite Hs, span_digits_app;
    [|apply uint_digits | now apply ends_number_digit].
  cbv beta iota.
  pose proof (NilZero.usu (N.to_uint n) Hnil) as Hus. rewrite Hs in Hus.
  pose proof (DecimalN.Unsigned.of_to n) as Hof.
  pose proof (ends_number_fraction _ Hrest) as Hfrac.
  destruct (to_uint_head n) as [H0|[_ Hhead]].
  - rewrite H0 in *. cbn [NilEmpty.string_of_uint] in *.
    rewrite Hus. cbn. rewrite Hfrac. cbn in Hof. now rewrite Hof.
  - destruct (N.to_uint n) eqn:E; try congruence;
      try (exfalso; now apply (Hhead u));
      cbn [NilEmpty.string_of_uint] in *;
      rewrite Hus, Hof, Hfrac; reflexivity.
Qed.

Lemma String_of_Z_head (n : Z) :
  exists c s, String_of_Z n = String c s /\ number_start c = true.
Proof.
  assert (Hd : forall m, exists c s,
               NilZero.string_of_uint (N.to_uint m) = String c s
               /\ is_digit c = true).
  { intros m. pose proof (uint_digits (N.to_uint m)) as Hall.
    unfold NilZero.string_of_uint.
    destruct (to_uint_head m) as [H0|[Hnil _]].
    - rewrite H0. do 2 eexists. split; reflexivity.
    - destruct (N.to_uint m) eqn:E; try congruence;
        cbn [NilEmpty.string_of_uint list_ascii_of_string] in *;
        do 2 eexists; (split; [reflexivity|]); reflexivity. }
  unfold String_of_Z. destruct n as [|p|p].
  - destruct (Hd (Z.to_N 0)) as (c & s & E & Hc). exists c, s.
    split; [assumption|]. unfold number_start. now rewrite Hc.
  - destruct (Hd (Z.to_N (Z.pos p))) as (c & s & E & Hc). exists c, s.
    split; [assumption|]. unfold number_start. now rewrite Hc.
  - do 2 eexists. split; reflexivity.
Qed.

Lemma parse_number_print (n : Z) (rest : string) :
  ends_number rest = true ->
  parse_number (String_of_Z n ++ rest) = Some (n, rest).
Proof.
  intros Hrest. unfold String_of_Z. destruct n as [|p|p].
  - change (Z.to_N 0) with 0%N.
    pose proof (parse_nat_print 0 rest Hrest) as H.
    destruct (String_of_Z_head 0) as (c & s & E & Hc).
    unfold String_of_Z in E. change (Z.to_N 0) with 0%N in E.
    rewrite E in *. cbn [append] in *. unfold parse_number.
    replace (code c =? 45)%N with false; [now rewrite H|].
    cbn in E. injection E as <- <-. reflexivity.
  - change (Z.to_N (Z.pos p)) with (N.pos p).
    pose proof (parse_nat_print (N.pos p) rest Hrest) as H.
    pose proof (uint_digits (N.to_uint (N.pos p))) as Hall.
    destruct (String_of_Z_head (Z.pos p)) as (c & s & E & Hc).
    unfold String_of_Z in E. change (Z.to_N (Z.pos p)) with (N.pos p) in E.
    assert (Hdig : is_digit c = true).
    { unfold NilZero.string_of_uint in E.
      destruct (N.to_uint (N.pos p)); cbn in E, Hall;
        injection E as <- <-; reflexivity. }
    rewrite E in *. cbn [append] in *. unfold parse_number.
    replace (code c =? 45)%N with false; [now rewrite H|].
    symmetry. unfold is_digit in Hdig.
    apply andb_prop in Hdig as [H1 _]. apply N.leb_le in H1.
    apply N.eqb_neq. lia.
  - cbn [append]. unfold parse_number. cbn [code N_of_ascii N.eqb].
    change (N_of_ascii "-" =? 45)%N with true. cbv iota.
    now rewrite (parse_nat_print (N.pos p) rest Hrest).
Qed.

(** ** String literals *)

(** Reading back one quoted character. *)
Lemma parse_chars_quote_char (c : ascii) (t : string) :
  parse_chars (quote_char c ++ t) = cons_to c (parse_chars t).
Proof.
  destruct c as [[] [] [] [] [] [] [] []]; reflexivity.
Qed.

Lemma parse_chars_print (s rest : string) :
  parse_chars (quote_body s ++ String dquote rest) = Some (s, rest).
Proof.
  induction s as [|c s IH]; cbn [quote_body].
  - reflexivity.
  - rewrite append_assoc, parse_chars_quote_char, IH. reflexivity.
Qed.

Lemma quote_append (s rest : string) :
  quote s ++ rest = String dquote (quote_body s ++ String dquote rest).
Proof.
  unfold quote. cbn [append]. now rewrite append_assoc.
Qed.

(** ** Values *)

(** Induction on values that reaches the elements of arrays and the
    members of objects. *)
Fixpoint json_rect' (P : json -> Prop)
         (Hnull : P JNull) (Hbool : forall b, P (JBool b))
         (Hnum : forall n, P (JNum n)) (Hstr : forall s, P (JStr s))
         (Harr : forall items, Forall P items -> P (JArr items))
         (Hobj : forall members,
             Forall (fun kv => P (snd kv)) members -> P (JObj members))
         (v : json) {struct v} : P v :=
  match v with
  | JNull => Hnull
  | JBool b => Hbool b
  | JNum n => Hnum n
  | JStr s => Hstr s
  | JArr items =>
      Harr items
           ((fix go (l : list json) : Forall P l :=
               match l with
               | [] => Forall_nil P
               | x :: r =>
                   Forall_cons x
                     (json_rect' P Hnull Hbool Hnum Hstr Harr Hobj x) (go r)
               end) items)
  | JObj members =>
      Hobj members
           ((fix go (l : list (string * json))
              : Forall (fun kv => P (snd kv)) l :=
               match l with
               | [] => Forall_nil _
               | kv :: r =>
                   Forall_cons kv
                     (json_rect' P Hnull Hbool Hnum Hstr Harr Hobj (snd kv))
                     (go r)
               end) members)
  end.

(** A number starts a value that is read by [parse_number]. *)
Lemma parse_value_number (c : ascii) (r : string) (f : nat) :
  number_start c = true ->
  parse_value (S f) (String c r)
  = match parse_number (String c r) with
    | Some (z, rest) => Some (JNum z, rest)
    | None => None
    end.
Proof.
  destruct c as [[] [] [] [] [] [] [] []]; intros H;
    try discriminate H; reflexivity.
Qed.

Lemma number_start_opens (c : ascii) :
  number_start c = true -> opens_value c = true.
Proof.
  destruct c as [[] [] [] [] [] [] [] []]; intros H;
    try discriminate H; reflexivity.
Qed.

Lemma stringify_head (v : json) :
  exists c s, stringify v = String c s /\ opens_value c = true.
Proof.
  destruct v as [|[]|n|s|items|members];
    try (do 2 eexists; split; reflexivity).
  destruct (String_of_Z_head n) as (c & s & E & Hc).
  exists c, s. split; [assumption | now apply number_start_opens].
Qed.

Lemma skip_ws_opens (c : ascii) (s : string) :
  opens_value c = true -> skip_ws (String c s) = String c s.
Proof.
  unfold opens_value. intros H.
  apply andb_prop in H as [H _]. apply andb_prop in H as [H _].
  apply negb_true_iff in H. cbn. now rewrite H.
Qed.

Lemma parse_elems_print (items : list json) :
  Forall reads_back items -> items <> [] ->
  forall (f : nat) (rest : string),
    (list_sum (map (fun x => S (weight x)) items) <= f)%nat ->
    parse_elems f (commas (map stringify items) ++ String "]" rest)
    = Some (items, rest).
Proof.
  induction 1 as [|x xs Hx Hxs IH]; intros Hne f rest Hf; [congruence|].
  cbn [map list_sum] in Hf.
  destruct f as [|f]; [cbn in Hf; lia|].
  cbn [parse_elems]. destruct xs as [|y ys].
  - cbn [map commas].
    rewrite (Hx f (String "]" rest)); [reflexivity | cbn in *; lia | reflexivity].
  - change (commas (map stringify (x :: y :: ys)))
      with (stringify x ++ "," ++ commas (map stringify (y :: ys))).
    rewrite !append_assoc.
    rewrite (Hx f); [|cbn in *; lia | reflexivity].
    cbn [append skip_ws is_ws code N_of_ascii N.eqb orb].
    change (skip_ws (String "," ?s)) with (String "," s).
    cbn.
    rewrite IH; [reflexivity | discriminate | cbn in *; lia].
Qed.

Lemma parse_members_print (members : list (string * json)) :
  Forall (fun kv => reads_back (snd kv)) members -> members <> [] ->
  forall (f : nat) (rest : string),
    (list_sum (map (fun kv => S (weight (snd kv))) members) <= f)%nat ->
    parse_members f (commas (map member members) ++ String "}" rest)
    = Some (members, rest).
Proof.
  induction 1 as [|[k v] ms Hv Hms IH]; intros Hne f rest Hf; [congruence|].
  cbn [map list_sum snd] in Hf.
  destruct f as [|f]; [cbn in Hf; lia|].
  cbn [parse_members]. cbn [snd] in Hv. destruct ms as [|m ms'].
  - cbn [map commas]. unfold member. cbn [fst snd].
    rewrite !append_assoc, quote_append.
    cbn [skip_ws is_ws code]. change (is_ws dquote) with false. cbv iota.
    change (negb (code dquote =? 34)%N) with false. cbv iota.
    rewrite parse_chars_print.
    cbn [append]. change (skip_ws (String ":" ?s)) with (String ":" s).
    cbv beta iota. change (negb (code ":" =? 58)%N) with false. cbv iota.
    rewrite (Hv f (String "}" rest));
      [reflexivity | cbn in Hf; lia | reflexivity].
  - change (commas (map member ((k, v) :: m :: ms')))
      with (member (k, v) ++ "," ++ commas (map member (m :: ms'))).
    unfold member at 1. cbn [fst snd].
    rewrite !append_assoc, quote_append.
    cbn [skip_ws is_ws code]. change (is_ws dquote) with false. cbv iota.
    change (negb (code dquote =? 34)%N) with false. cbv iota.
    rewrite parse_chars_print.
    cbn [append]. change (skip_ws (String ":" ?s)) with (String ":" s).
    cbv beta iota. change (negb (code ":" =? 58)%N) with false. cbv iota.
    rewrite (Hv f); [|cbn in Hf; lia | reflexivity].
    change (skip_ws (String "," ?s)) with (String "," s).
    cbv beta iota. change (code "," =? 44)%N with true. cbv iota.
    rewrite IH; [reflexivity | discriminate | cbn in *; lia].
Qed.

Lemma stringify_members (members : list (string * json)) :
  stringify (JObj members) = "{" ++ commas (map member members) ++ "}".
Proof. reflexivity. Qed.

(** Every printed value is read back, whatever follows it. *)
Lemma parse_value_print (v : json) : reads_back v.
Proof.
  induction v as [| b | n | s | items IH | members IH] using json_rect';
    intros f rest Hf Hrest; (destruct f as [|f]; [cbn in Hf; lia|]).
  - reflexivity.
  - destruct b; reflexivity.
  - cbn [stringify].
    destruct (String_of_Z_head n) as (c & s & E & Hc).
    pose proof (parse_number_print n rest Hrest) as Hn.
    rewrite E in *. cbn [append] in *.
    now rewrite (parse_value_number c _ f Hc), Hn.
  - cbn [stringify]. rewrite quote_append.
    cbn [parse_value skip_ws]. change (is_ws dquote) with false. cbv iota.
    change (code dquote =? 34)%N with true. cbv iota.
    now rewrite parse_chars_print.
  - cbn [stringify weight] in *. destruct items as [|x xs].
    + reflexivity.
    + rewrite !append_assoc. cbn [append].
      change (parse_value (S f) (String "[" ?r))
        with (match skip_ws r with
              | EmptyString => None
              | String c2 r2 =>
                  if (code c2 =? 93)%N then Some (JArr [], r2)
                  else match parse_elems f r with
                       | Some (vs, rest) => Some (JArr vs, rest)
                       | None => None
                       end
              end).
      rewrite parse_elems_print; [|assumption | discriminate | lia].
      destruct (stringify_head x) as (c & s & E & Hc).
      assert (Hs : exists t, commas (map stringify (x :: xs))
                             ++ String "]" rest = String c t).
      { cbn [map]. destruct (map stringify xs); cbn [commas];
          rewrite E; cbn [append]; eauto. }
      destruct Hs as [t ->]. rewrite (skip_ws_opens c t Hc).
      unfold opens_value in Hc.
      apply andb_prop in Hc as [Hc _]. apply andb_prop in Hc as [_ Hc].
      apply negb_true_iff in Hc. now rewrite Hc.
  - rewrite stringify_members. cbn [weight] in *.
    destruct members as [|m ms].
    + reflexivity.
    + rewrite !append_assoc. cbn [append].
      change (parse_value (S f) (String "{" ?r))
        with (match skip_ws r with
              | EmptyString => None
              | String c2 r2 =>
                  if (code c2 =? 125)%N then Some (JObj [], r2)
                  else match parse_members f r with
                       | Some (vs, rest) => Some (JObj vs, rest)
                       | None => None
                       end
              end).
      rewrite parse_members_print; [|assumption | discriminate | lia].
      assert (Hs : exists t, commas (map member (m :: ms))
                             ++ String "}" rest = String dquote t).
      { cbn [map]. destruct (map member ms); cbn [commas];
          unfold member; rewrite !append_assoc, quote_append; eauto. }
      destruct Hs as [t ->]. reflexivity.
Qed.

(** ** The fuel of [parse] is enough *)

Lemma weight_elems (sizes : list nat) (strings : list string) :
  Forall2 (fun w s => (w <= String.length s)%nat) sizes strings ->
  (list_sum (map S sizes) <= S (String.length (commas strings)))%nat.
Proof.
  induction 1 as [|w s ws ss Hw Hall IH].
  - cbn. lia.
  - change (list_sum (map S (w :: ws))) with (S w + list_sum (map S ws))%nat.
    destruct ss as [|s' ss'].
    + inversion Hall; subst. cbn. lia.
    + cbn [commas] in *. rewrite !length_append. cbn [String.length] in *.
      lia.
Qed.

Lemma weight_le_length (v : json) :
  (weight v <= String.length (stringify v))%nat.
Proof.
  induction v as [| b | n | s | items IH | members IH] using json_rect'.
  - cbn. lia.
  - destruct b; cbn; lia.
  - cbn [weight stringify].
    destruct (String_of_Z_head n) as (c & s & -> & _). cbn. lia.
  - cbn. lia.
  - cbn [weight stringify]. rewrite !length_append. cbn [String.length].
    rewrite <- map_map with (f := weight) (g := S).
    pose proof (weight_elems (map weight items) (map stringify items)) as H.
    assert (H2 : Forall2 (fun w s => (w <= String.length s)%nat)
                         (map weight items) (map stringify items)).
    { clear H. induction IH; cbn; constructor; assumption. }
    specialize (H H2). lia.
  - rewrite stringify_members. cbn [weight].
    rewrite !length_append. cbn [String.length].
    rewrite <- map_map with (f := fun kv => weight (snd kv)) (g := S).
    pose proof (weight_elems (map (fun kv => weight (snd kv)) members)
                             (map member members)) as H.
    assert (H2 : Forall2 (fun w s => (w <= String.length s)%nat)
                         (map (fun kv => weight (snd kv)) members)
                         (map member members)).
    { clear H. induction IH as [|[k v] ms Hv Hms IHms]; cbn [map];
        constructor; [|assumption].
      unfold member. cbn [fst snd] in *. rewrite !length_append. lia. }
    specialize (H H2). lia.
Qed.

(** [JSON.parse(JSON.stringify(v))] is [v]. *)
Lemma parse_stringify (v : json) : parse (stringify v) = Some v.
Proof.
  unfold parse.
  pose proof (parse_value_print v (S (String.length (stringify v)))
                EmptyString) as H.
  assert (E : stringify v ++ EmptyString = stringify v).
  { generalize (stringify v). intros s.
    induction s as [|c s IH]; cbn; [reflexivity | now rewrite IH]. }
  rewrite E in H. rewrite H; [reflexivity | | reflexivity].
  pose proof (weight_le_length v). lia.
Qed.
End JSONFacts.

(* ------------------------------------------------------------------ *)
Module SerializationFacts.
Import JSString JSON Noir NoirProofService JSONFacts.

Lemma Uint8_byte_val (b : byte) : Uint8 (byte_val b) = b.
Proof.
  unfold Uint8, byte_val.
  pose proof (Byte.to_N_bounded b) as Hb.
  rewrite Z.mod_small by lia. rewrite N2Z.id, Byte.of_to_N. reflexivity.
Qed.

Lemma bytes_read_back (bytes : list byte) :
  Uint8Array_of (Some (JArr (map (fun b => JNum (byte_val b)) bytes)))
  = Some bytes.
Proof.
  cbn [Uint8Array_of]. induction bytes as [|b bytes IH]; cbn [map traverse].
  - reflexivity.
  - now rewrite IH, Uint8_byte_val.
Qed.

Lemma strings_read_back (inputs : list string) :
  strings_of (Some (JArr (map JStr inputs))) = Some inputs.
Proof.
  cbn [strings_of]. induction inputs as [|s inputs IH]; cbn [map traverse].
  - reflexivity.
  - now rewrite IH.
Qed.

(** C8.  [deserializeProof (serializeProof p)] is [p]: the public
    inputs, the proof bytes (hence their number) and the [isRealProof]
    flag all come back as they were. *)
Theorem proof_serialization_round_trip (p : GeneratedProof) :
  deserializeProof (serializeProof p) = Some p /\
  (forall q, deserializeProof (serializeProof p) = Some q ->
             publicInputs q = publicInputs p /\
             proof q = proof p /\
             List.length (proof q) = List.length (proof p) /\
             isRealProof q = isRealProof p).
Proof.
  assert (H : deserializeProof (serializeProof p) = Some p).
  { unfold deserializeProof, serializeProof. rewrite parse_stringify.
    cbn [get lookup String.eqb Ascii.eqb Bool.eqb].
    rewrite bytes_read_back, strings_read_back. cbn [bool_or_false].
    now destruct p. }
  split; [exact H|].
  intros q Hq. rewrite H in Hq. injection Hq as <-. auto.
Qed.
End SerializationFacts.

(** ** Further properties of the code *)

(* ------------------------------------------------------------------ *)
Module FragmentFacts.
Import JS JSString Eff Sys PrivacyUtils Vocabulary JSFacts SplitFacts.
#[local] Open Scope Q_scope.

Lemma addToLast_length (d : Q) (l : list Q) :
  List.length (addToLast d l) = List.length l.
Proof.
  induction l as [|x [|y l] IH]; cbn in *; auto.
Qed.

Lemma conserve_length (total : Q) (splits : list Q) :
  List.length (conserve total splits) = List.length splits.
Proof. unfold conserve. now rewrite length_map, addToLast_length. Qed.

Lemma conserve_grid (total : Q) (splits : list Q) :
  Forall fourDecimals (conserve total splits).
Proof.
  unfold conserve. apply Forall_map, Forall_forall.
  intros x _. apply round4_fourDecimals.
Qed.

Lemma square_nonneg (r : Q) : 0 <= Math_pow2 r.
Proof. unfold Math_pow2. nra. Qed.

Lemma sum_nonneg (l : list Q) : Forall (fun x => 0 <= x) l -> 0 <= sum l.
Proof.
  induction 1 as [|x l Hx _ IH].
  - apply Qle_refl.
  - rewrite sum_cons. lra.
Qed.

Lemma shares_nonneg (total : Q) (weights : list Q) :
  0 <= total -> Forall (fun x => 0 <= x) weights ->
  Forall (fun x => 0 <= x)
         (map (fun w => w / sum weights * total) weights).
Proof.
  intros Htotal Hall. pose proof (sum_nonneg _ Hall) as Hsum.
  apply Forall_map. revert Hall. apply Forall_impl. intros x Hx.
  apply Qmult_le_0_compat; [|assumption].
  unfold Qdiv. apply Qmult_le_0_compat; [assumption|].
  now apply Qinv_le_0_compat.
Qed.

Lemma pickCents_floor (r : Q) : 0 <= r < 1 -> 3 <= pickCents r.
Proof.
  intros [H0 H1]. unfold pickCents.
  change (inject_Z (Z.of_nat (List.length cents))) with 12.
  assert (Hlo : (0 <= Math_floor (r * 12))%Z).
  { unfold Math_floor. rewrite <- (Qfloor_Z 0).
    apply Qfloor_resp_le. change (inject_Z 0) with 0. lra. }
  assert (Hhi : (Math_floor (r * 12) < 12)%Z).
  { unfold Math_floor. apply Z.lt_nge. intros Hge.
    pose proof (Qfloor_le (r * 12)) as Hf.
    assert (Hq : inject_Z 12 <= inject_Z (Qfloor (r * 12)))
      by now rewrite <- Zle_Qle.
    change (inject_Z 12) with 12 in Hq. lra. }
  set (k := Math_floor (r * 12)) in *. clearbody k.
  assert (Hk : (Z.to_nat k < 12)%nat) by lia.
  set (i := Z.to_nat k) in *. clearbody i.
  do 12 (destruct i as [|i]; [cbn; unfold Qle; cbn; lia|]).
  lia.
Qed.

(** The amount after noise: the truncated part is not negative and the
    offset is three ten-thousandths or more. *)
Lemma noisyAmount_floor (s r1 r2 : Q) :
  0 <= s -> 0 <= r1 -> 0 <= r2 < 1 -> 0.0003 <= noisyAmount s r1 r2.
Proof.
  intros Hs Hr1 Hr2. unfold noisyAmount. cbv zeta.
  pose proof (pickCents_floor r2 Hr2) as Hc.
  assert (Hf : (0 <= Math_floor ((s + (r1 - 0.5) * 0.1 * s) * 100))%Z).
  { unfold Math_floor. rewrite <- (Qfloor_Z 0).
    apply Qfloor_resp_le. change (inject_Z 0) with 0.
    assert (H : 0 <= s * r1) by now apply Qmult_le_0_compat.
    nra. }
  assert (Hq : 0 <= inject_Z (Math_floor ((s + (r1 - 0.5) * 0.1 * s) * 100))).
  { change 0 with (inject_Z 0). now rewrite <- Zle_Qle. }
  set (f := inject_Z _) in *. clearbody f.
  set (c := pickCents r2) in *. clearbody c.
  unfold Qdiv. change (/ 100) with (1 # 100). change (/ 10000) with (1 # 10000).
  lra.
Qed.

Section Deterministic.

Context {platform : Platform}.

Lemma seededRandom_range (s : Z) : 0 <= seededRandom s < 1.
Proof.
  unfold seededRandom, Math_floor. cbv zeta.
  set (x := Math_sin (inject_Z s) * 10000).
  pose proof (Qfloor_le x) as Hlo. pose proof (Qlt_floor x) as Hhi.
  rewrite inject_Z_plus in Hhi. change (inject_Z 1) with 1 in Hhi.
  set (f := inject_Z (Qfloor x)) in *. clearbody f.
  split; lra.
Qed.

Lemma detWeights_nonneg (n : nat) :
  forall (seedVal : Z) (weights : list Q),
    Forall (fun x => 0 <= x) weights ->
    Forall (fun x => 0 <= x) (fst (detWeights n seedVal weights)).
Proof.
  induction n as [|n IH]; intros seedVal weights Hall; cbn.
  - assumption.
  - apply IH. apply Forall_app. split; [assumption|].
    constructor; [|constructor].
    pose proof (square_nonneg (seededRandom (seedVal + 1))). lra.
Qed.

Lemma detNoise_floor (splits : list Q) :
  forall seedVal : Z,
    Forall (fun x => 0 <= x) splits ->
    Forall (fun x => 0.0003 <= x) (fst (detNoise splits seedVal)).
Proof.
  induction splits as [|s r IH]; intros seedVal Hall; cbn.
  - constructor.
  - inversion Hall as [|? ? Hs Hr]; subst.
    specialize (IH (seedVal + 1 + 1)%Z Hr).
    destruct (detNoise r (seedVal + 1 + 1)) as [rest sv]. cbn in *.
    constructor; [|assumption].
    apply noisyAmount_floor;
      [assumption | apply seededRandom_range | apply seededRandom_range].
Qed.

Lemma seededSplits_floor (total : Q) (splitCount seed : Z) :
  0 <= total ->
  Forall (fun x => 0.0003 <= x) (seededSplits total splitCount seed).
Proof.
  intros Htotal. unfold seededSplits.
  pose proof (detWeights_nonneg (Z.to_nat splitCount) seed []
                (Forall_nil _)) as Hw.
  destruct (detWeights (Z.to_nat splitCount) seed []) as [weights sv].
  cbn in Hw. apply detNoise_floor. now apply shares_nonneg.
Qed.

End Deterministic.

Lemma pushWeights_nonneg (n : nat) :
  forall (weights ws : list Q) (w w' : World),
    pushWeights n weights w = Returns ws w' ->
    Forall (fun x => 0 <= x) weights -> Forall (fun x => 0 <= x) ws.
Proof.
  induction n as [|n IH]; intros weights ws w w' H Hall; cbn in H.
  - injection H as <- _. assumption.
  - unfold bind, Math_random in H. apply IH in H; [assumption|].
    apply Forall_app. split; [assumption|].
    constructor; [|constructor].
    pose proof (square_nonneg (random_draws w (random_calls w))). lra.
Qed.

Lemma addNoise_floor (splits : list Q) :
  forall (i : Z) (l : list Q) (w w' : World),
    mapi_from addNoise i splits w = Returns l w' ->
    random_in_range w ->
    Forall (fun x => 0 <= x) splits -> Forall (fun x => 0.0003 <= x) l.
Proof.
  induction splits as [|s r IH]; intros i l w w' H Hrange Hall;
    cbn [mapi_from] in H.
  - injection H as <- _. constructor.
  - inversion Hall as [|? ? Hs Hr]; subst.
    unfold bind at 1 in H. unfold addNoise at 1 in H.
    unfold bind, Math_random, ret in H.
    cbn [random_draws random_calls clock clock_reads range_api range_calls
         noirInitialized circuits backend_prove backend_verify] in H.
    match type of H with
    | context [mapi_from addNoise ?j ?t ?W] =>
        destruct (mapi_from addNoise j t W) as [ys W'|e W'] eqn:E
    end; [|discriminate].
    injection H as <- _.
    constructor.
    + apply noisyAmount_floor; [assumption | apply Hrange | apply Hrange].
    + eapply IH; [exact E | | assumption].
      intros k. apply Hrange.
Qed.

Lemma Forall_removelast {A : Type} (P : A -> Prop) (l : list A) :
  Forall P l -> Forall P (removelast l).
Proof.
  intros H. destruct l as [|x l]; [constructor|].
  destruct (exists_last (l := x :: l) ltac:(discriminate)) as (init & y & E).
  rewrite E in *. rewrite removelast_last.
  now apply Forall_app in H as [H _].
Qed.

Lemma floor_Qlist_eq (bound : Q) (l l' : list Q) :
  Qlist_eq l l' ->
  Forall (fun x => bound <= x) l' -> Forall (fun x => bound <= x) l.
Proof.
  induction 1 as [|x y l l' Hxy _ IH]; intros Hall.
  - constructor.
  - inversion Hall; subst. constructor; [|auto]. now rewrite Hxy.
Qed.

(** What [conserve] keeps of a lower bound on the fragments. *)
Lemma conserve_floor (bound total : Q) (splits : list Q) :
  Forall fourDecimals splits ->
  Forall (fun x => bound <= x) splits ->
  Forall (fun x => bound <= x) (removelast (conserve total splits)).
Proof.
  intros Hgrid Hall.
  destruct splits as [|s r]; [constructor|].
  destruct (conserve_spec total (s :: r) ltac:(discriminate) Hgrid)
    as [(_ & _ & Heq & _) _].
  eapply floor_Qlist_eq; [exact Heq|]. now apply Forall_removelast.
Qed.

(** The number of fragments does not exceed the upper bound. *)
Lemma count_at_most (lo hi : Z) (r : Q) :
  (lo <= hi)%Z -> 0 <= r < 1 ->
  (lo + Math_floor (r * inject_Z (hi - lo + 1)) <= hi)%Z.
Proof.
  intros Hb Hr.
  assert (Hw : 0 < inject_Z (hi - lo + 1)).
  { change 0 with (inject_Z 0). rewrite <- Zlt_Qlt. lia. }
  assert (H1 : (Math_floor (r * inject_Z (hi - lo + 1)) < hi - lo + 1)%Z).
  { unfold Math_floor. apply Z.lt_nge. intros Hge.
    pose proof (Qfloor_le (r * inject_Z (hi - lo + 1))) as Hf.
    rewrite Zle_Qle in Hge.
    assert (Hlt : r * inject_Z (hi - lo + 1) < inject_Z (hi - lo + 1)).
    { rewrite <- (Qmult_1_l (inject_Z (hi - lo + 1))) at 2.
      apply Qmult_lt_compat_r; [assumption | apply Hr]. }
    set (a := inject_Z (hi - lo + 1)) in *. clearbody a.
    set (b := inject_Z (Qfloor (r * a))) in *. clearbody b.
    lra. }
  lia.
Qed.

Section Randomized.

(** The fragments before the total is restored, with their number and
    the draws that were used: one for the number, one for each weight
    and two for each noise. *)
Lemma randomSplits_shape (total : Q) (minSplits maxSplits : option Z)
      (w : World) :
  random_in_range w -> validBounds minSplits maxSplits -> 0 <= total ->
  exists splits,
    randomSplits total minSplits maxSplits w
    = Returns splits (drawn w (1 + 3 * List.length splits)) /\
    (fst (effectiveBounds total minSplits maxSplits)
     <= Z.of_nat (List.length splits)
     <= snd (effectiveBounds total minSplits maxSplits))%Z /\
    Forall fourDecimals splits /\
    Forall (fun x => 0.0003 <= x) splits.
Proof.
  intros Hrange Hvalid Htotal.
  enough (H : exists splits,
             randomSplits total minSplits maxSplits (drawn w 0)
             = Returns splits (drawn w (1 + 3 * List.length splits)) /\
             (fst (effectiveBounds total minSplits maxSplits)
              <= Z.of_nat (List.length splits)
              <= snd (effectiveBounds total minSplits maxSplits))%Z /\
             Forall fourDecimals splits /\
             Forall (fun x => 0.0003 <= x) splits)
    by now rewrite drawn_0 in H.
  unfold randomSplits, effectiveBounds.
  assert (Hb : let (lo, hi) :=
                 match minSplits, maxSplits with
                 | Some lo, Some hi => (lo, hi)
                 | _, _ => band total
                 end in (1 <= lo <= hi)%Z).
  { unfold validBounds in Hvalid.
    destruct minSplits as [lo|]; [destruct maxSplits as [hi|]|];
      try apply band_valid. exact Hvalid. }
  destruct (match minSplits, maxSplits with
            | Some lo, Some hi => (lo, hi)
            | _, _ => band total
            end) as [lo hi].
  cbn [fst snd].
  unfold bind at 1. rewrite Math_random_drawn. cbn [Nat.add].
  set (r := random_draws w (random_calls w)).
  assert (Hr : 0 <= r < 1) by apply Hrange.
  assert (Hcount : (lo <= lo + Math_floor (r * inject_Z (hi - lo + 1)) <= hi)%Z).
  { assert (Hw : 0 < inject_Z (hi - lo + 1)).
    { change 0 with (inject_Z 0). rewrite <- Zlt_Qlt. lia. }
    assert (H0 : (0 <= Math_floor (r * inject_Z (hi - lo + 1)))%Z).
    { unfold Math_floor. rewrite <- (Qfloor_Z 0).
      apply Qfloor_resp_le. apply Qmult_le_0_compat; [apply Hr|].
      now apply Qlt_le_weak. }
    assert (H1 : (Math_floor (r * inject_Z (hi - lo + 1)) < hi - lo + 1)%Z).
    { unfold Math_floor. apply Z.lt_nge. intros Hge.
      pose proof (Qfloor_le (r * inject_Z (hi - lo + 1))) as Hf.
      rewrite Zle_Qle in Hge.
      assert (Hlt : r * inject_Z (hi - lo + 1) < inject_Z (hi - lo + 1)).
      { rewrite <- (Qmult_1_l (inject_Z (hi - lo + 1))) at 2.
        apply Qmult_lt_compat_r; [assumption | apply Hr]. }
      set (a := inject_Z (hi - lo + 1)) in *. clearbody a.
      set (b := inject_Z (Qfloor (r * a))) in *. clearbody b.
      lra. }
    lia. }
  set (n := (lo + Math_floor (r * inject_Z (hi - lo + 1)))%Z) in *.
  destruct (pushWeights_spec (Z.to_nat n) [] w 1) as (ws & Hws & Hlen).
  unfold bind at 1. rewrite Hws.
  destruct (addNoise_map_spec
              (map (fun x => x / sum ws * total) ws) 0%Z w
              (Z.to_nat n + 1))
    as (l & Hl & Hlen' & Hgrid).
  rewrite length_map, Hlen in Hlen'. cbn [List.length] in Hlen'.
  exists l. split; [|split; [|split]].
  - rewrite Hl. f_equal. f_equal. rewrite length_map, Hlen, Hlen'.
    cbn [List.length]. lia.
  - rewrite Hlen'. lia.
  - assumption.
  - eapply addNoise_floor; [exact Hl | |].
    + intros k. apply Hrange.
    + apply shares_nonneg; [assumption|].
      eapply pushWeights_nonneg; [exact Hws | constructor].
Qed.

End Randomized.

Lemma withDraws_in_range (draws : list Q) (w : World) :
  Forall (fun r => 0 <= r < 1) draws -> random_in_range (withDraws draws w).
Proof.
  intros Hall k. unfold withDraws. cbn [random_draws].
  destruct (nth_in_or_default k draws 0) as [Hin| ->].
  - exact (proj1 (Forall_forall _ _) Hall _ Hin).
  - split; [apply Qle_refl | reflexivity].
Qed.

(** X1.  [splitAmountDeterministic] returns as many fragments as were
    asked for, none when the count is not positive, and one fragment,
    whatever the count, when the total is below 0.1. *)
Theorem deterministic_fragment_count {platform : Platform}
        (total : Q) (splitCount : Z) (seed : option Z) :
  List.length (splitAmountDeterministic total splitCount seed)
  = if Qltb total 0.1 then 1%nat else Z.to_nat splitCount.
Proof.
  unfold splitAmountDeterministic.
  destruct (Qltb total 0.1); [reflexivity|].
  rewrite conserve_length.
  apply seededSplits_spec.
Qed.

(** X2.  For a total of at least 0.1 and draws of [0,1), the number of
    fragments of [splitAmount] lies within the bounds in force, the
    pinned ones or the band of the amount, and the call uses one draw
    and three more for each fragment. *)
Theorem randomized_fragment_count
        (total : Q) (minSplits maxSplits : option Z) (w : World) :
  random_in_range w -> validBounds minSplits maxSplits -> 0.1 <= total ->
  exists fragments,
    splitAmount total minSplits maxSplits w
    = Returns fragments (drawn w (1 + 3 * List.length fragments)) /\
    (fst (effectiveBounds total minSplits maxSplits)
     <= Z.of_nat (List.length fragments)
     <= snd (effectiveBounds total minSplits maxSplits))%Z.
Proof.
  intros Hrange Hvalid Htotal.
  destruct (randomSplits_shape total minSplits maxSplits w Hrange Hvalid)
    as (splits & Hret & Hcount & _).
  { lra. }
  exists (conserve total splits). rewrite conserve_length. split.
  - unfold splitAmount. rewrite (not_below_floor _ Htotal).
    unfold bind. rewrite Hret. reflexivity.
  - assumption.
Qed.

(** 7.5 in the offline world: from three to five fragments. *)
Lemma randomized_fragment_count_witness :
  exists fragments w',
    splitAmount 7.5 None None Examples.offline = Returns fragments w' /\
    (3 <= Z.of_nat (List.length fragments) <= 5)%Z.
Proof.
  destruct (randomized_fragment_count 7.5 None None Examples.offline
              offline_in_range I ltac:(discriminate))
    as (fragments & Hret & Hcount).
  exists fragments, (drawn Examples.offline (1 + 3 * List.length fragments)).
  split; [exact Hret | exact Hcount].
Defined.

(** X3.  For a total of at least 0.1 every fragment of both splitters
    is a multiple of 0.0001, and every fragment but the last is at
    least 0.0003. *)
Theorem fragments_on_grid_above_floor {platform : Platform} (total : Q) :
  0.1 <= total ->
  (forall (splitCount : Z) (seed : option Z),
      let fragments := splitAmountDeterministic total splitCount seed in
      Forall fourDecimals fragments /\
      Forall (fun x => 0.0003 <= x) (removelast fragments)) /\
  (forall (minSplits maxSplits : option Z) (w : World),
      random_in_range w -> validBounds minSplits maxSplits ->
      exists fragments w',
        splitAmount total minSplits maxSplits w = Returns fragments w' /\
        Forall fourDecimals fragments /\
        Forall (fun x => 0.0003 <= x) (removelast fragments)).
Proof.
  intros Htotal. assert (H0 : 0 <= total) by lra. split.
  - intros splitCount seed. cbv zeta.
    unfold splitAmountDeterministic. rewrite (not_below_floor _ Htotal).
    split; [apply conserve_grid|].
    apply conserve_floor.
    + apply seededSplits_spec.
    + now apply seededSplits_floor.
  - intros minSplits maxSplits w Hrange Hvalid.
    destruct (randomSplits_shape total minSplits maxSplits w Hrange Hvalid H0)
      as (splits & Hret & _ & Hgrid & Hfloor).
    exists (conserve total splits). eexists. split; [|split].
    + unfold splitAmount. rewrite (not_below_floor _ Htotal).
      unfold bind. rewrite Hret. reflexivity.
    + apply conserve_grid.
    + now apply conserve_floor.
Qed.

(** Ten in seven seeded fragments. *)
Lemma fragments_on_grid_above_floor_witness :
  Forall fourDecimals
         (splitAmountDeterministic (platform := Examples.platform)
            10 7 None) /\
  Forall (fun x => 0.0003 <= x)
         (removelast (splitAmountDeterministic (platform := Examples.platform)
                        10 7 None)).
Proof.
  destruct (fragments_on_grid_above_floor (platform := Examples.platform) 10
              ltac:(discriminate)) as [Hdet _].
  exact (Hdet 7%Z None).
Defined.

(** X4.  Pinned bounds that are not positive lose the amount: for a
    total of at least 0.1 and [minSplits <= maxSplits <= 0],
    [splitAmount] uses one draw and returns no fragment at all. *)
Theorem nonpositive_bounds_drop_amount
        (total : Q) (minSplits maxSplits : Z) (w : World) :
  random_in_range w -> (minSplits <= maxSplits <= 0)%Z -> 0.1 <= total ->
  splitAmount total (Some minSplits) (Some maxSplits) w
  = Returns [] (drawn w 1).
Proof.
  intros Hrange Hbounds Htotal.
  unfold splitAmount. rewrite (not_below_floor _ Htotal).
  unfold randomSplits, bind at 1 2. unfold Math_random at 1.
  set (r := random_draws w (random_calls w)).
  assert (Hr : 0 <= r < 1) by apply Hrange.
  pose proof (count_at_most minSplits maxSplits r ltac:(lia) Hr) as Hcount.
  set (n := (minSplits + Math_floor (r * inject_Z (maxSplits - minSplits + 1)))%Z)
    in *.
  replace (Z.to_nat n) with 0%nat by lia.
  reflexivity.
Qed.

(** Bounds pinned to zero in the offline world. *)
Lemma nonpositive_bounds_drop_amount_witness :
  (0 <= 0 <= 0)%Z /\
  splitAmount 7.5 (Some 0%Z) (Some 0%Z) Examples.offline
  = Returns [] (drawn Examples.offline 1).
Proof.
  split; [lia|].
  apply (nonpositive_bounds_drop_amount 7.5 0 0 Examples.offline
           offline_in_range); [lia | discriminate].
Defined.

(** X5.  The bound of X3 does not hold for the last fragment: there
    are draws of [0,1) for which [splitAmount] returns a negative last
    fragment. *)
Theorem last_fragment_can_be_negative :
  random_in_range (Samples.adverse) /\
  match splitAmount 0.1 None None (Samples.adverse)
  with
  | Returns fragments _ =>
      List.length fragments = 3%nat /\ last fragments 0 == - 0.0182
  | Throws _ _ => False
  end.
Proof.
  split.
  - apply withDraws_in_range. unfold Samples.adverseDraws.
    repeat constructor; discriminate.
  - vm_compute. split; reflexivity.
Qed.

End FragmentFacts.

(* ------------------------------------------------------------------ *)
Module DerivationFacts.
Import JSString PrivacyUtils Vocabulary DeriveFacts.
#[local] Open Scope Z_scope.

(** The first loop computes the residue of the number that the bytes
    spell. *)
Lemma hashBytes_bigEndian (l : list byte) :
  hashBytes l = bigEndian l mod ED25519_CURVE_ORDER.
Proof.
  rewrite <- (Z.mod_small (hashBytes l) ED25519_CURVE_ORDER)
    by apply hashBytes_range.
  unfold hashBytes, hashStep, bigEndian.
  now apply (fold_mod ED25519_CURVE_ORDER order_large).
Qed.

Lemma indexBytes_wraps (index k : Z) :
  indexBytes (index + k * 2 ^ 32) = indexBytes index.
Proof. unfold indexBytes. now rewrite Z_mod_plus_full. Qed.

Lemma derivedSeed_congruent (seed seed' : list byte) (index : Z) :
  bigEndian seed mod ED25519_CURVE_ORDER
  = bigEndian seed' mod ED25519_CURVE_ORDER ->
  derivedSeed seed index = derivedSeed seed' index.
Proof.
  intros H. unfold derivedSeed. f_equal.
  unfold hashBytes, combined. rewrite !fold_left_app.
  fold (hashBytes seed). fold (hashBytes seed').
  now rewrite !hashBytes_bigEndian, H.
Qed.

Section Keys.

Context {platform : Platform}.

(** X6.  The index is taken modulo 2^32: indices that differ by a
    multiple of 2^32 give the same key pair and the same address. *)
Theorem derivation_index_wraps (seed : list byte) (index k : Z) :
  deriveKeypair seed (index + k * 2 ^ 32) = deriveKeypair seed index /\
  deriveAddress seed (index + k * 2 ^ 32) = deriveAddress seed index.
Proof.
  unfold deriveAddress, deriveKeypair, derivedSeed, combined.
  rewrite indexBytes_wraps. split; reflexivity.
Qed.

(** X7.  The derivation reads the seed as a number, most significant
    byte first, modulo the constant [ED25519_CURVE_ORDER]: seeds with
    the same residue give the same key pairs and addresses at every
    index. *)
Theorem derivation_reads_seed_modulo_order
        (seed seed' : list byte) (index : Z) :
  bigEndian seed mod ED25519_CURVE_ORDER
  = bigEndian seed' mod ED25519_CURVE_ORDER ->
  deriveKeypair seed index = deriveKeypair seed' index /\
  deriveAddress seed index = deriveAddress seed' index.
Proof.
  intros H. unfold deriveAddress, deriveKeypair.
  rewrite (derivedSeed_congruent seed seed' index H). split; reflexivity.
Qed.

End Keys.

(** Two different seeds of 32 bytes with the same key pairs. *)
Lemma derivation_reads_seed_modulo_order_witness :
  Samples.zeroSeed <> Samples.orderSeed /\
  List.length Samples.zeroSeed = List.length Samples.orderSeed /\
  deriveKeypair (platform := Examples.platform) Samples.zeroSeed 7
  = deriveKeypair (platform := Examples.platform) Samples.orderSeed 7.
Proof.
  split; [discriminate|]. split; [reflexivity|].
  apply (derivation_reads_seed_modulo_order (platform := Examples.platform)
           Samples.zeroSeed Samples.orderSeed 7).
  vm_compute. reflexivity.
Defined.

End DerivationFacts.

(* ------------------------------------------------------------------ *)
Module ScheduleFacts.
Import JS JSString Eff Sys Page Vocabulary JSFacts PageFacts.
#[local] Open Scope Q_scope.

(** Cursors that do not decrease and times within half an hour of
    their cursors: a time is at most an hour after the next one. *)
Lemma trace_withinAnHour (trace : list (ScheduledWithdrawal * Z)) :
  forall start : Z,
    nondecreasing (start :: map snd trace) ->
    Forall (fun e => Qabs (scheduledTime (fst e) - inject_Z (snd e))
                     <= halfHourMs) trace ->
    withinAnHour (map (fun e => scheduledTime (fst e)) trace).
Proof.
  induction trace as [|[wd c] trace IH]; intros start Hmono Hall.
  - exact I.
  - inversion Hall as [|? ? Hnear Hrest]; subst.
    destruct trace as [|[wd' c'] trace'].
    + exact I.
    + cbn [map fst snd] in *. destruct Hmono as [_ Hmono].
      split.
      * destruct Hmono as [Hcc _].
        inversion Hrest as [|? ? Hnear' _]; subst. cbn [fst snd] in *.
        apply Qabs_Qle_condition in Hnear as [_ Hhi].
        apply Qabs_Qle_condition in Hnear' as [Hlo _].
        rewrite Zle_Qle in Hcc. unfold halfHourMs in *.
        set (a := inject_Z c) in *. set (b := inject_Z c') in *.
        clearbody a b. lra.
      * apply (IH c); assumption.
Qed.

(** X8.  [scheduleWithdrawals] returns one withdrawal for each fragment;
    the scheduled times need not increase, but each is at most one hour
    after the next one. *)
Theorem schedule_inversions_bounded {platform : Platform}
        (splits : list Q) (baseAddress : string) (seed : list byte)
        (w : World) :
  (forall x : Q, 0 < x <= 1 -> Math_log x <= 0) ->
  random_in_range w ->
  exists withdrawals w',
    scheduleWithdrawals splits baseAddress seed w = Returns withdrawals w' /\
    List.length withdrawals = List.length splits /\
    withinAnHour (map scheduledTime withdrawals).
Proof.
  intros Hlog Hrange.
  set (w1 := mkWorld (random_draws w) (random_calls w)
                     (clock w) (S (clock_reads w))
                     (range_api w) (range_calls w)
                     (noirInitialized w) (circuits w)
                     (backend_prove w) (backend_verify w)).
  set (now := clock w (clock_reads w)).
  destruct (schedule_map_spec Hlog seed splits 0%Z
              (mkCursor (now + minAgingMs) w1) Hrange)
    as (trace & st' & Hmap & Hlen & Hmono & Hall & _).
  exists (map fst trace), (world st'). split; [|split].
  - unfold scheduleWithdrawals, bind, scheduleTrace, Date_now.
    fold w1. fold now. now rewrite Hmap.
  - now rewrite length_map.
  - rewrite map_map. apply (trace_withinAnHour trace (now + minAgingMs)).
    + exact Hmono.
    + eapply Forall_impl; [|exact Hall]. intros e [_ H]. exact H.
Qed.

(** Two fragments scheduled in the offline world. *)
Lemma schedule_inversions_bounded_witness :
  exists withdrawals w',
    scheduleWithdrawals (platform := Examples.platform)
                        [1.5; 2.5] "base" Examples.seed42 Examples.offline
    = Returns withdrawals w' /\
    withinAnHour (map scheduledTime withdrawals).
Proof.
  destruct (schedule_inversions_bounded (platform := Examples.platform)
              [1.5; 2.5] "base" Examples.seed42 Examples.offline
              example_log SplitFacts.offline_in_range)
    as (withdrawals & w' & Hret & _ & Hhour).
  exists withdrawals, w'. split; assumption.
Defined.

(** X9.  The scheduled times are not always in the order of the
    fragments: with a logarithm that is not positive on (0,1] and draws
    of [0,1), the second withdrawal can be scheduled before the first. *)
Theorem schedule_can_invert :
  (forall x : Q, 0 < x <= 1 ->
                 Math_log (Platform := Examples.platform) x <= 0) /\
  random_in_range Samples.inverting /\
  match scheduleWithdrawals (platform := Examples.platform)
          [1; 2] "base" Examples.seed42 Samples.inverting with
  | Returns [first; second] _ => scheduledTime second < scheduledTime first
  | _ => False
  end.
Proof.
  split; [exact example_log|]. split.
  - apply FragmentFacts.withDraws_in_range. repeat constructor; discriminate.
  - vm_compute. reflexivity.
Qed.

End ScheduleFacts.

(* ------------------------------------------------------------------ *)
Module GatewayFacts.
Import Eff Sys Range RangeClient RangeBatch.
#[local] Open Scope Z_scope.

(** ** The mock client *)

(** X10.  A response recorded in a [MockRangeClient] is the one returned
    for its address, without any request and whatever was recorded for
    that address before; the answers for the other addresses stay as
    they were. *)
Theorem mock_response_round_trip (client : RangeClient.RangeClient)
        (address other : string) (response : RiskScoreResponse) (w : World) :
  mockResponses client <> None ->
  getAddressRiskScore (setMockResponse client address response) address w
  = Returns response w /\
  (other <> address ->
   getAddressRiskScore (setMockResponse client address response) other w
   = getAddressRiskScore client other w).
Proof.
  intros Hmock. unfold setMockResponse, getAddressRiskScore.
  destruct (mockResponses client) as [m|]; [|contradiction].
  cbn [mockResponses Map_get]. split.
  - now rewrite String.eqb_refl.
  - intros Hne. apply not_eq_sym in Hne.
    apply String.eqb_neq in Hne. now rewrite Hne.
Qed.

(** The response recorded last is the one returned. *)
Lemma mock_response_round_trip_witness :
  mockResponses Examples.mockClient <> None /\
  getAddressRiskScore
    (setMockResponse Examples.mockClient "HighRiskAddress"
                     Examples.sanctionedResponse)
    "HighRiskAddress" Examples.offline
  = Returns Examples.sanctionedResponse Examples.offline.
Proof.
  split; [discriminate|].
  apply (mock_response_round_trip Examples.mockClient "HighRiskAddress"
           "Other" Examples.sanctionedResponse Examples.offline).
  discriminate.
Defined.

(** ** The HTTP client *)

(** X11.  [checkCompliance] of a client that is not a mock sends two
    requests.  An error of either request is thrown to the caller, and
    no verdict is returned.  With two answers, score, level, reasoning
    and raw response are those of the first answer and the sanction
    flag is read off the second. *)
Theorem compliance_check_fails_closed (client : RangeClient.RangeClient)
        (address : string) (w : World) :
  mockResponses client = None ->
  (forall e,
      range_api w (range_calls w) address = inl e ->
      exists w', checkCompliance client address w = Throws e w' /\
                 range_calls w' = S (range_calls w)) /\
  (forall first e,
      range_api w (range_calls w) address = inr first ->
      range_api w (S (range_calls w)) address = inl e ->
      exists w', checkCompliance client address w = Throws e w' /\
                 range_calls w' = S (S (range_calls w))) /\
  (forall first second,
      range_api w (range_calls w) address = inr first ->
      range_api w (S (range_calls w)) address = inr second ->
      exists result w',
        checkCompliance client address w = Returns result w' /\
        range_calls w' = S (S (range_calls w)) /\
        Check.rawResponse result = first /\
        Check.riskScore result = riskScore first /\
        Check.riskLevel result = riskLevel first /\
        Check.reasoning result = reasoning first /\
        Check.isSanctioned result = sanctioned second /\
        Check.isCompliant result
        = (riskScore first <=? maxRiskThreshold client)
          && negb (sanctioned second)).
Proof.
  intros Hhttp.
  unfold checkCompliance, checkSanctions, getAddressRiskScore.
  rewrite Hhttp. unfold bind, http_get_risk.
  cbn [range_api range_calls]. split; [|split].
  - intros e ->. eexists. split; reflexivity.
  - intros first e H1 H2. rewrite H1. cbn [range_api range_calls].
    rewrite H2. eexists. split; reflexivity.
  - intros first second H1 H2. rewrite H1. cbn [range_api range_calls].
    rewrite H2. do 2 eexists.
    split; [reflexivity|]. cbn. auto 10.
Qed.

(** Without network the check throws the error of the first request. *)
Lemma compliance_check_fails_closed_witness :
  exists w',
    checkCompliance (new_RangeClient None) "Wallet" Examples.offline
    = Throws "Network Error"%string w' /\
    range_calls w' = 1%nat.
Proof.
  apply (proj1 (compliance_check_fails_closed
                  (new_RangeClient None) "Wallet" Examples.offline
                  eq_refl)).
  reflexivity.
Defined.

(** ** The map of [batchCheckCompliance] *)

Section MapFacts.

Variable V : Type.

Lemma get_set (m : JSMap.t V) (key key' : string) (value : V) :
  JSMap.get (JSMap.set m key value) key'
  = if String.eqb key key' then Some value else JSMap.get m key'.
Proof.
  induction m as [|[k v] m IH]; cbn.
  - reflexivity.
  - destruct (String.eqb_spec k key) as [->|Hk]; cbn.
    + destruct (String.eqb key key'); reflexivity.
    + rewrite IH.
      destruct (String.eqb_spec k key') as [->|Hk'].
      * apply String.eqb_neq in Hk. rewrite String.eqb_sym in Hk.
        now rewrite Hk.
      * reflexivity.
Qed.

Lemma keys_set (m : JSMap.t V) (key : string) (value : V) :
  (In key (JSMap.keys m) ->
   JSMap.keys (JSMap.set m key value) = JSMap.keys m) /\
  (~ In key (JSMap.keys m) ->
   JSMap.keys (JSMap.set m key value) = JSMap.keys m ++ [key]).
Proof.
  unfold JSMap.keys.
  induction m as [|[k v] m [IHin IHout]]; cbn.
  - split; [contradiction | reflexivity].
  - destruct (String.eqb_spec k key) as [->|Hk]; cbn.
    + split; [reflexivity | intros H; exfalso; auto].
    + split.
      * intros [E|Hin]; [contradiction|]. now rewrite IHin.
      * intros Hout. rewrite IHout; auto.
Qed.

(** Setting keeps the keys distinct and adds the key at most. *)
Lemma set_NoDup (m : JSMap.t V) (key : string) (value : V) :
  NoDup (JSMap.keys m) -> NoDup (JSMap.keys (JSMap.set m key value)).
Proof.
  intros Hnd. destruct (in_dec string_dec key (JSMap.keys m)) as [Hin|Hout].
  - now rewrite (proj1 (keys_set m key value) Hin).
  - rewrite (proj2 (keys_set m key value) Hout).
    apply NoDup_app; [assumption | repeat constructor; auto|].
    intros a Ha [<-|[]]. contradiction.
  Qed.

Lemma set_keys_In (m : JSMap.t V) (key : string) (value : V) (a : string) :
  In a (JSMap.keys (JSMap.set m key value)) <->
  In a (JSMap.keys m) \/ a = key.
Proof.
  destruct (in_dec string_dec key (JSMap.keys m)) as [Hin|Hout].
  - rewrite (proj1 (keys_set m key value) Hin).
    split; [auto | intros [H| ->]; assumption].
  - rewrite (proj2 (keys_set m key value) Hout), in_app_iff. cbn.
    split; intros [H|H]; auto; destruct H as [<-|[]]; auto.
Qed.

Variable f : string -> V.

Lemma setEach_cons (x : string) (l : list string) (m : JSMap.t V) :
  JSMap.setEach f (x :: l) m = JSMap.setEach f l (JSMap.set m x (f x)).
Proof. reflexivity. Qed.

Lemma setEach_get (l : list string) :
  forall (m : JSMap.t V) (a : string),
    (In a l -> JSMap.get (JSMap.setEach f l m) a = Some (f a)) /\
    (~ In a l -> JSMap.get (JSMap.setEach f l m) a = JSMap.get m a).
Proof.
  induction l as [|x l IH]; intros m a.
  - split; [contradiction | reflexivity].
  - rewrite setEach_cons.
    destruct (IH (JSMap.set m x (f x)) a) as [IHin IHout].
    destruct (in_dec string_dec a l) as [Hin|Hout].
    + split; intros; [auto | exfalso; cbn in *; auto].
    + rewrite (IHout Hout), get_set. split.
      * intros [->|H]; [|contradiction]. now rewrite String.eqb_refl.
      * intros Hn. destruct (String.eqb_spec x a) as [->|_];
          [exfalso; cbn in *; auto | reflexivity].
Qed.

Lemma setEach_keys (l : list string) :
  forall m : JSMap.t V,
    NoDup (JSMap.keys m) ->
    NoDup (JSMap.keys (JSMap.setEach f l m)) /\
    (forall a, In a (JSMap.keys (JSMap.setEach f l m)) <->
               In a (JSMap.keys m) \/ In a l).
Proof.
  induction l as [|x l IH]; intros m Hnd.
  - split; [assumption | intros a; cbn; tauto].
  - rewrite setEach_cons.
    destruct (IH (JSMap.set m x (f x)) (set_NoDup m x (f x) Hnd))
      as [Hnd' Hin].
    split; [exact Hnd'|]. intros a.
    rewrite Hin, set_keys_In. cbn. intuition auto.
Qed.

End MapFacts.

Section Mock.

Variable client : RangeClient.RangeClient.
Variable table : list (string * RiskScoreResponse).
Hypothesis client_is_mock : mockResponses client = Some table.

Let verdict : string -> Check.ComplianceCheckResult :=
  mockVerdict (maxRiskThreshold client) table.

Lemma checkCompliance_mock (address : string) (w : World) :
  checkCompliance client address w = Returns (verdict address) w.
Proof.
  unfold checkCompliance, checkSanctions, getAddressRiskScore, bind.
  rewrite client_is_mock. subst verdict. unfold mockVerdict.
  destruct (Map_get table address); reflexivity.
Qed.

Lemma batch_mock (batch : list string) (i : Z) (w : World) :
  mapi_from (fun addr _ => checkCompliance client addr) i batch w
  = Returns (map verdict batch) w.
Proof.
  revert i. induction batch as [|a batch IH]; intros i; cbn [mapi_from map].
  - reflexivity.
  - unfold bind. rewrite checkCompliance_mock, IH. reflexivity.
Qed.

Lemma setAll_setEach (batch : list string) :
  forall results,
    setAll results batch (map verdict batch)
    = JSMap.setEach verdict batch results.
Proof.
  unfold setAll, JSMap.setEach.
  induction batch as [|a batch IH]; intros results; cbn.
  - reflexivity.
  - apply IH.
Qed.

(** With fuel for the rounds that are left, the loop sets the
    addresses from [i] on, one by one. *)
Lemma batchLoop_mock (addresses : list string) (w : World) (fuel : nat) :
  forall (i : nat) (results : JSMap.t Check.ComplianceCheckResult),
    (List.length addresses <= i + BATCH_CONCURRENCY * fuel)%nat ->
    batchLoop client addresses fuel i results w
    = Returns (JSMap.setEach verdict (skipn i addresses) results) w.
Proof.
  unfold BATCH_CONCURRENCY.
  induction fuel as [|fuel IH]; intros i results Hfuel; cbn [batchLoop].
  - rewrite skipn_all2 by lia. reflexivity.
  - destruct (Nat.ltb_spec i (List.length addresses)) as [Hlt|Hge].
    + unfold bind, slice. rewrite batch_mock.
      unfold BATCH_CONCURRENCY.
      replace (i + 5 - i)%nat with 5%nat by lia.
      rewrite IH by lia. rewrite setAll_setEach. f_equal.
      rewrite <- (firstn_skipn 5 (skipn i addresses)) at 2.
      unfold JSMap.setEach. rewrite fold_left_app, skipn_skipn.
      now rewrite (Nat.add_comm 5 i).
    + rewrite skipn_all2 by lia. reflexivity.
Qed.

End Mock.

(** X12.  For a [MockRangeClient], [batchCheckCompliance] returns a map
    with one entry for each different address of the list, the entry of
    an address being the verdict that [checkCompliance] gives for it
    alone; it sends no request. *)
Theorem batch_check_on_mock (client : RangeClient.RangeClient)
        (table : list (string * RiskScoreResponse))
        (addresses : list string) (w : World) :
  mockResponses client = Some table ->
  exists results,
    batchCheckCompliance client addresses w = Returns results w /\
    (forall a, In a addresses ->
       exists verdict,
         checkCompliance client a w = Returns verdict w /\
         JSMap.get results a = Some verdict) /\
    (forall a, ~ In a addresses -> JSMap.get results a = None) /\
    NoDup (JSMap.keys results) /\
    (forall a, In a (JSMap.keys results) <-> In a addresses) /\
    (JSMap.size results <= List.length addresses)%nat.
Proof.
  intros Hmock.
  set (verdict := mockVerdict (maxRiskThreshold client) table).
  exists (JSMap.setEach verdict addresses JSMap.empty).
  destruct (setEach_keys _ verdict addresses JSMap.empty (NoDup_nil _))
    as [Hnd Hin].
  assert (Hkeys : forall a,
             In a (JSMap.keys (JSMap.setEach verdict addresses JSMap.empty))
             <-> In a addresses).
  { intros a. rewrite Hin. cbn. tauto. }
  split; [|split; [|split; [|split; [|split]]]].
  - unfold batchCheckCompliance.
    rewrite (batchLoop_mock client table Hmock addresses w) by
      (unfold BATCH_CONCURRENCY; lia).
    reflexivity.
  - intros a Ha. exists (verdict a). split.
    + apply (checkCompliance_mock client table Hmock).
    + now apply setEach_get.
  - intros a Ha.
    now rewrite (proj2 (setEach_get _ verdict addresses JSMap.empty a) Ha).
  - exact Hnd.
  - exact Hkeys.
  - unfold JSMap.size.
    rewrite <- (length_map fst). fold (JSMap.keys (JSMap.setEach verdict addresses JSMap.empty)).
    apply NoDup_incl_length; [exact Hnd|].
    intros a Ha. now apply Hkeys.
Qed.

(** Seven addresses, one of them twice: two rounds and six entries at
    most. *)
Lemma batch_check_on_mock_witness :
  exists results,
    batchCheckCompliance Examples.mockClient Samples.payroll
                         Examples.offline
    = Returns results Examples.offline /\
    (JSMap.size results <= 7)%nat.
Proof.
  destruct (batch_check_on_mock Examples.mockClient _ Samples.payroll
              Examples.offline eq_refl)
    as (results & Hret & _ & _ & _ & _ & Hsize).
  exists results. split; [exact Hret | exact Hsize].
Defined.

End GatewayFacts.

(* ------------------------------------------------------------------ *)
Module ProofFacts.
Import JSString JSON Eff Sys Noir NoirProofService Vocabulary.
Import NoirFacts JSONFacts SerializationFacts.
#[local] Open Scope string_scope.

(** ** Proof generation *)

Lemma encode_nonempty (c : ascii) (s : string) :
  TextEncoder_encode (String c s) <> [].
Proof.
  cbn [TextEncoder_encode].
  destruct (Z.of_N (code c) <? 128)%Z; discriminate.
Qed.

Lemma stringify_object_nonempty (members : list (string * json)) :
  TextEncoder_encode (stringify (JObj members)) <> [].
Proof. rewrite stringify_members. apply encode_nonempty. Qed.

(** Without the Noir libraries every proof is a placeholder. *)
Lemma generateProof_offline (service : NoirProofService.NoirProofService)
      (circuitType : CircuitType) (witness : ProofInput) (w : World) :
  noirInitialized w = false ->
  generateProof service circuitType witness w
  = createMockProof service circuitType witness w.
Proof.
  intros H. unfold generateProof. now rewrite H, andb_false_r.
Qed.

(** X13.  [generateProof] never throws.  The proof it returns is
    flagged as real exactly when real proofs are enabled, the Noir
    libraries are loaded, the circuit is served and the backend proves;
    its payload is then the one of the backend.  In every other case it
    is a placeholder with a payload that is not empty and with the
    public inputs read off the witness. *)
Theorem proof_provenance (service : NoirProofService.NoirProofService)
        (circuitType : CircuitType) (witness : ProofInput) (w : World) :
  exists p w',
    generateProof service circuitType witness w = Returns p w' /\
    (isRealProof p = true <->
     useRealProofs service = true /\ noirInitialized w = true /\
     circuits w circuitType <> None /\
     backend_prove w circuitType witness <> None) /\
    (isRealProof p = true ->
     w' = w /\
     exists inputs,
       backend_prove w circuitType witness = Some (proof p, inputs)) /\
    (isRealProof p = false ->
     proof p <> [] /\
     publicInputs p = extractPublicInputs circuitType witness /\
     clock_reads w' = S (clock_reads w)).
Proof.
  unfold generateProof.
  assert (Hmock : forall w0 : World,
             (useRealProofs service = true /\ noirInitialized w = true /\
              circuits w circuitType <> None /\
              backend_prove w circuitType witness <> None -> False) ->
             clock_reads w0 = clock_reads w ->
             exists p w',
               createMockProof service circuitType witness w0
               = Returns p w' /\
               (isRealProof p = true <->
                useRealProofs service = true /\ noirInitialized w = true /\
                circuits w circuitType <> None /\
                backend_prove w circuitType witness <> None) /\
               (isRealProof p = true ->
                w' = w /\
                exists inputs,
                  backend_prove w circuitType witness
                  = Some (proof p, inputs)) /\
               (isRealProof p = false ->
                proof p <> [] /\
                publicInputs p = extractPublicInputs circuitType witness /\
                clock_reads w' = S (clock_reads w))).
  { intros w0 Hno Hclock. unfold createMockProof, bind, Date_now, ret.
    do 2 eexists. split; [reflexivity|].
    cbn [isRealProof proof publicInputs clock_reads].
    split; [split; [discriminate | intros H; destruct (Hno H)]|].
    split; [discriminate|]. intros _.
    split; [apply stringify_object_nonempty|].
    split; [reflexivity | now rewrite Hclock]. }
  destruct (useRealProofs service) eqn:Hreal; cbn [andb];
    [|apply Hmock; [intros (H & _); discriminate | reflexivity]].
  destruct (noirInitialized w) eqn:Hinit;
    [|apply Hmock; [intros (_ & H & _); discriminate | reflexivity]].
  unfold try_catch, generateRealProof, bind, loadCircuit.
  destruct (circuits w circuitType) as [circuit|] eqn:Hcircuit;
    [|apply Hmock; [intros (_ & _ & H & _); now apply H | reflexivity]].
  destruct (backend_prove w circuitType witness) as [[bytes inputs]|]
    eqn:Hprove;
    [|apply Hmock; [intros (_ & _ & _ & H); now apply H | reflexivity]].
  do 2 eexists. split; [reflexivity|].
  cbn [isRealProof proof publicInputs].
  split; [split; [intros _; repeat split; discriminate | reflexivity]|].
  split; [|discriminate].
  intros _. split; [reflexivity|]. now exists inputs.
Qed.

(** X14.  The payload of a placeholder proof is the UTF-8 encoding of a
    JSON text that holds the whole witness, private values included. *)
Theorem placeholder_proof_discloses_witness
        (service : NoirProofService.NoirProofService)
        (circuitType : CircuitType) (witness : ProofInput)
        (w w' : World) (p : GeneratedProof) :
  generateProof service circuitType witness w = Returns p w' ->
  isRealProof p = false ->
  exists text parsed,
    proof p = TextEncoder_encode text /\
    JSON.parse text = Some parsed /\
    JSON.get "witness" parsed = Some (JObj witness) /\
    JSON.get "circuitType" parsed = Some (JStr (circuit_name circuitType)).
Proof.
  assert (Hmock : forall w0 : World,
             createMockProof service circuitType witness w0
             = Returns p w' ->
             exists text parsed,
               proof p = TextEncoder_encode text /\
               JSON.parse text = Some parsed /\
               JSON.get "witness" parsed = Some (JObj witness) /\
               JSON.get "circuitType" parsed
               = Some (JStr (circuit_name circuitType))).
  { intros w0 H. unfold createMockProof, bind, Date_now, ret in H.
    set (proofData :=
           JObj [("circuitType", JStr (circuit_name circuitType));
                 ("witness", JObj witness);
                 ("timestamp", JNum (clock w0 (clock_reads w0)));
                 ("mockProof", JBool true);
                 ("hash", JStr (simpleHash (stringify (JObj witness))))])
      in H.
    assert (Hp : proof p = TextEncoder_encode (stringify proofData))
      by now inversion H.
    exists (stringify proofData), proofData.
    split; [exact Hp|].
    split; [apply parse_stringify|]. split; reflexivity. }
  unfold generateProof. intros Hgen Hflag.
  destruct (useRealProofs service && noirInitialized w);
    [|now apply (Hmock w)].
  unfold try_catch in Hgen.
  destruct (generateRealProof service circuitType witness w)
    as [q w1|e w1] eqn:Hreal; [|now apply (Hmock w1)].
  injection Hgen as -> _. exfalso.
  unfold generateRealProof, bind, loadCircuit, throw in Hreal.
  destruct (circuits w circuitType); [|discriminate].
  destruct (backend_prove w circuitType witness) as [[bytes inputs]|];
    [|discriminate].
  injection Hreal as <- _. discriminate.
Qed.

(** The age proof of the offline world shows the age. *)
Lemma placeholder_proof_discloses_witness_witness :
  match generateProof createNoirProofService age_verification
                      Samples.ageWitness Examples.offline with
  | Returns p _ =>
      exists text parsed,
        proof p = TextEncoder_encode text /\
        JSON.parse text = Some parsed /\
        JSON.get "witness" parsed = Some (JObj Samples.ageWitness) /\
        JSON.get "circuitType" parsed = Some (JStr "age_verification")
  | Throws _ _ => False
  end.
Proof.
  pose proof (generateProof_offline createNoirProofService age_verification
                Samples.ageWitness Examples.offline eq_refl) as E.
  unfold createMockProof, bind, Date_now, ret in E.
  rewrite E.
  exact (placeholder_proof_discloses_witness _ _ _ _ _ _ E eq_refl).
Defined.

(** ** Verification *)

(** X15.  [verifyProof] never throws and leaves the world as it is.
    When the verifier of the backend is asked, its verdict decides and
    its error makes the proof invalid; in every other case, also for a
    proof flagged as real, a payload that is not empty is accepted. *)
Theorem verification_outcome (service : NoirProofService.NoirProofService)
        (circuitType : CircuitType) (p : GeneratedProof) (w : World) :
  exists result,
    verifyProof service circuitType p w = Returns result w /\
    (backendAsked w circuitType p = false ->
     result = mkVerification (nonEmpty p) None) /\
    (backendAsked w circuitType p = true ->
     (isValid result = true <->
      backend_verify w circuitType (proof p) (publicInputs p) = inr true) /\
     (forall e,
         error result = Some e <->
         backend_verify w circuitType (proof p) (publicInputs p) = inl e)) /\
    (error result <> None -> isValid result = false).
Proof.
  unfold verifyProof, backendAsked.
  destruct (isRealProof p); cbn [negb andb].
  - unfold try_catch, bind, loadCircuit, ret.
    destruct (circuits w circuitType) as [circuit|].
    + destruct (noirInitialized w); cbn [negb].
      * destruct (backend_verify w circuitType (proof p) (publicInputs p))
          as [e|valid]; eexists; (split; [reflexivity|]);
          cbn [isValid error].
        -- split; [discriminate|]. split; [|reflexivity].
           intros _. split; [split; discriminate|].
           intros e'. split; intros H; injection H as ->; reflexivity.
        -- split; [discriminate|]. split; [|intros H; now destruct H].
           intros _. split; [split; congruence|].
           intros e'. split; discriminate.
      * eexists. split; [reflexivity|].
        split; [reflexivity|]. split; [discriminate|].
        intros H. now destruct H.
    + eexists. split; [reflexivity|].
      split; [reflexivity|]. split; [discriminate|].
      intros H. now destruct H.
  - eexists. split; [reflexivity|].
    split; [reflexivity|]. split; [discriminate|].
    intros H. now destruct H.
Qed.

(** ** simpleHash *)

Lemma digits_length (radix : N) (fuel : nat) :
  (2 <= radix)%N ->
  forall (k : nat) (n : N) (acc : string),
    (1 <= k)%nat -> (n < radix ^ N.of_nat k)%N ->
    (String.length (digits radix fuel n acc) <= k + String.length acc)%nat.
Proof.
  intros Hradix.
  induction fuel as [|fuel IH]; intros k n acc Hk Hn; cbn [digits].
  - lia.
  - destruct (N.eqb_spec (n / radix) 0) as [Hz|Hnz].
    + cbn [String.length]. lia.
    + destruct k as [|[|k]]; [lia| |].
      * exfalso. apply Hnz. apply N.div_small.
        now rewrite N.pow_1_r in Hn.
      * specialize (IH (S k) (n / radix)%N
                       (String (digit (n mod radix)) acc)).
        cbn [String.length] in IH.
        assert (Hdiv : (n / radix < radix ^ N.of_nat (S k))%N).
        { apply N.Div0.div_lt_upper_bound.
          rewrite (Nnat.Nat2N.inj_succ (S k)), N.pow_succ_r' in Hn.
          exact Hn. }
        specialize (IH ltac:(lia) Hdiv). lia.
Qed.

Lemma padStart8_length (s : string) :
  (String.length s <= 8)%nat -> String.length (padStart8 s) = 8%nat.
Proof.
  unfold padStart8. intros H.
  assert (E : forall n, String.length (Nat.iter n (String "0") s)
                        = (n + String.length s)%nat).
  { induction n as [|n IHn]; [reflexivity|].
    change (Nat.iter (S n) (String "0") s)
      with (String "0" (Nat.iter n (String "0") s)).
    cbn [String.length]. now rewrite IHn. }
  rewrite E. lia.
Qed.

Lemma toInt32_range (z : Z) : (- 2 ^ 31 <= toInt32 z < 2 ^ 31)%Z.
Proof.
  unfold toInt32.
  pose proof (Z.mod_pos_bound z (2 ^ 32) ltac:(reflexivity)) as H.
  destruct (Z.ltb_spec (z mod 2 ^ 32) (2 ^ 31)); lia.
Qed.

Lemma hashLoop_range (str : string) :
  forall hash : Z,
    (- 2 ^ 31 <= hash < 2 ^ 31)%Z ->
    (- 2 ^ 31 <= hashLoop str hash < 2 ^ 31)%Z.
Proof.
  induction str as [|c r IH]; intros hash Hh; cbn [hashLoop].
  - assumption.
  - apply IH, toInt32_range.
Qed.

(** X16.  [simpleHash] returns eight characters for every string. *)
Theorem simpleHash_length (str : string) :
  String.length (simpleHash str) = 8%nat.
Proof.
  unfold simpleHash. apply padStart8_length.
  pose proof (hashLoop_range str 0
                ltac:(split; [discriminate | reflexivity])) as Hr.
  set (h := hashLoop str 0) in *. clearbody h.
  unfold toStringRadix.
  destruct (Z.ltb_spec (Z.abs h) 0) as [Hneg|_]; [lia|].
  cbn [append].
  set (m := Z.to_N (Z.abs (Z.abs h))).
  pose proof (digits_length 16 (S (N.to_nat (N.log2 m))) ltac:(lia)
                8 m EmptyString ltac:(lia)) as Hd.
  cbn [String.length] in Hd. rewrite Nat.add_0_r in Hd. apply Hd.
  subst m. change (16 ^ N.of_nat 8)%N with (Z.to_N (2 ^ 32)).
  apply Z2N.inj_lt; lia.
Qed.

(** ** Deserialization *)



End ProofFacts.

(* ------------------------------------------------------------------ *)
Module AttestationFacts.
Import Eff Sys Noir NoirProofService ComplianceService Vocabulary.
Import NoirFacts ComplianceServiceFacts ProofFacts.
#[local] Open Scope Z_scope.

(** ** What the validations ask for *)






(** ** Attestations generated without a proving backend *)

Lemma getAddressRiskScore_noir (client : RangeClient.RangeClient)
      (address : string) (w : World) :
  match RangeClient.getAddressRiskScore client address w with
  | Returns _ w' => noirInitialized w' = noirInitialized w
  | Throws _ w' => noirInitialized w' = noirInitialized w
  end.
Proof.
  unfold RangeClient.getAddressRiskScore, http_get_risk, ret.
  destruct (RangeClient.mockResponses client) as [m|].
  - destruct (RangeClient.Map_get m address); reflexivity.
  - destruct (range_api w (range_calls w) address); reflexivity.
Qed.

Lemma checkCompliance_noir (client : RangeClient.RangeClient)
      (address : string) (check : Check.ComplianceCheckResult)
      (w w1 : World) :
  RangeClient.checkCompliance client address w = Returns check w1 ->
  noirInitialized w1 = noirInitialized w.
Proof.
  unfold RangeClient.checkCompliance, RangeClient.checkSanctions, bind, ret.
  pose proof (getAddressRiskScore_noir client address w) as H1.
  destruct (RangeClient.getAddressRiskScore client address w)
    as [r wa|e wa]; [|discriminate].
  pose proof (getAddressRiskScore_noir client address wa) as H2.
  destruct (RangeClient.getAddressRiskScore client address wa)
    as [r' wb|e wb]; [|discriminate].
  intros H. injection H as _ <-. congruence.
Qed.

Lemma generateProof_placeholder
      (service : NoirProofService.NoirProofService)
      (circuitType : CircuitType) (witness : ProofInput) (w : World) :
  noirInitialized w = false ->
  placeholderOutcome (generateProof service circuitType witness w).
Proof.
  intros H. rewrite generateProof_offline by assumption.
  unfold createMockProof, bind, Date_now, ret, placeholderOutcome.
  cbn [isRealProof proof noirInitialized].
  split; [reflexivity|]. split; [apply stringify_object_nonempty | exact H].
Qed.

Lemma validated_placeholder {I : Type} (validate : I -> string + unit)
      (input : I) (k : IO GeneratedProof) (w : World) :
  noirInitialized w = false ->
  placeholderOutcome (k w) ->
  placeholderOutcome (bind (of_sum (validate input)) (fun _ => k) w).
Proof.
  intros H Hk. unfold bind, of_sum.
  destruct (validate input) as [e|[]]; cbn; assumption.
Qed.

Section Offline.

Context {platform : Platform}.
Variable service : ComplianceService.ComplianceService.
Variable request : Request.AttestationRequest.
Variable check : Check.ComplianceCheckResult.

(** Without the Noir libraries the [try] block leaves a selective
    disclosure proof exactly when it sets the flag, and the proof is a
    placeholder with a payload. *)
Lemma attempt_offline (w : World) :
  noirInitialized w = false ->
  exists l,
    attempt service request check (mkLocals None None None false w)
    = Returns tt l /\
    isCompliant l = present (selectiveDisclosureProof l) /\
    (forall p, selectiveDisclosureProof l = Some p ->
               isRealProof p = false /\ proof p <> []).
Proof.
  intros Hw. unfold attempt, try_catch.
  pose proof (validated_placeholder validateAgeInput
                (ageInput service request)
                (generateProof (noirService service) age_verification
                   [("age"%string, JSON.JNum (AgeInput.age (ageInput service request)));
                    ("minimum_age"%string,
                     JSON.JNum (AgeInput.minimumAge (ageInput service request)))])
                w Hw (generateProof_placeholder _ _ _ w Hw)) as HA.
  fold (generateAgeProof (noirService service) (ageInput service request) w)
    in HA.
  destruct (generateAgeProof (noirService service)
              (ageInput service request) w) as [pa w1|e w1] eqn:EA.
  2:{ erewrite bind_throws by (apply io_throws; exact EA).
      eexists. split; [reflexivity|]. cbn. split; [reflexivity|].
      discriminate. }
  destruct HA as (_ & _ & Hw1).
  erewrite bind_returns by (apply io_returns; exact EA).
  unfold set_ageProof at 1. unfold bind at 1.
  cbn [ageProof riskProof selectiveDisclosureProof isCompliant world].
  pose proof (validated_placeholder validateRiskInput
                (riskInput service request check)
                (generateProof (noirService service) risk_threshold
                   [("risk_score"%string,
                     JSON.JNum (RiskInput.riskScore
                                  (riskInput service request check)));
                    ("max_allowed_risk"%string,
                     JSON.JNum (RiskInput.maxAllowedRisk
                                  (riskInput service request check)))])
                w1 Hw1 (generateProof_placeholder _ _ _ w1 Hw1)) as HR.
  fold (generateRiskProof (noirService service)
          (riskInput service request check) w1) in HR.
  destruct (generateRiskProof (noirService service)
              (riskInput service request check) w1) as [pr w2|e w2] eqn:ER.
  2:{ erewrite bind_throws by (apply io_throws; exact ER).
      eexists. split; [reflexivity|]. cbn. split; [reflexivity|].
      discriminate. }
  destruct HR as (_ & _ & Hw2).
  erewrite bind_returns by (apply io_returns; exact ER).
  unfold set_riskProof at 1. unfold bind at 1.
  cbn [ageProof riskProof selectiveDisclosureProof isCompliant world].
  set (input := disclosureInput service request check).
  pose proof (validated_placeholder validateSelectiveDisclosureInput
                input
                (generateProof (noirService service) selective_disclosure
                   [("age"%string, JSON.JNum (DisclosureInput.age input));
                    ("risk_score"%string,
                     JSON.JNum (DisclosureInput.riskScore input));
                    ("is_sanctioned"%string,
                     JSON.JBool (DisclosureInput.isSanctioned input));
                    ("wallet_balance_usd"%string,
                     JSON.JNum (DisclosureInput.walletBalanceUsd input));
                    ("minimum_age"%string,
                     JSON.JNum (DisclosureInput.minimumAge input));
                    ("max_risk_score"%string,
                     JSON.JNum (DisclosureInput.maxRiskScore input));
                    ("min_balance_usd"%string,
                     JSON.JNum (DisclosureInput.minBalanceUsd input))])
                w2 Hw2 (generateProof_placeholder _ _ _ w2 Hw2)) as HD.
  fold (generateSelectiveDisclosureProof (noirService service) input w2)
    in HD.
  destruct (generateSelectiveDisclosureProof (noirService service) input w2)
    as [pd w3|e w3] eqn:ED.
  2:{ erewrite bind_throws by (apply io_throws; exact ED).
      eexists. split; [reflexivity|]. cbn. split; [reflexivity|].
      discriminate. }
  destruct HD as (Hflag & Hpayload & _).
  erewrite bind_returns by (apply io_returns; exact ED).
  eexists. split; [reflexivity|]. cbn. split; [reflexivity|].
  intros p Hp. injection Hp as <-. split; assumption.
Qed.

(** X19.  When the Noir libraries are not loaded, [verifyAttestation]
    accepts the attestation that [generateAttestation] returns exactly
    when that attestation is flagged compliant. *)
Theorem generated_attestation_verifies (w w1 : World) :
  noirInitialized w = false ->
  RangeClient.checkCompliance (rangeClient service)
                              (Request.walletAddress request) w
  = Returns check w1 ->
  exists attestation w',
    generateAttestation service request w = Returns attestation w' /\
    verifyAttestation service attestation w'
    = Returns (Attestation.isCompliant attestation) w'.
Proof.
  intros Hw Hcheck.
  pose proof (checkCompliance_noir _ _ _ _ _ Hcheck) as Hw1.
  rewrite Hw in Hw1.
  destruct (attempt_offline w1 Hw1) as (l & Hl & Hflag & Hproof).
  unfold generateAttestation.
  rewrite (bind_returns _ _ _ _ _ Hcheck). rewrite Hl.
  unfold generateAttestationId, bind, Date_now, Math_random, ret.
  do 2 eexists. split; [reflexivity|].
  unfold verifyAttestation.
  cbn [Attestation.proofs Attestation.selectiveDisclosure
       Attestation.isCompliant].
  rewrite Hflag.
  destruct (selectiveDisclosureProof l) as [p|] eqn:Hp; cbn [present].
  - destruct (Hproof p eq_refl) as [Hmock Hpayload].
    unfold bind. rewrite (verifyProof_mock _ _ _ _ Hmock).
    unfold ret. cbn [isValid]. f_equal.
    now apply nonEmpty_spec.
  - reflexivity.
Qed.

End Offline.

(** The compliant user in the offline world. *)
Lemma generated_attestation_verifies_witness :
  exists attestation w',
    generateAttestation (platform := Examples.platform)
                        Examples.service Samples.compliantRequest
                        Examples.offline
    = Returns attestation w' /\
    verifyAttestation Examples.service attestation w'
    = Returns (Attestation.isCompliant attestation) w'.
Proof.
  exact (generated_attestation_verifies (platform := Examples.platform)
           Examples.service Samples.compliantRequest
           (RangeBatch.mockVerdict 5 [] "TestWallet123")
           Examples.offline Examples.offline eq_refl eq_refl).
Defined.

End AttestationFacts.

(* ------------------------------------------------------------------ *)
Module TransferFacts.
Import Eff Sys ComplianceService ShadowWire PrivateTransfer JSFacts.
Import ComplianceServiceFacts.
#[local] Open Scope string_scope.

(** ** Fees *)



(** ** The transfer *)

Lemma net_returns {A : Type} (c : IO A) (a : A) (w' : World) (n : Net) :
  c (world n) = Returns a w' ->
  ShadowWire.io c n
  = Returns a (mkNet w' (shadowwire_transfer n) (transfers n)).
Proof. intros H. unfold ShadowWire.io, zoom. now rewrite H. Qed.

Lemma net_throws {A : Type} (c : IO A) (e : string) (w' : World) (n : Net) :
  c (world n) = Throws e w' ->
  ShadowWire.io c n
  = Throws e (mkNet w' (shadowwire_transfer n) (transfers n)).
Proof. intros H. unfold ShadowWire.io, zoom. now rewrite H. Qed.


(** X21.  When compliance is required, [executePrivateTransfer] sends
    nothing to the network unless the recipient has been checked and
    found compliant: an error of the check is thrown to the caller, and
    a recipient that is not compliant is refused with the reasoning of
    the check. *)
Theorem transfer_requires_clearance
        (service : ComplianceService.ComplianceService)
        (request : PrivateTransferRequest) (n : Net) :
  complianceRequired request = true ->
  (forall e w',
      RangeClient.checkCompliance (rangeClient service)
                                  (recipientAddress request) (world n)
      = Throws e w' ->
      executePrivateTransfer service request n
      = Throws e (mkNet w' (shadowwire_transfer n) (transfers n))) /\
  (forall check w',
      RangeClient.checkCompliance (rangeClient service)
                                  (recipientAddress request) (world n)
      = Returns check w' ->
      Check.isCompliant check = false ->
      executePrivateTransfer service request n
      = Returns (PrivateTransfer.mkResult
                   false None None (Some check)
                   (Some ("Recipient failed compliance: "
                          ++ Check.reasoning check)))
                (mkNet w' (shadowwire_transfer n) (transfers n))) /\
  (transfers (finalState (executePrivateTransfer service request n))
   <> transfers n ->
   exists check w',
     RangeClient.checkCompliance (rangeClient service)
                                 (recipientAddress request) (world n)
     = Returns check w' /\
     Check.isCompliant check = true).
Proof.
  intros Hrequired. unfold executePrivateTransfer. rewrite Hrequired.
  split; [|split].
  - intros e w' Hcheck.
    now rewrite (bind_throws _ _ _ _ _ (net_throws _ _ _ _ Hcheck)).
  - intros check w' Hcheck Hbad.
    rewrite (bind_returns _ _ _ _ _ (net_returns _ _ _ _ Hcheck)).
    now rewrite Hbad.
  - destruct (RangeClient.checkCompliance
                (rangeClient service) (recipientAddress request) (world n))
      as [check w'|e w'] eqn:Hcheck.
    + rewrite (bind_returns _ _ _ _ _ (net_returns _ _ _ _ Hcheck)).
      destruct (Check.isCompliant check) eqn:Hc; cbn [negb].
      * intros _. now exists check, w'.
      * intros H. now destruct H.
    + rewrite (bind_throws _ _ _ _ _ (net_throws _ _ _ _ Hcheck)).
      intros H. now destruct H.
Qed.

(** The high-risk recipient is refused and nothing is sent. *)
Lemma transfer_requires_clearance_witness :
  complianceRequired Samples.riskyTransfer = true /\
  exists result,
    executePrivateTransfer Samples.screeningService Samples.riskyTransfer
                           Samples.unreachable
    = Returns result Samples.unreachable /\
    success result = false /\
    error result
    = Some "Recipient failed compliance: 1 hop from malicious address.".
Proof.
  split; [reflexivity|].
  eexists. split.
  - exact (proj1 (proj2 (transfer_requires_clearance
                           Samples.screeningService Samples.riskyTransfer
                           Samples.unreachable eq_refl))
                 _ _ eq_refl eq_refl).
  - split; reflexivity.
Defined.



End TransferFacts.

(* ------------------------------------------------------------------ *)
Module RouteFacts.
Import Eff Sys Noir NoirProofService VerifyRoute NoirFacts.
#[local] Open Scope string_scope.



End RouteFacts.

(* ------------------------------------------------------------------ *)
Module FreshAddressFacts.
Import JS JSString Eff Sys PrivacyUtils Page Vocabulary.
Import DeriveFacts PageFacts.
#[local] Open Scope Z_scope.




End FreshAddressFacts.

(* ------------------------------------------------------------------ *)
Module ProviderFailureFacts.
Import Eff Sys ComplianceService ComplianceServiceFacts.

(** X25.  [generateAttestation] throws only when the compliance check
    does: an error of the risk provider is thrown to the caller, without
    an attestation, and in every other case an attestation is
    returned. *)
Theorem attestation_throws_only_on_provider_failure
        {platform : Platform}
        (service : ComplianceService.ComplianceService)
        (request : Request.AttestationRequest) (w : World) :
  (forall e w',
      RangeClient.checkCompliance (rangeClient service)
                                  (Request.walletAddress request) w
      = Throws e w' ->
      generateAttestation service request w = Throws e w') /\
  (forall e w',
      generateAttestation service request w = Throws e w' ->
      RangeClient.checkCompliance (rangeClient service)
                                  (Request.walletAddress request) w
      = Throws e w').
Proof.
  split.
  - intros e w' Hcheck. unfold generateAttestation.
    now rewrite (bind_throws _ _ _ _ _ Hcheck).
  - intros e w' Hgen.
    destruct (RangeClient.checkCompliance
                (rangeClient service) (Request.walletAddress request) w)
      as [check w1|e1 w1] eqn:Hcheck.
    + destruct (generateAttestation_returns service request check w w1
                  Hcheck) as (attestation & w2 & Hret & _).
      rewrite Hret in Hgen. discriminate.
    + unfold generateAttestation in Hgen.
      rewrite (bind_throws _ _ _ _ _ Hcheck) in Hgen.
      injection Hgen as -> ->. reflexivity.
Qed.

(** Without network the attestation of a service that asks the
    provider fails with the network error. *)
Lemma attestation_throws_only_on_provider_failure_witness :
  exists w',
    generateAttestation (platform := Examples.platform)
                        Samples.onlineService Samples.compliantRequest
                        Examples.offline
    = Throws "Network Error"%string w'.
Proof.
  eexists.
  apply (proj1 (attestation_throws_only_on_provider_failure
                  (platform := Examples.platform)
                  Samples.onlineService Samples.compliantRequest
                  Examples.offline)).
  reflexivity.
Defined.

End ProviderFailureFacts.

(* ================================================================== *)
(** * The expectations of the repository's test suite, replayed *)
(* ================================================================== *)

Module Tests.
Import Eff Sys Examples.
#[local] Open Scope string_scope.

(** privacy-utils.test.ts *)

Example score_minimal_config :
  PrivacyScore.calculatePrivacyScore (PrivacyScore.mkConfig 1 0 0 0) = Some 6%Z.
Proof. reflexivity. Qed.

Example score_caps_at_100 :
  PrivacyScore.calculatePrivacyScore
    (PrivacyScore.mkConfig 100 100 1000 100000) = Some 100%Z.
Proof. reflexivity. Qed.

Example split_below_floor :
  PrivacyUtils.splitAmountDeterministic (platform := Examples.platform)
    0.05 5 None = [0.05%Q].
Proof. reflexivity. Qed.

Example split_requested_parts :
  List.length (PrivacyUtils.splitAmountDeterministic
                 (platform := Examples.platform) 5 5 None) = 5%nat.
Proof. reflexivity. Qed.

Example split_explicit_bounds :
  option_map (@List.length Q)
             (result (PrivacyUtils.splitAmount 5 (Some 2%Z) (Some 2%Z)))
  = Some 2%nat.
Proof. reflexivity. Qed.

Example keypair_secret_has_64_bytes :
  match PrivacyUtils.deriveKeypair (platform := Examples.platform)
          Examples.seed42 0 with
  | inr keypair => List.length (Solana.secretKey keypair)
  | inl _ => 0%nat
  end = 64%nat.
Proof. reflexivity. Qed.

(** noir-proof-service.test.ts *)

Example age_proof_public_inputs :
  option_map Noir.publicInputs
    (result (NoirProofService.generateAgeProof
               NoirProofService.createNoirProofService (AgeInput.mk 25 18)))
  = Some ["18"].
Proof. reflexivity. Qed.

Example age_below_minimum :
  thrown (NoirProofService.generateAgeProof
            NoirProofService.createNoirProofService (AgeInput.mk 16 18))
  = Some "Age verification will fail: age is below minimum".
Proof. reflexivity. Qed.

Example age_out_of_range :
  thrown (NoirProofService.generateAgeProof
            NoirProofService.createNoirProofService (AgeInput.mk (-1) 18))
  = Some "Invalid age: must be between 0 and 255 (u8)".
Proof. reflexivity. Qed.

Example disclosure_public_inputs :
  option_map Noir.publicInputs
    (result (NoirProofService.generateSelectiveDisclosureProof
               NoirProofService.createNoirProofService
               (DisclosureInput.mk 30 2 false 10000 18 5 1000)))
  = Some ["18"; "5"; "1000"].
Proof. reflexivity. Qed.

Example disclosure_sanctioned :
  thrown (NoirProofService.generateSelectiveDisclosureProof
            NoirProofService.createNoirProofService
            (DisclosureInput.mk 30 2 true 10000 18 5 1000))
  = Some "Selective disclosure will fail: address is sanctioned".
Proof. reflexivity. Qed.

Example disclosure_low_balance :
  thrown (NoirProofService.generateSelectiveDisclosureProof
            NoirProofService.createNoirProofService
            (DisclosureInput.mk 30 2 false 500 18 5 1000))
  = Some "Selective disclosure will fail: balance below minimum".
Proof. reflexivity. Qed.

Example simpleHash_hello : NoirProofService.simpleHash "hello" = "05e918d2".
Proof. reflexivity. Qed.

(** range-client.test.ts *)

Example low_risk_is_compliant :
  option_map (fun r => (Check.isCompliant r, Check.isSanctioned r))
    (result (RangeClient.checkCompliance RangeClient.new_MockRangeClient
                                         "SafeAddress123"))
  = Some (true, false).
Proof. reflexivity. Qed.

Example high_risk_is_not_compliant :
  option_map (fun r => (Check.isCompliant r, Check.riskScore r))
    (result (RangeClient.checkCompliance Examples.mockClient
                                         "HighRiskAddress"))
  = Some (false, 8%Z).
Proof. reflexivity. Qed.

Example sanctioned_is_detected :
  option_map (fun r => (Check.isCompliant r, Check.isSanctioned r))
    (result (RangeClient.checkCompliance
               (RangeClient.setMockResponse RangeClient.new_MockRangeClient
                  "SanctionedAddress" Examples.sanctionedResponse)
               "SanctionedAddress"))
  = Some (false, true).
Proof. reflexivity. Qed.

(** compliance-service.test.ts *)

Example compliant_user :
  option_map Attestation.isCompliant
    (result (ComplianceService.generateAttestation
               (platform := Examples.platform) Examples.service
               (Request.mk "TestWallet123" 25 None None None (Some 5000%Z))))
  = Some true.
Proof. reflexivity. Qed.

Example underage_user :
  option_map Attestation.isCompliant
    (result (ComplianceService.generateAttestation
               (platform := Examples.platform) Examples.service
               (Request.mk "TestWallet123" 16 None None None (Some 5000%Z))))
  = Some false.
Proof. reflexivity. Qed.

Example attestation_without_proof_is_rejected :
  result (ComplianceService.verifyAttestation Examples.service
                                              Examples.emptyAttestation)
  = Some false.
Proof. reflexivity. Qed.

Example serialized_mock_proof :
  NoirProofService.serializeProof Examples.mockProof
  = String "{" (String JSON.dquote "proof") ++ String JSON.dquote ":[123,125],"
    ++ JSON.quote "publicInputs" ++ ":[" ++ JSON.quote "18" ++ "],"
    ++ JSON.quote "isRealProof" ++ ":false}".
Proof. reflexivity. Qed.

End Tests.

(* ------------------------------------------------------------------ *)
Module TransferTests.
Import Eff Sys ShadowWire.
#[local] Open Scope string_scope.

(** shadowwire-service.test.ts *)

Example fee_of_one_SOL :
  (feePercent_of (calculateFee 1.0 SOL) == 0.5)%Q /\
  (fee_of (calculateFee 1.0 SOL) == 0.005)%Q /\
  (netAmount_of (calculateFee 1.0 SOL) == 0.995)%Q.
Proof. repeat split. Qed.

Example fee_of_hundred_USDC :
  (feePercent_of (calculateFee 100 USDC) == 1)%Q /\
  (fee_of (calculateFee 100 USDC) == 1)%Q /\
  (netAmount_of (calculateFee 100 USDC) == 99)%Q.
Proof. repeat split. Qed.

Example fee_of_fifty_RAIN :
  (feePercent_of (calculateFee 50 RAIN) == 2)%Q /\
  (fee_of (calculateFee 50 RAIN) == 1)%Q /\
  (netAmount_of (calculateFee 50 RAIN) == 49)%Q.
Proof. repeat split. Qed.

Example supported_tokens :
  List.length getSupportedTokens = 22%nat /\
  In SOL getSupportedTokens /\ In USDC getSupportedTokens /\
  In RADR getSupportedTokens.
Proof. cbn. intuition. Qed.

Example token_info_of_SOL :
  TOKEN_DECIMALS SOL = 9%Z /\ (TOKEN_FEE_PERCENT SOL == 0.5)%Q.
Proof. split; reflexivity. Qed.

(** range-client.test.ts: batchCheckCompliance *)

Example batch_of_three_addresses :
  match RangeBatch.batchCheckCompliance RangeClient.new_MockRangeClient
          ["Addr1"; "Addr2"; "Addr3"] Examples.offline with
  | Returns results _ =>
      JSMap.size results = 3%nat /\
      option_map Check.isCompliant (JSMap.get results "Addr1") = Some true
  | Throws _ _ => False
  end.
Proof. vm_compute. split; reflexivity. Qed.

End TransferTests.
